(** * Command sets for wifi bridge version 6 (limitlessled/group/commands/v6.py)

    A shallow embedding of the v6 command builder: the Python numbers the
    builder computes with (unbounded integers and binary64 floats), the
    hue extraction of [colorsys.rgb_to_hsv], the shared frame template
    [_build_command] and the four device command sets. *)

From Stdlib Require Import ZArith List Bool Lia.
From Stdlib Require Import Floats.SpecFloat.
From ExtLib Require Import Structures.Monad Data.Monads.EitherMonad.
Import ListNotations.
Import MonadNotation.
Local Open Scope monad_scope.
Local Open Scope Z_scope.

(** ** Python numbers *)

Module Py.

(** Python's [float] is IEEE 754 binary64. *)
Definition prec : Z := 53.
Definition emax : Z := 1024.
Definition float : Set := spec_float.

Inductive value :=
| PyInt (n : Z)
| PyFloat (x : float).

(** The exceptions the modelled code can raise.  [UnsupportedOperation] is
    the error kind of the specification; no path of the source raises it. *)
Inductive exn :=
| TypeError
| ValueError
| OverflowError
| ZeroDivisionError
| AttributeError
| UnsupportedOperation.

Definition result := sum exn.
Definition raise {A} (e : exn) : result A := inl e.

(** Float literals: [lit m e] is the binary64 number nearest to [m * 2^e]. *)
Definition lit (m e : Z) : float := binary_normalize prec emax m e false.

(** [float(n)] for an integer: round to nearest even, [OverflowError] when
    the integer is too large. *)
Definition float_of_int (n : Z) : result float :=
  match binary_normalize prec emax n 0 false with
  | S754_infinity _ => raise OverflowError
  | x => ret x
  end.

Definition to_float (v : value) : result float :=
  match v with
  | PyInt n => float_of_int n
  | PyFloat x => ret x
  end.

(** *** Arithmetic: int op int stays an integer, anything with a float
    is computed in binary64 after converting the integer operand. *)

Definition arith (fi : Z -> Z -> Z) (ff : float -> float -> float)
           (a b : value) : result value :=
  match a, b with
  | PyInt x, PyInt y => ret (PyInt (fi x y))
  | _, _ =>
      x <- to_float a ;;
      y <- to_float b ;;
      ret (PyFloat (ff x y))
  end.

Definition add := arith Z.add (SFadd prec emax).
Definition sub := arith Z.sub (SFsub prec emax).
Definition mul := arith Z.mul (SFmul prec emax).

Definition is_zero (x : float) : bool :=
  match x with S754_zero _ => true | _ => false end.

(** [a / b] on two integers is the correctly rounded quotient. *)
Definition int_truediv (a b : Z) : result float :=
  if b =? 0 then raise ZeroDivisionError
  else
    let sa := a <? 0 in
    let sb := b <? 0 in
    match a with
    | Z0 => ret (S754_zero sb)
    | _ =>
        match SFdiv prec emax (S754_finite sa (Z.to_pos (Z.abs a)) 0)
                              (S754_finite sb (Z.to_pos (Z.abs b)) 0) with
        | S754_infinity _ => raise OverflowError
        | q => ret q
        end
    end.

Definition float_truediv (x y : float) : result float :=
  if is_zero y then raise ZeroDivisionError else ret (SFdiv prec emax x y).

Definition truediv (a b : value) : result value :=
  match a, b with
  | PyInt x, PyInt y => q <- int_truediv x y ;; ret (PyFloat q)
  | _, _ =>
      x <- to_float a ;;
      y <- to_float b ;;
      q <- float_truediv x y ;;
      ret (PyFloat q)
  end.

(** C's [fmod]: the exact remainder, with the sign of the dividend. *)
Definition fmod (x y : float) : float :=
  match x, y with
  | S754_nan, _ | _, S754_nan => S754_nan
  | S754_infinity _, _ => S754_nan
  | _, S754_zero _ => S754_nan
  | _, S754_infinity _ => x
  | S754_zero _, _ => x
  | S754_finite sx mx ex, S754_finite _ my ey =>
      let e := Z.min ex ey in
      let r := (Zpos mx * 2 ^ (ex - e)) mod (Zpos my * 2 ^ (ey - e)) in
      binary_normalize prec emax (cond_Zopp sx r) e sx
  end.

Definition sign_bit (x : float) : bool :=
  match x with
  | S754_zero s | S754_infinity s | S754_finite s _ _ => s
  | S754_nan => false
  end.

(** [float.__mod__]: the remainder takes the sign of the divisor. *)
Definition float_mod (x y : float) : result float :=
  if is_zero y then raise ZeroDivisionError
  else
    let m := fmod x y in
    match m with
    | S754_zero _ => ret (S754_zero (sign_bit y))
    | S754_nan => ret m
    | _ =>
        if xorb (sign_bit y) (sign_bit m)
        then ret (SFadd prec emax m y)
        else ret m
    end.

Definition mod_ (a b : value) : result value :=
  match a, b with
  | PyInt x, PyInt y =>
      if y =? 0 then raise ZeroDivisionError else ret (PyInt (x mod y))
  | _, _ =>
      x <- to_float a ;;
      y <- to_float b ;;
      r <- float_mod x y ;;
      ret (PyFloat r)
  end.

(** [x & y] is defined on integers only. *)
Definition and_ (a b : value) : result value :=
  match a, b with
  | PyInt x, PyInt y => ret (PyInt (Z.land x y))
  | _, _ => raise TypeError
  end.

(** *** Comparison: exact, also between an integer and a float. *)

Inductive ext :=
| NaN
| NegInf
| PosInf
| Fin (m e : Z).   (* m * 2^e *)

Definition ext_of_float (x : float) : ext :=
  match x with
  | S754_nan => NaN
  | S754_infinity true => NegInf
  | S754_infinity false => PosInf
  | S754_zero _ => Fin 0 0
  | S754_finite s m e => Fin (cond_Zopp s (Zpos m)) e
  end.

Definition ext_of (v : value) : ext :=
  match v with
  | PyInt n => Fin n 0
  | PyFloat x => ext_of_float x
  end.

Definition compare (a b : value) : option comparison :=
  match ext_of a, ext_of b with
  | NaN, _ | _, NaN => None
  | NegInf, NegInf | PosInf, PosInf => Some Eq
  | NegInf, _ | _, PosInf => Some Lt
  | PosInf, _ | _, NegInf => Some Gt
  | Fin m1 e1, Fin m2 e2 =>
      let e := Z.min e1 e2 in
      Some (Z.compare (m1 * 2 ^ (e1 - e)) (m2 * 2 ^ (e2 - e)))
  end.

Definition eqb (a b : value) : bool :=
  match compare a b with Some Eq => true | _ => false end.
Definition ltb (a b : value) : bool :=
  match compare a b with Some Lt => true | _ => false end.
Definition gtb (a b : value) : bool :=
  match compare a b with Some Gt => true | _ => false end.
Definition leb (a b : value) : bool :=
  match compare a b with Some (Lt | Eq) => true | _ => false end.

(** [max(a, b, c)] and [min(a, b, c)]: keep the first argument unless a
    later one compares strictly greater (smaller). *)
Definition max3 (a b c : value) : value :=
  let m := if gtb b a then b else a in
  if gtb c m then c else m.

Definition min3 (a b c : value) : value :=
  let m := if ltb b a then b else a in
  if ltb c m then c else m.

(** *** [math.ceil] and [math.floor] *)

Definition ceil_fin (m e : Z) : Z :=
  if 0 <=? e then m * 2 ^ e else - ((- m) / 2 ^ (- e)).

Definition floor_fin (m e : Z) : Z :=
  if 0 <=? e then m * 2 ^ e else m / 2 ^ (- e).

Definition to_integral (f : Z -> Z -> Z) (v : value) : result value :=
  match ext_of v with
  | NaN => raise ValueError
  | NegInf | PosInf => raise OverflowError
  | Fin m e => ret (PyInt (f m e))
  end.

Definition ceil := to_integral ceil_fin.
Definition floor := to_integral floor_fin.

(** [sum(xs)]: left to right, starting from the integer [0]. *)
Fixpoint sum_from (acc : value) (xs : list value) : result value :=
  match xs with
  | [] => ret acc
  | x :: xs' => acc' <- add acc x ;; sum_from acc' xs'
  end.

Definition sum (xs : list value) : result value := sum_from (PyInt 0) xs.

End Py.

(** ** colorsys.rgb_to_hsv (Python standard library) *)

Module colorsys.
Import Py.

Definition rgb_to_hsv (r g b : value) : result (value * value * value) :=
  let maxc := max3 r g b in
  let minc := min3 r g b in
  rangec <- sub maxc minc ;;
  let v := maxc in
  if eqb minc maxc then ret (PyFloat (lit 0 0), PyFloat (lit 0 0), v)
  else
    s <- truediv rangec maxc ;;
    dr <- sub maxc r ;;
    rc <- truediv dr rangec ;;
    dg <- sub maxc g ;;
    gc <- truediv dg rangec ;;
    db <- sub maxc b ;;
    bc <- truediv db rangec ;;
    h <- (if eqb r maxc then sub bc gc
          else if eqb g maxc then
                 t <- add (PyFloat (lit 2 0)) rc ;; sub t bc
               else
                 t <- add (PyFloat (lit 4 0)) gc ;; sub t rc) ;;
    h6 <- truediv h (PyFloat (lit 6 0)) ;;
    h <- mod_ h6 (PyFloat (lit 1 0)) ;;
    ret (h, s, v).

End colorsys.

(** ** The command sets *)

Import Py.

(** The bridge attributes the builder reads. *)
Record Bridge := { wb1 : value; wb2 : value; sn : value }.

(** Modelled from the spec: the class [Command] that [_build_command]
    returns is imported from [limitlessled.group.commands] and is not among
    the sources.  Per the spec a frame is an ordered sequence of 22 bytes
    plus the target zone, and no validation of byte ranges is performed by
    this layer: the record holds the list and the group number as
    [Command(bytes, group_number)] receives them.  What the class does with
    a value outside 0..255 is not modelled. *)
Record Command := { cmd_bytes : list value; cmd_group_number : value }.

Inductive led_class :=
| CommandSetBridgeLightV6
| CommandSetWhiteV6
| CommandSetRgbwV6
| CommandSetRgbwwV6.

Record CommandSetV6 := {
  cls : led_class;
  _bridge : Bridge;
  _group_number : value;
  _remote_style : value;
  _brightness_steps : Z;
  _color_steps : Z;
  _temperature_steps : Z
}.

Definition PASSWORD_BYTE1 : Z := 0x00.
Definition PASSWORD_BYTE2 : Z := 0x00.
Definition MAX_COLOR : Z := 0xFF.
Definition MAX_BRIGHTNESS : Z := 0x64.
Definition MAX_TEMPERATURE : Z := 0x64.

(** [steps or default]: [None] and [0] are falsy. *)
Definition or_default (steps : option Z) (default : Z) : Z :=
  match steps with
  | Some n => if n =? 0 then default else n
  | None => default
  end.

Definition CommandSetV6_init (c : led_class) (bridge : Bridge)
           (group_number remote_style : value)
           (brightness_steps color_steps temperature_steps : option Z)
  : CommandSetV6 :=
  {| cls := c;
     _bridge := bridge;
     _group_number := group_number;
     _remote_style := remote_style;
     _brightness_steps := or_default brightness_steps (MAX_BRIGHTNESS + 1);
     _color_steps := or_default color_steps (MAX_COLOR + 1);
     _temperature_steps := or_default temperature_steps (MAX_TEMPERATURE + 1) |}.

Definition convert_brightness (brightness : value) : result value :=
  x <- mul brightness (PyInt MAX_BRIGHTNESS) ;; ceil x.

Definition convert_temperature (temperature : value) : result value :=
  x <- mul temperature (PyInt MAX_TEMPERATURE) ;; ceil x.

Definition color_t : Set := (value * value * value)%type.

Definition convert_color (color : color_t) : result value :=
  let '(r, g, b) := color in
  hsv <- colorsys.rgb_to_hsv r g b ;;
  let hue := fst (fst hsv) in
  x <- mul hue (PyInt MAX_COLOR) ;; floor x.

Definition _build_command (self : CommandSetV6) (cmd_1 cmd_2 : value)
  : result Command :=
  let wb1 := wb1 (_bridge self) in
  let wb2 := wb2 (_bridge self) in
  let sn := sn (_bridge self) in
  let preamble := [PyInt 0x80; PyInt 0x00; PyInt 0x00; PyInt 0x00; PyInt 0x11;
                   wb1; wb2; PyInt 0x00; sn; PyInt 0x00] in
  let cmd := [PyInt 0x31; PyInt PASSWORD_BYTE1; PyInt PASSWORD_BYTE2;
              _remote_style self; cmd_1; cmd_2; cmd_2; cmd_2; cmd_2] in
  let zone_selector := [_group_number self; PyInt 0x00] in
  s <- sum (cmd ++ zone_selector) ;;
  checksum <- and_ s (PyInt 0xFF) ;;
  ret {| cmd_bytes := preamble ++ cmd ++ zone_selector ++ [checksum];
         cmd_group_number := _group_number self |}.

Definition REMOTE_STYLE (c : led_class) : Z :=
  match c with
  | CommandSetBridgeLightV6 => 0x00
  | CommandSetWhiteV6 => 0x08
  | CommandSetRgbwV6 => 0x08
  | CommandSetRgbwwV6 => 0x07
  end.

(** [cls(bridge, group_number)] *)
Definition new (c : led_class) (bridge : Bridge) (group_number : value)
  : CommandSetV6 :=
  CommandSetV6_init c bridge group_number (PyInt (REMOTE_STYLE c))
                    None None None.

Module BridgeLight.
Definition on self := _build_command self (PyInt 0x03) (PyInt 0x03).
Definition off self := _build_command self (PyInt 0x03) (PyInt 0x04).
Definition white self := _build_command self (PyInt 0x03) (PyInt 0x05).
Definition color self c :=
  x <- convert_color c ;; _build_command self (PyInt 0x01) x.
Definition brightness self b :=
  x <- convert_brightness b ;; _build_command self (PyInt 0x02) x.
End BridgeLight.

Module White.
Definition on self := _build_command self (PyInt 0x04) (PyInt 0x01).
Definition off self := _build_command self (PyInt 0x04) (PyInt 0x02).
Definition night_light self := _build_command self (PyInt 0x04) (PyInt 0x05).
Definition brightness self b :=
  x <- convert_brightness b ;; _build_command self (PyInt 0x03) x.
Definition temperature self (t : value) :=
  _build_command self (PyInt 0x05) t.
End White.

Module Rgbw.
Definition on self := _build_command self (PyInt 0x04) (PyInt 0x01).
Definition off self := _build_command self (PyInt 0x04) (PyInt 0x02).
Definition night_light self := _build_command self (PyInt 0x04) (PyInt 0x05).
Definition white self := _build_command self (PyInt 0x05) (PyInt 0x64).
Definition color self c :=
  x <- convert_color c ;; _build_command self (PyInt 0x01) x.
Definition brightness self b :=
  x <- convert_brightness b ;; _build_command self (PyInt 0x03) x.
End Rgbw.

Module Rgbww.
Definition on self := _build_command self (PyInt 0x03) (PyInt 0x01).
Definition off self := _build_command self (PyInt 0x03) (PyInt 0x02).
Definition night_light self := _build_command self (PyInt 0x03) (PyInt 0x06).
Definition white self := _build_command self (PyInt 0x03) (PyInt 0x05).
Definition color self c :=
  x <- convert_color c ;; _build_command self (PyInt 0x01) x.
Definition brightness self b :=
  x <- convert_brightness b ;; _build_command self (PyInt 0x02) x.
End Rgbww.

(** A method call on a command set.  A method the object's class does not
    define is an attribute lookup failure. *)
Inductive method :=
| on
| off
| white
| night_light
| color (c : color_t)
| brightness (b : value)
| temperature (t : value).

Definition call (self : CommandSetV6) (m : method) : result Command :=
  match cls self, m with
  | CommandSetBridgeLightV6, on => BridgeLight.on self
  | CommandSetBridgeLightV6, off => BridgeLight.off self
  | CommandSetBridgeLightV6, white => BridgeLight.white self
  | CommandSetBridgeLightV6, color c => BridgeLight.color self c
  | CommandSetBridgeLightV6, brightness b => BridgeLight.brightness self b
  | CommandSetWhiteV6, on => White.on self
  | CommandSetWhiteV6, off => White.off self
  | CommandSetWhiteV6, night_light => White.night_light self
  | CommandSetWhiteV6, brightness b => White.brightness self b
  | CommandSetWhiteV6, temperature t => White.temperature self t
  | CommandSetRgbwV6, on => Rgbw.on self
  | CommandSetRgbwV6, off => Rgbw.off self
  | CommandSetRgbwV6, night_light => Rgbw.night_light self
  | CommandSetRgbwV6, white => Rgbw.white self
  | CommandSetRgbwV6, color c => Rgbw.color self c
  | CommandSetRgbwV6, brightness b => Rgbw.brightness self b
  | CommandSetRgbwwV6, on => Rgbww.on self
  | CommandSetRgbwwV6, off => Rgbww.off self
  | CommandSetRgbwwV6, night_light => Rgbww.night_light self
  | CommandSetRgbwwV6, white => Rgbww.white self
  | CommandSetRgbwwV6, color c => Rgbww.color self c
  | CommandSetRgbwwV6, brightness b => Rgbww.brightness self b
  | _, _ => raise AttributeError
  end.


(** Which methods each class body defines. *)
Definition defines (c : led_class) (m : method) : bool :=
  match c, m with
  | CommandSetBridgeLightV6, (on | off | white | color _ | brightness _) => true
  | CommandSetWhiteV6,
    (on | off | night_light | brightness _ | temperature _) => true
  | CommandSetRgbwV6,
    (on | off | night_light | white | color _ | brightness _) => true
  | CommandSetRgbwwV6,
    (on | off | night_light | white | color _ | brightness _) => true
  | _, _ => false
  end.

(** ** The frame layout of the specification *)

(** The 22 slots of a frame, in order. *)
Definition frame (s1 s2 seq rs c1 c2 zone checksum : value) : list value :=
  [PyInt 0x80; PyInt 0x00; PyInt 0x00; PyInt 0x00; PyInt 0x11; s1; s2;
   PyInt 0x00; seq; PyInt 0x00;
   PyInt 0x31; PyInt 0x00; PyInt 0x00; rs; c1; c2; c2; c2; c2;
   zone; PyInt 0x00; checksum].

(** Sum of a list of integers. *)
Definition zsum (zs : list Z) : Z := fold_right Z.add 0 zs.

(** ** The opcode table of the specification *)

Definition spec_remote_style (c : led_class) : Z :=
  match c with
  | CommandSetBridgeLightV6 => 0x00
  | CommandSetWhiteV6 => 0x08
  | CommandSetRgbwV6 => 0x08
  | CommandSetRgbwwV6 => 0x07
  end.

(** Row by row: the first command byte and how the second one is obtained;
    [None] where the table has a dash. *)
Definition spec_opcodes (c : led_class) (m : method)
  : option (Z * result value) :=
  match c, m with
  | CommandSetBridgeLightV6, on => Some (0x03, ret (PyInt 0x03))
  | CommandSetBridgeLightV6, off => Some (0x03, ret (PyInt 0x04))
  | CommandSetBridgeLightV6, white => Some (0x03, ret (PyInt 0x05))
  | CommandSetBridgeLightV6, color c => Some (0x01, convert_color c)
  | CommandSetBridgeLightV6, brightness b => Some (0x02, convert_brightness b)
  | CommandSetWhiteV6, on => Some (0x04, ret (PyInt 0x01))
  | CommandSetWhiteV6, off => Some (0x04, ret (PyInt 0x02))
  | CommandSetWhiteV6, night_light => Some (0x04, ret (PyInt 0x05))
  | CommandSetWhiteV6, brightness b => Some (0x03, convert_brightness b)
  | CommandSetWhiteV6, temperature t => Some (0x05, ret t)
  | CommandSetRgbwV6, on => Some (0x04, ret (PyInt 0x01))
  | CommandSetRgbwV6, off => Some (0x04, ret (PyInt 0x02))
  | CommandSetRgbwV6, white => Some (0x05, ret (PyInt 0x64))
  | CommandSetRgbwV6, night_light => Some (0x04, ret (PyInt 0x05))
  | CommandSetRgbwV6, color c => Some (0x01, convert_color c)
  | CommandSetRgbwV6, brightness b => Some (0x03, convert_brightness b)
  | CommandSetRgbwwV6, on => Some (0x03, ret (PyInt 0x01))
  | CommandSetRgbwwV6, off => Some (0x03, ret (PyInt 0x02))
  | CommandSetRgbwwV6, white => Some (0x03, ret (PyInt 0x05))
  | CommandSetRgbwwV6, night_light => Some (0x03, ret (PyInt 0x06))
  | CommandSetRgbwwV6, color c => Some (0x01, convert_color c)
  | CommandSetRgbwwV6, brightness b => Some (0x02, convert_brightness b)
  | _, _ => None
  end.

(** A positive finite number bounded by the integer [K]. *)
Definition fin_le (m : positive) (e E K : Z) : Prop :=
  E <= e /\ E <= 0 /\ Zpos m * 2 ^ (e - E) <= K * 2 ^ (- E).

Definition unit_float (x : float) : Prop :=
  match x with
  | S754_zero _ => True
  | S754_finite false m e => e <= 0 /\ Zpos m <= 2 ^ (- e)
  | _ => False
  end.

(** A float that is zero or positive and at most [K]. *)
Definition float_le (x : float) (K : Z) : Prop :=
  match x with
  | S754_zero _ => True
  | S754_finite false m e => exists E, fin_le m e E K
  | _ => False
  end.

Definition round_le (s : bool) (K : Z) (x : float) : Prop :=
  match x with
  | S754_zero s' => s' = s
  | S754_finite s' m e => s' = s /\ exists E, fin_le m e E K
  | _ => False
  end.

Definition one : float := S754_finite false 4503599627370496 (-52).


(** ** Float literals and the objects of the examples *)

(** [0.0], [0.5], [0.01], [0.001] and [2 ** -53] as binary64 numbers. *)
Definition f_zero : float := S754_zero false.
Definition f_half : float := S754_finite false 4503599627370496 (-53).
Definition f_0_01 : float := S754_finite false 5764607523034235 (-59).
Definition f_0_001 : float := S754_finite false 4611686018427388 (-62).
Definition f_2m53 : float := S754_finite false 4503599627370496 (-105).

(** Session bytes (0x11, 0x22) and sequence byte 0x05. *)
Definition bridge_example : Bridge :=
  {| wb1 := PyInt 0x11; wb2 := PyInt 0x22; sn := PyInt 0x05 |}.

(** The frame of the end-to-end example, up to its checksum. *)
Definition example_frame (checksum : Z) : list value :=
  map PyInt [0x80; 0x00; 0x00; 0x00; 0x11; 0x11; 0x22; 0x00; 0x05; 0x00;
             0x31; 0x00; 0x00; 0x00; 0x03; 0x03; 0x03; 0x03; 0x03;
             0x03; 0x00; checksum].

(** The same command set on another bridge. *)
Definition with_bridge (self : CommandSetV6) (bridge : Bridge) : CommandSetV6 :=
  {| cls := cls self;
     _bridge := bridge;
     _group_number := _group_number self;
     _remote_style := _remote_style self;
     _brightness_steps := _brightness_steps self;
     _color_steps := _color_steps self;
     _temperature_steps := _temperature_steps self |}.

(** Two outcomes that agree except for the session and sequence bytes. *)
Definition same_but_session (r r' : result Command) : Prop :=
  match r, r' with
  | inr f, inr f' =>
      (forall i, i <> 5%nat -> i <> 6%nat -> i <> 8%nat ->
                 nth_error (cmd_bytes f) i = nth_error (cmd_bytes f') i) /\
      skipn 10 (cmd_bytes f) = skipn 10 (cmd_bytes f') /\
      length (cmd_bytes f) = 22%nat /\ length (cmd_bytes f') = 22%nat /\
      cmd_group_number f = cmd_group_number f'
  | inl e, inl e' => e = e'
  | _, _ => False
  end.

Ltac inv H := inversion H; subst; clear H.

(** ** Exact bounds on floats *)

(** [m * 2^e] as a multiple of [2^E], for [E <= e]. *)
Definition sc (E m e : Z) : Z := m * 2 ^ (e - E).

(** [m1 * 2^e1 <= m2 * 2^e2], compared at the smaller exponent. *)
Definition me_le (m1 e1 m2 e2 : Z) : Prop :=
  sc (Z.min e1 e2) m1 e1 <= sc (Z.min e1 e2) m2 e2.

(** The result of a rounding step with sign [s], as a number between
    [lo * 2^g] and [hi * 2^g]; zero only when [lo] is. *)
Definition fbetween (s : bool) (lo hi g : Z) (x : float) : Prop :=
  match x with
  | S754_zero _ => lo <= 0
  | S754_finite s' m e =>
      s' = s /\ me_le lo g (Zpos m) e /\ me_le (Zpos m) e hi g
  | _ => False
  end.

(** The exact value of a float, scaled by [2^(-E)]. *)
Definition sval (E : Z) (x : float) : Z :=
  match x with
  | S754_finite s m e => sc E (cond_Zopp s (Zpos m)) e
  | _ => 0
  end.

(** The least exponent that occurs in a float. *)
Definition fexpo (x : float) : Z :=
  match x with
  | S754_finite _ _ e => e
  | _ => 0
  end.

(** Neither NaN nor an infinity. *)
Definition is_real (x : float) : Prop :=
  match x with
  | S754_finite _ _ _ | S754_zero _ => True
  | _ => False
  end.

(** [6.0] *)
Definition six : float := S754_finite false 6755399441055744 (-50).

(** ** Frames of bytes *)

(** An integer that fits one byte. *)
Definition is_byte (v : value) : Prop :=
  match v with
  | PyInt n => 0 <= n <= 255
  | PyFloat _ => False
  end.

(** Arguments in range: a brightness between 0 and 1, a colour of three
    integers between 0 and 255, an integer temperature between 0 and 255. *)
Definition in_range (m : method) : Prop :=
  match m with
  | color (r, g, b) => is_byte r /\ is_byte g /\ is_byte b
  | brightness b => leb (PyInt 0) b = true /\ leb b (PyInt 1) = true
  | temperature t => is_byte t
  | _ => True
  end.

(** Two calls of the same method, whatever its argument. *)
Definition same_method (m m' : method) : bool :=
  match m, m' with
  | on, on | off, off | white, white | night_light, night_light => true
  | color _, color _ => true
  | brightness _, brightness _ => true
  | temperature _, temperature _ => true
  | _, _ => false
  end.

(** The checksum byte of a frame. *)
Definition checksum_of (cmd : Command) : option value :=
  nth_error (cmd_bytes cmd) 21.

(** ** Round to nearest, ties to even, on quotients *)

(** Where the remainder [r] of a division by [w] lies: nowhere lost, or
    below, at or above the middle. *)
Definition loc_of_rem (r w : Z) : location :=
  if r =? 0 then loc_Exact else loc_Inexact (Z.compare (2 * r) w).

(** [v / w] rounded to the nearest integer, ties to even. *)
Definition rne_div (v w : Z) : Z :=
  round_nearest_even (v / w) (loc_of_rem (v mod w) w).

(** A number Python can hold: any integer, and a float that is a binary64
    number. *)
Definition is_binary64 (v : value) : Prop :=
  match v with
  | PyInt _ => True
  | PyFloat x => valid_binary prec emax x = true
  end.

(** The second half of [binary_round_aux]: the rounded mantissa is
    renormalised and the exponent checked. *)
Definition round_finish (s : bool) (m e : Z) : float :=
  let '(mrs, e') := shr_fexp prec emax m e loc_Exact in
  match shr_m mrs with
  | Z0 => S754_zero s
  | Zpos m' =>
      if e' <=? emax - prec then S754_finite s m' e' else S754_infinity s
  | Zneg _ => S754_nan
  end.

(** [d] is the magnitude of the quotient [a / b]:
    [2^(d-1) <= a / b < 2^d]. *)
Definition is_mag (a b d : Z) : Prop :=
  me_le b (d - 1) a 0 /\ ~ me_le b d a 0.

(** The quotient [a / b] as a multiple of [2^c], rounded to nearest even. *)
Definition rne_quot (a b c : Z) : Z :=
  rne_div (a * 2 ^ Z.max (- c) 0) (b * 2 ^ Z.max c 0).

(** A binary64 number between 0 and 1, the range [colorsys] documents. *)
Definition unit64 (x : float) : Prop :=
  valid_binary prec emax x = true /\
  leb (PyInt 0) (PyFloat x) = true /\ leb (PyFloat x) (PyInt 1) = true.

(** ** The hue the specification means *)

(** The H component of HSV for the colour [(r, g, b)], exactly, as the
    fraction [fst / snd] in [0, 1): with [M] the largest and [m] the
    smallest component, [((g - b) / (M - m) mod 6) / 6] when [r] is the
    largest, [(2 + (b - r) / (M - m)) / 6] when [g] is, and
    [(4 + (r - g) / (M - m)) / 6] when [b] is; 0 for a grey. *)
Definition spec_hue_frac (r g b : Z) : Z * Z :=
  let M := Z.max (Z.max r g) b in
  let m := Z.min (Z.min r g) b in
  let n := M - m in
  if n =? 0 then (0, 1)
  else if r =? M then ((g - b) mod (6 * n), 6 * n)
  else if g =? M then (2 * n + (b - r), 6 * n)
  else (4 * n + (r - g), 6 * n).

(** The exact hue of three numbers: integers as they are, floats
    [m * 2^e] brought to their smallest exponent; none for a NaN or an
    infinity. *)
Definition spec_hue (c : color_t) : option (Z * Z) :=
  let '(r, g, b) := c in
  match ext_of r, ext_of g, ext_of b with
  | Fin mr er, Fin mg eg, Fin mb eb =>
      let E := Z.min er (Z.min eg eb) in
      Some (spec_hue_frac (sc E mr er) (sc E mg eg) (sc E mb eb))
  | _, _, _ => None
  end.

(** Two colours of the same exact hue. *)
Definition same_hue (c c' : color_t) : Prop :=
  match spec_hue c, spec_hue c' with
  | Some (n, d), Some (n', d') => n * d' = n' * d
  | _, _ => False
  end.

(** ** Integer sums and the checksum *)

Lemma float_of_int_cases n :
  (exists x, float_of_int n = inr x) \/ float_of_int n = inl OverflowError.
Proof.
  unfold float_of_int, raise.
  destruct (binary_normalize prec emax n 0 false); cbn; eauto.
Qed.

Lemma arith_int_inv fi ff a b n :
  arith fi ff a b = inr (PyInt n) ->
  exists x y, a = PyInt x /\ b = PyInt y /\ n = fi x y.
Proof.
  destruct a as [x|x], b as [y|y]; cbn.
  - intros H; inv H; eauto.
  - destruct (float_of_int_cases x) as [[f ->]| ->]; cbn; discriminate.
  - destruct (float_of_int_cases y) as [[f ->]| ->]; cbn; discriminate.
  - discriminate.
Qed.

Lemma sum_from_int_inv xs : forall acc n,
  sum_from acc xs = inr (PyInt n) ->
  exists a zs, acc = PyInt a /\ xs = map PyInt zs /\ n = a + zsum zs.
Proof.
  induction xs as [|x xs IH]; intros acc n H; cbn in H.
  - inv H. exists n, []. cbn. repeat split; auto; lia.
  - destruct (add acc x) as [e|acc'] eqn:E; cbn in H; [discriminate|].
    apply IH in H. destruct H as (a' & zs & -> & -> & ->).
    apply arith_int_inv in E. destruct E as (a & z & -> & -> & ->).
    exists a, (z :: zs). unfold zsum. cbn. repeat split; auto; lia.
Qed.

Lemma sum_from_ints zs : forall a,
  sum_from (PyInt a) (map PyInt zs) = inr (PyInt (a + zsum zs)).
Proof.
  unfold zsum. induction zs as [|z zs IH]; intros a; cbn.
  - f_equal. f_equal. lia.
  - rewrite IH. f_equal. f_equal. lia.
Qed.

Lemma and_int_inv a b v :
  and_ a b = inr v -> exists x y, a = PyInt x /\ b = PyInt y /\ v = PyInt (Z.land x y).
Proof.
  destruct a, b; cbn; intros H; inv H. eauto.
Qed.

Lemma land_255 x : Z.land x 0xFF = x mod 256.
Proof. change 0xFF with (Z.ones 8). rewrite Z.land_ones by lia. reflexivity. Qed.

(** The template succeeds on integer command bytes, and only on those. *)
Lemma build_command_ints self rs c1 c2 zone :
  _remote_style self = PyInt rs ->
  _group_number self = PyInt zone ->
  _build_command self (PyInt c1) (PyInt c2) =
  inr {| cmd_bytes :=
           frame (wb1 (_bridge self)) (wb2 (_bridge self)) (sn (_bridge self))
                 (PyInt rs) (PyInt c1) (PyInt c2) (PyInt zone)
                 (PyInt ((0x31 + 0 + 0 + rs + c1 + c2 + c2 + c2 + c2 + zone + 0)
                           mod 256));
         cmd_group_number := PyInt zone |}.
Proof.
  intros Hrs Hz. unfold _build_command. rewrite Hrs, Hz.
  unfold sum.
  change ([PyInt 49; PyInt PASSWORD_BYTE1; PyInt PASSWORD_BYTE2; PyInt rs;
           PyInt c1; PyInt c2; PyInt c2; PyInt c2; PyInt c2] ++
          [PyInt zone; PyInt 0])
    with (map PyInt [0x31; 0; 0; rs; c1; c2; c2; c2; c2; zone; 0]).
  rewrite sum_from_ints. cbn [bind Monad_either and_ ret].
  rewrite land_255.
  replace (0 + zsum [0x31; 0; 0; rs; c1; c2; c2; c2; c2; zone; 0])
    with (0x31 + 0 + 0 + rs + c1 + c2 + c2 + c2 + c2 + zone + 0)
    by (unfold zsum; cbn [fold_right]; lia).
  reflexivity.
Qed.

Lemma build_command_inv self c1 c2 cmd :
  _build_command self c1 c2 = inr cmd ->
  exists rs a b zone,
    _remote_style self = PyInt rs /\ c1 = PyInt a /\ c2 = PyInt b /\
    _group_number self = PyInt zone.
Proof.
  unfold _build_command. intros H.
  destruct (sum _) as [e|s] eqn:E; cbn in H; [discriminate|].
  destruct (and_ s (PyInt 255)) as [e|ck] eqn:A; cbn in H; [discriminate|].
  apply and_int_inv in A. destruct A as (x & y & -> & _ & ->).
  apply sum_from_int_inv in E. destruct E as (a0 & zs & _ & Hzs & _).
  destruct zs as [|z0 [|z1 [|z2 [|z3 [|z4 [|z5 [|z6 [|z7 [|z8 [|z9 [|z10 zs]]]]]]]]]]];
    cbn in Hzs; try discriminate.
  inv Hzs. eauto 10.
Qed.

(** ** The method table *)

(** The method bodies of the four classes against the table. *)
Lemma call_table self m :
  call self m =
  match spec_opcodes (cls self) m with
  | Some (c1, arg) => x <- arg ;; _build_command self (PyInt c1) x
  | None => raise AttributeError
  end.
Proof. unfold call. destruct (cls self), m; reflexivity. Qed.

Lemma defines_table c m :
  defines c m = match spec_opcodes c m with Some _ => true | None => false end.
Proof. destruct c, m; reflexivity. Qed.

(** Every command a method call returns: the class defines the method, the
    command bytes are integers, and the frame is the template filled in. *)
Lemma call_inv self m cmd :
  call self m = inr cmd ->
  exists c1 c2 arg rs zone,
    spec_opcodes (cls self) m = Some (c1, arg) /\ arg = inr (PyInt c2) /\
    _remote_style self = PyInt rs /\
    _group_number self = PyInt zone /\
    cmd = {| cmd_bytes :=
               frame (wb1 (_bridge self)) (wb2 (_bridge self))
                     (sn (_bridge self))
                     (PyInt rs) (PyInt c1) (PyInt c2) (PyInt zone)
                     (PyInt ((0x31 + 0 + 0 + rs + c1 + c2 + c2 + c2 + c2
                              + zone + 0) mod 256));
             cmd_group_number := PyInt zone |}.
Proof.
  rewrite call_table.
  destruct (spec_opcodes (cls self) m) as [[c1 arg]|]; [|discriminate].
  destruct arg as [e|x]; cbn [bind Monad_either]; [discriminate|].
  intros H. pose proof H as H'.
  apply build_command_inv in H'.
  destruct H' as (rs & a & b & zone & Hrs & Ha & -> & Hz).
  rewrite (build_command_ints self rs c1 b zone Hrs Hz) in H.
  exists c1, b, (inr (PyInt b)), rs, zone. inv H. auto 10.
Qed.

(** The frame layout holds of every frame a defined method builds. *)
Lemma call_frame_layout self m cmd :
  call self m = inr cmd ->
  exists c1 c2 checksum,
    cmd_bytes cmd =
      frame (wb1 (_bridge self)) (wb2 (_bridge self)) (sn (_bridge self))
            (_remote_style self) c1 c2 (_group_number self) checksum /\
    length (cmd_bytes cmd) = 22%nat /\
    cmd_group_number cmd = _group_number self.
Proof.
  intros H. apply call_inv in H.
  destruct H as (c1 & c2 & arg & rs & zone & _ & _ & -> & -> & ->).
  cbn [cmd_bytes cmd_group_number]. eauto 10.
Qed.

(** Bytes 10 to 20 of a built frame are integers and byte 21 is their sum
    modulo 256. *)
Lemma call_frame_checksum self m cmd :
  call self m = inr cmd ->
  exists body ck,
    skipn 10 (cmd_bytes cmd) = map PyInt (body ++ [ck]) /\
    length body = 11%nat /\
    ck = zsum body mod 256.
Proof.
  intros H. apply call_inv in H.
  destruct H as (c1 & c2 & arg & rs & zone & _ & _ & _ & _ & ->).
  exists [0x31; 0; 0; rs; c1; c2; c2; c2; c2; zone; 0].
  eexists. split; [reflexivity|]. split; [reflexivity|].
  unfold zsum. cbn [fold_right]. f_equal. lia.
Qed.

(** A frame is built whenever the group number is an integer and the second
    command byte evaluates to an integer. *)
Lemma call_builds c bridge zone m c1 c2 :
  spec_opcodes c m = Some (c1, inr (PyInt c2)) ->
  exists cmd, call (new c bridge (PyInt zone)) m = inr cmd.
Proof.
  intros H. rewrite call_table. cbn [cls new CommandSetV6_init]. rewrite H.
  cbn [bind Monad_either].
  erewrite build_command_ints by reflexivity. eauto.
Qed.

(** ** Rounding: shifting a mantissa right *)

Lemma fexp_eq e : fexp prec emax e = Z.max (e - 53) (-1074).
Proof. reflexivity. Qed.

Lemma digits2_pos_bounds p :
  2 ^ (Zpos (digits2_pos p) - 1) <= Zpos p < 2 ^ Zpos (digits2_pos p).
Proof.
  induction p as [p IH|p IH|]; cbn [digits2_pos].
  - rewrite Pos2Z.inj_succ. replace (Z.succ (Zpos (digits2_pos p)) - 1)
      with (Z.succ (Zpos (digits2_pos p) - 1)) by lia.
    rewrite !Z.pow_succ_r by lia. lia.
  - rewrite Pos2Z.inj_succ. replace (Z.succ (Zpos (digits2_pos p)) - 1)
      with (Z.succ (Zpos (digits2_pos p) - 1)) by lia.
    rewrite !Z.pow_succ_r by lia. lia.
  - cbn. lia.
Qed.

Lemma Zdigits2_le m k : 0 <= k -> 0 <= m < 2 ^ k -> Zdigits2 m <= k.
Proof.
  intros Hk [H0 Hm]. destruct m as [|p|p]; cbn [Zdigits2]; try lia.
  pose proof (digits2_pos_bounds p) as [Hlo _].
  destruct (Z_le_gt_dec (Zpos (digits2_pos p)) k) as [|Hgt]; [assumption|].
  exfalso.
  assert (2 ^ k <= 2 ^ (Zpos (digits2_pos p) - 1))
    by (apply Z.pow_le_mono_r; lia).
  lia.
Qed.

Lemma iter_pos_nat {A} (f : A -> A) p : forall x,
  iter_pos f p x = Nat.iter (Pos.to_nat p) f x.
Proof.
  induction p as [p IH|p IH|]; intros x; cbn [iter_pos].
  - rewrite !IH, Pos2Nat.inj_xI.
    replace (S (2 * Pos.to_nat p)) with (Pos.to_nat p + (Pos.to_nat p + 1))%nat by lia.
    rewrite !Nat.iter_add. reflexivity.
  - rewrite !IH, Pos2Nat.inj_xO.
    replace (2 * Pos.to_nat p)%nat with (Pos.to_nat p + Pos.to_nat p)%nat by lia.
    rewrite Nat.iter_add. reflexivity.
  - reflexivity.
Qed.

Lemma shr_1_nonneg m r s :
  0 <= m ->
  shr_1 {| shr_m := m; shr_r := r; shr_s := s |} =
  {| shr_m := m / 2; shr_r := Z.odd m; shr_s := r || s |}.
Proof.
  intros Hm. rewrite <- Z.div2_div.
  destruct m as [|[p|p|]|]; try reflexivity; lia.
Qed.

Lemma iter_shr_1 m k :
  0 <= m ->
  let r := Nat.iter k shr_1 {| shr_m := m; shr_r := false; shr_s := false |} in
  shr_m r = m / 2 ^ Z.of_nat k /\
  (m mod 2 ^ Z.of_nat k = 0 -> shr_r r = false /\ shr_s r = false).
Proof.
  intros Hm. induction k as [|k IH]; cbn zeta.
  - cbn. rewrite Z.div_1_r. auto.
  - rewrite Nat.iter_succ. cbn zeta in IH.
    destruct (Nat.iter k shr_1 _) as [mk rk sk]. cbn [shr_m shr_r shr_s] in IH.
    destruct IH as [Hmk Hex].
    assert (Hpow : 0 < 2 ^ Z.of_nat k) by (apply Z.pow_pos_nonneg; lia).
    assert (0 <= mk) by (subst mk; apply Z.div_pos; lia).
    rewrite shr_1_nonneg by assumption. cbn [shr_m shr_r shr_s].
    rewrite Nat2Z.inj_succ, Z.pow_succ_r by lia.
    split.
    + subst mk. rewrite Z.div_div by lia. f_equal. lia.
    + intros Hmod.
      apply Z.mod_divide in Hmod; [|lia]. destruct Hmod as [q Hq].
      assert (Hk : m mod 2 ^ Z.of_nat k = 0).
      { apply Z.mod_divide; [lia|]. exists (q * 2). lia. }
      destruct (Hex Hk) as [-> ->].
      assert (mk = 2 * q).
      { subst mk. rewrite Hq.
        replace (q * (2 * 2 ^ Z.of_nat k)) with ((2 * q) * 2 ^ Z.of_nat k) by lia.
        apply Z.div_mul. lia. }
      subst mk. rewrite H0. rewrite Z.odd_mul. auto.
Qed.

(** Shifting [m >= 0] right by [n] bits: the quotient, and no lost bit when
    the division is exact. *)
Lemma shr_exact_spec m e n :
  0 <= m ->
  let '(mrs, e') := shr (shr_record_of_loc m loc_Exact) e n in
  e' = e + Z.max n 0 /\
  shr_m mrs = m / 2 ^ Z.max n 0 /\
  (m mod 2 ^ Z.max n 0 = 0 -> loc_of_shr_record mrs = loc_Exact).
Proof.
  intros Hm. unfold shr. cbn [shr_record_of_loc].
  destruct n as [|p|p].
  - cbn. rewrite Z.div_1_r. repeat split; lia.
  - rewrite iter_pos_nat.
    pose proof (iter_shr_1 m (Pos.to_nat p) Hm) as H. cbn zeta in H.
    rewrite positive_nat_Z in H.
    replace (Z.max (Zpos p) 0) with (Zpos p) by lia.
    destruct H as [H1 H2]. repeat split; auto.
    intros Hmod. destruct (H2 Hmod) as [Hr Hs].
    destruct (Nat.iter _ _ _) as [a b c]. cbn in Hr, Hs. subst. reflexivity.
  - cbn. rewrite Z.div_1_r. repeat split; lia.
Qed.

Lemma round_nearest_even_bounds q l :
  q <= round_nearest_even q l <= q + 1.
Proof.
  destruct l as [|[| |]]; cbn; try lia. destruct (Z.even q); lia.
Qed.

(** Rounding never crosses a representable bound: a positive [M * 2^E] that
    is at most the integer [K < 2^53] rounds to a float that is at most [K]. *)
Lemma round_aux_le s M E K :
  0 < M -> 0 < K < 2 ^ 53 -> E <= 0 -> M <= K * 2 ^ (- E) ->
  match binary_round_aux prec emax s M E loc_Exact with
  | S754_zero s' => s' = s
  | S754_finite s' m e =>
      s' = s /\ E <= e <= 52 /\ Zpos m * 2 ^ (e - E) <= K * 2 ^ (- E)
  | _ => False
  end.
Proof.
  intros HM HK HE Hle.
  assert (HpE : 0 < 2 ^ (- E)) by (apply Z.pow_pos_nonneg; lia).
  assert (HMlt : M < 2 ^ (53 - E)).
  { replace (53 - E) with (53 + - E) by lia. rewrite Z.pow_add_r by lia. nia. }
  assert (Hd : Zdigits2 M <= 53 - E) by (apply Zdigits2_le; lia).
  unfold binary_round_aux, shr_fexp. rewrite !fexp_eq.
  set (n := Z.max (Zdigits2 M + E - 53) (-1074) - E).
  assert (Hn : Z.max n 0 <= - E) by lia.
  pose proof (shr_exact_spec M E n ltac:(lia)) as H1.
  destruct (shr (shr_record_of_loc M loc_Exact) E n) as [mrs' e'].
  destruct H1 as (-> & Hq & Hex). rewrite fexp_eq.
  set (np := Z.max n 0) in *.
  assert (Hpn : 0 < 2 ^ np) by (apply Z.pow_pos_nonneg; lia).
  set (I := K * 2 ^ (- E - np)).
  assert (HKB : K * 2 ^ (- E) = I * 2 ^ np).
  { unfold I. rewrite <- Z.mul_assoc, <- Z.pow_add_r by lia. do 2 f_equal. lia. }
  set (m1 := round_nearest_even (shr_m mrs') (loc_of_shr_record mrs')).
  assert (Hm1 : 0 <= m1 /\ m1 * 2 ^ np <= K * 2 ^ (- E)).
  { pose proof (round_nearest_even_bounds (shr_m mrs') (loc_of_shr_record mrs')) as Hb.
    fold m1 in Hb. rewrite Hq in Hb.
    assert (0 <= M / 2 ^ np) by (apply Z.div_pos; lia).
    split; [lia|].
    rewrite HKB. apply Z.mul_le_mono_nonneg_r; [lia|].
    assert (Hqle : M / 2 ^ np <= I).
    { apply Z.div_le_upper_bound; lia. }
    destruct (Z.eq_dec (M / 2 ^ np) I) as [Heq|Hne]; [|lia].
    assert (Hmod : M mod 2 ^ np = 0).
    { pose proof (Z.div_mod M (2 ^ np) ltac:(lia)) as Hdm.
      pose proof (Z.mod_pos_bound M (2 ^ np) ltac:(lia)). nia. }
    pose proof (Hex Hmod) as Hl. unfold m1. rewrite Hl, Hq. cbn. lia. }
  destruct Hm1 as [Hm1 Hm1le].
  set (n2 := Z.max (Zdigits2 m1 + (E + np) - 53) (-1074) - (E + np)).
  pose proof (shr_exact_spec m1 (E + np) n2 Hm1) as H2.
  destruct (shr (shr_record_of_loc m1 loc_Exact) (E + np) n2) as [mrs'' e''].
  destruct H2 as (-> & Hq2 & _).
  set (n2p := Z.max n2 0) in *.
  assert (Hpn2 : 0 < 2 ^ n2p) by (apply Z.pow_pos_nonneg; lia).
  assert (Hm2 : 0 <= shr_m mrs'') by (rewrite Hq2; apply Z.div_pos; lia).
  assert (Hm2le : shr_m mrs'' * 2 ^ (E + np + n2p - E) <= K * 2 ^ (- E)).
  { replace (E + np + n2p - E) with (n2p + np) by lia.
    rewrite Z.pow_add_r, Z.mul_assoc by lia.
    apply Z.le_trans with (m1 * 2 ^ np); [|assumption].
    apply Z.mul_le_mono_nonneg_r; [lia|].
    rewrite Hq2, Z.mul_comm. apply Z.mul_div_le. lia. }
  destruct (shr_m mrs'') as [|m|m] eqn:Em; [reflexivity| |lia].
  assert (He : E + np + n2p <= 52).
  { assert (2 ^ (E + np + n2p - E) < 2 ^ (53 - E)).
    { assert (0 < 2 ^ (E + np + n2p - E)) by (apply Z.pow_pos_nonneg; lia).
      replace (53 - E) with (53 + - E) by lia. rewrite Z.pow_add_r by lia.
      assert (2 ^ (E + np + n2p - E) <= Z.pos m * 2 ^ (E + np + n2p - E)) by nia.
      assert (K * 2 ^ (- E) < 2 ^ 53 * 2 ^ (- E)) by nia.
      lia. }
    apply Z.pow_lt_mono_r_iff in H; lia. }
  replace (E + np + n2p <=? emax - prec) with true
    by (symmetry; apply Z.leb_le; unfold emax, prec; lia).
  repeat split; try lia.
Qed.

(** ** Ceiling and floor of a finite number [m * 2^e] *)

Lemma ceil_fin_spec m e :
  (ceil_fin m e - 1) * 2 ^ (0 - Z.min e 0) < m * 2 ^ (e - Z.min e 0)
  <= ceil_fin m e * 2 ^ (0 - Z.min e 0).
Proof.
  unfold ceil_fin. destruct (Z.leb_spec 0 e) as [He|He].
  - replace (Z.min e 0) with 0 by lia.
    replace (e - 0) with e by lia. replace (0 - 0) with 0 by lia.
    change (2 ^ 0) with 1. lia.
  - replace (Z.min e 0) with e by lia.
    replace (e - e) with 0 by lia. replace (0 - e) with (- e) by lia.
    change (2 ^ 0) with 1.
    assert (Hp : 0 < 2 ^ (- e)) by (apply Z.pow_pos_nonneg; lia).
    pose proof (Z.div_mod (- m) (2 ^ (- e)) ltac:(lia)).
    pose proof (Z.mod_pos_bound (- m) (2 ^ (- e)) Hp). nia.
Qed.

Lemma floor_fin_spec m e :
  floor_fin m e * 2 ^ (0 - Z.min e 0) <= m * 2 ^ (e - Z.min e 0)
  < (floor_fin m e + 1) * 2 ^ (0 - Z.min e 0).
Proof.
  unfold floor_fin. destruct (Z.leb_spec 0 e) as [He|He].
  - replace (Z.min e 0) with 0 by lia.
    replace (e - 0) with e by lia. replace (0 - 0) with 0 by lia.
    change (2 ^ 0) with 1. lia.
  - replace (Z.min e 0) with e by lia.
    replace (e - e) with 0 by lia. replace (0 - e) with (- e) by lia.
    change (2 ^ 0) with 1.
    assert (Hp : 0 < 2 ^ (- e)) by (apply Z.pow_pos_nonneg; lia).
    pose proof (Z.div_mod m (2 ^ (- e)) ltac:(lia)).
    pose proof (Z.mod_pos_bound m (2 ^ (- e)) Hp). nia.
Qed.

(** [math.ceil] returns the least integer that is not below its argument. *)
Lemma ceil_spec v n :
  ceil v = inr (PyInt n) ->
  leb v (PyInt n) = true /\ ltb (PyInt (n - 1)) v = true.
Proof.
  unfold ceil, to_integral, leb, ltb, compare. cbn [ext_of].
  destruct (ext_of v) as [| | |m e]; try discriminate.
  intros H. inv H.
  pose proof (ceil_fin_spec m e) as Hc.
  rewrite (Z.min_comm 0 e).
  destruct Hc as [Hlo Hhi]. split.
  - destruct (Z.compare_spec (m * 2 ^ (e - Z.min e 0))
                             (ceil_fin m e * 2 ^ (0 - Z.min e 0))); auto; lia.
  - destruct (Z.compare_spec ((ceil_fin m e - 1) * 2 ^ (0 - Z.min e 0))
                             (m * 2 ^ (e - Z.min e 0))); auto; lia.
Qed.

(** [math.floor] returns the greatest integer that is not above its argument. *)
Lemma floor_spec v n :
  floor v = inr (PyInt n) ->
  leb (PyInt n) v = true /\ ltb v (PyInt (n + 1)) = true.
Proof.
  unfold floor, to_integral, leb, ltb, compare. cbn [ext_of].
  destruct (ext_of v) as [| | |m e]; try discriminate.
  intros H. inv H.
  pose proof (floor_fin_spec m e) as Hc.
  rewrite (Z.min_comm 0 e).
  destruct Hc as [Hlo Hhi]. split.
  - destruct (Z.compare_spec (floor_fin m e * 2 ^ (0 - Z.min e 0))
                             (m * 2 ^ (e - Z.min e 0))); auto; lia.
  - destruct (Z.compare_spec (m * 2 ^ (e - Z.min e 0))
                             ((floor_fin m e + 1) * 2 ^ (0 - Z.min e 0))); auto; lia.
Qed.

Lemma fin_le_integral m e E K :
  fin_le m e E K ->
  0 <= floor_fin (Zpos m) e <= K /\ 0 < ceil_fin (Zpos m) e <= K.
Proof.
  intros (He & HE & Hle).
  assert (HpE : 0 < 2 ^ (- E)) by (apply Z.pow_pos_nonneg; lia).
  assert (HpeE : 0 < 2 ^ (e - E)) by (apply Z.pow_pos_nonneg; lia).
  unfold floor_fin, ceil_fin. destruct (Z.leb_spec 0 e) as [H0|H0].
  - assert (Hpe : 0 < 2 ^ e) by (apply Z.pow_pos_nonneg; lia).
    replace (e - E) with (e + - E) in Hle by lia.
    rewrite Z.pow_add_r, Z.mul_assoc in Hle by lia.
    assert (Zpos m * 2 ^ e <= K) by nia. nia.
  - assert (Hpe : 0 < 2 ^ (- e)) by (apply Z.pow_pos_nonneg; lia).
    assert (Hm : Zpos m <= K * 2 ^ (- e)).
    { replace (- E) with (- e + (e - E)) in Hle by lia.
      rewrite Z.pow_add_r, Z.mul_assoc in Hle by lia. nia. }
    pose proof (Z.div_mod (Zpos m) (2 ^ (- e)) ltac:(lia)).
    pose proof (Z.mod_pos_bound (Zpos m) (2 ^ (- e)) Hpe).
    pose proof (Z.div_mod (- Zpos m) (2 ^ (- e)) ltac:(lia)).
    pose proof (Z.mod_pos_bound (- Zpos m) (2 ^ (- e)) Hpe).
    split; split; nia.
Qed.

(** ** Floats between 0 and 1, and their products with an integer *)

Lemma leb_unit_float x :
  leb (PyInt 0) (PyFloat x) = true -> leb (PyFloat x) (PyInt 1) = true ->
  unit_float x.
Proof.
  unfold leb, compare. cbn [ext_of ext_of_float].
  destruct x as [s|s| |s m e]; cbn [ext_of_float unit_float]; auto.
  - destruct s; discriminate.
  - discriminate.
  - intros H0 H1. destruct s; cbn [cond_Zopp] in *.
    + exfalso.
      assert (0 < 2 ^ (e - Z.min 0 e)) by (apply Z.pow_pos_nonneg; lia).
      destruct (Z.compare_spec (0 * 2 ^ (0 - Z.min 0 e))
                               (- Zpos m * 2 ^ (e - Z.min 0 e)));
        try discriminate; nia.
    + clear H0.
      assert (Hp : 0 < 2 ^ (e - Z.min e 0)) by (apply Z.pow_pos_nonneg; lia).
      destruct (Z.compare_spec (Zpos m * 2 ^ (e - Z.min e 0))
                               (1 * 2 ^ (0 - Z.min e 0))) as [Hc|Hc|Hc];
        try discriminate.
      * destruct (Z_le_gt_dec e 0) as [He|He].
        -- replace (Z.min e 0) with e in Hc by lia.
           replace (e - e) with 0 in Hc by lia.
           replace (0 - e) with (- e) in Hc by lia.
           change (2 ^ 0) with 1 in Hc. lia.
        -- exfalso. replace (Z.min e 0) with 0 in Hc by lia.
           replace (e - 0) with e in Hc by lia.
           assert (2 ^ 1 <= 2 ^ e) by (apply Z.pow_le_mono_r; lia).
           change (2 ^ 1) with 2 in *. change (2 ^ (0 - 0)) with 1 in Hc. nia.
      * destruct (Z_le_gt_dec e 0) as [He|He].
        -- replace (Z.min e 0) with e in Hc by lia.
           replace (e - e) with 0 in Hc by lia.
           replace (0 - e) with (- e) in Hc by lia.
           change (2 ^ 0) with 1 in Hc. lia.
        -- exfalso. replace (Z.min e 0) with 0 in Hc by lia.
           replace (e - 0) with e in Hc by lia.
           assert (2 ^ 1 <= 2 ^ e) by (apply Z.pow_le_mono_r; lia).
           change (2 ^ 1) with 2 in *. change (2 ^ (0 - 0)) with 1 in Hc. nia.
Qed.

Lemma SFmul_unit_le x my ey K :
  0 < K < 2 ^ 53 -> ey <= 0 -> Zpos my = K * 2 ^ (- ey) ->
  unit_float x ->
  float_le (SFmul prec emax x (S754_finite false my ey)) K.
Proof.
  intros HK Hey Hmy Hx.
  destruct x as [s|s| |s mx ex]; cbn [unit_float] in Hx; try contradiction.
  - exact I.
  - destruct s; [contradiction|]. destruct Hx as [Hex Hmx].
    cbn [SFmul xorb].
    assert (Hp1 : 0 < 2 ^ (- ex)) by (apply Z.pow_pos_nonneg; lia).
    assert (Hp2 : 0 < 2 ^ (- ey)) by (apply Z.pow_pos_nonneg; lia).
    pose proof (round_aux_le false (Zpos (mx * my)) (ex + ey) K) as H.
    destruct (binary_round_aux prec emax false (Zpos (mx * my)) (ex + ey) loc_Exact)
      as [s'|s'| |s' m e]; cbn [float_le].
    + exact I.
    + apply H; try lia.
      rewrite Pos2Z.inj_mul, Hmy.
      replace (- (ex + ey)) with (- ex + - ey) by lia.
      rewrite Z.pow_add_r by lia. nia.
    + apply H; try lia.
      rewrite Pos2Z.inj_mul, Hmy.
      replace (- (ex + ey)) with (- ex + - ey) by lia.
      rewrite Z.pow_add_r by lia. nia.
    + assert (Hr : s' = false /\ ex + ey <= e <= 52 /\
                   Zpos m * 2 ^ (e - (ex + ey)) <= K * 2 ^ (- (ex + ey))).
      { apply H; try lia.
        rewrite Pos2Z.inj_mul, Hmy.
        replace (- (ex + ey)) with (- ex + - ey) by lia.
        rewrite Z.pow_add_r by lia. nia. }
      destruct Hr as (-> & He & Hle). exists (ex + ey). unfold fin_le. lia.
Qed.

Lemma float_le_integral x K f :
  (f = floor_fin \/ f = ceil_fin) -> 0 <= K ->
  float_le x K ->
  exists n, to_integral f (PyFloat x) = inr (PyInt n) /\ 0 <= n <= K.
Proof.
  intros Hf HK Hx. unfold to_integral. cbn [ext_of].
  destruct x as [s|s| |s m e]; cbn [float_le] in Hx; try contradiction.
  - cbn [ext_of_float]. exists (f 0 0). split; [reflexivity|].
    destruct Hx. destruct Hf as [-> | ->]; cbn; lia.
  - destruct s; [contradiction|]. destruct Hx as [E Hx].
    cbn [ext_of_float cond_Zopp]. eexists. split; [reflexivity|].
    pose proof Hx as (_ & _ & Hle).
    apply fin_le_integral in Hx. destruct Hf as [-> | ->]; lia.
Qed.

(** ** Rounding after aligning the mantissa *)

Lemma shl_align_spec mx ex ex' :
  let '(mz, ez) := shl_align mx ex ex' in
  ez = Z.min ex ex' /\ Zpos mz = Zpos mx * 2 ^ (ex - ez).
Proof.
  unfold shl_align. destruct (ex' - ex) as [|d|d] eqn:Ed.
  - replace (Z.min ex ex') with ex by lia. rewrite Z.sub_diag. cbn. lia.
  - replace (Z.min ex ex') with ex by lia. rewrite Z.sub_diag. cbn. lia.
  - replace (Z.min ex ex') with ex' by lia. split; [reflexivity|].
    change (Pos.iter xO mx d) with (shift_pos d mx).
    rewrite shift_pos_correct.
    replace (ex - ex') with (Zpos d) by lia. cbn [Z.pow]. lia.
Qed.

Lemma shl_align_fst mx ex ex' :
  Zpos (fst (shl_align mx ex ex')) = Zpos mx * 2 ^ (ex - Z.min ex ex').
Proof.
  pose proof (shl_align_spec mx ex ex') as H.
  destruct (shl_align mx ex ex') as [mz ez]. destruct H as [-> H]. exact H.
Qed.

Lemma binary_round_le s m e K :
  0 < K < 2 ^ 53 -> e <= 0 -> Zpos m <= K * 2 ^ (- e) ->
  round_le s K (binary_round prec emax s m e).
Proof.
  intros HK He Hle. unfold binary_round.
  pose proof (shl_align_spec m e (fexp prec emax (Zpos (digits2_pos m) + e))) as Ha.
  destruct (shl_align m e _) as [mz ez]. destruct Ha as [Hez Hmz].
  assert (Hez' : ez <= e) by lia.
  assert (0 < 2 ^ (- e)) by (apply Z.pow_pos_nonneg; lia).
  assert (0 < 2 ^ (e - ez)) by (apply Z.pow_pos_nonneg; lia).
  assert (Hb : Zpos mz <= K * 2 ^ (- ez)).
  { rewrite Hmz. replace (- ez) with (- e + (e - ez)) by lia.
    rewrite Z.pow_add_r by lia. nia. }
  pose proof (round_aux_le s (Zpos mz) ez K ltac:(lia) HK ltac:(lia) Hb) as H1.
  destruct (binary_round_aux prec emax s (Zpos mz) ez loc_Exact)
    as [s'|s'| |s' m' e']; cbn [round_le]; auto.
  destruct H1 as (-> & He' & Hle'). split; [reflexivity|].
  exists ez. unfold fin_le. lia.
Qed.

Lemma fin_le_1 m e E : fin_le m e E 1 -> e <= 0 /\ Zpos m <= 2 ^ (- e).
Proof.
  intros (He & HE & Hle).
  assert (0 < 2 ^ (e - E)) by (apply Z.pow_pos_nonneg; lia).
  assert (He0 : e <= 0).
  { destruct (Z_le_gt_dec e 0); [assumption|]. exfalso.
    assert (2 ^ (- E) < 2 ^ (e - E)) by (apply Z.pow_lt_mono_r; lia). nia. }
  split; [assumption|].
  assert (0 < 2 ^ (- e)) by (apply Z.pow_pos_nonneg; lia).
  replace (- E) with (- e + (e - E)) in Hle by lia.
  rewrite Z.pow_add_r in Hle by lia. nia.
Qed.

(** ** The remainder modulo 1.0 lies between 0 and 1 *)

Lemma SFadd_neg_one m e :
  e <= 0 -> Zpos m <= 2 ^ (- e) ->
  unit_float (SFadd prec emax (S754_finite true m e) one).
Proof.
  intros He' Hm'.
  unfold one. cbv beta iota zeta delta [SFadd cond_Zopp].
  set (ez := Z.min e (-52)).
  rewrite !shl_align_fst. fold ez.
  replace (Z.min (-52) ez) with ez by lia.
  replace (Z.min e ez) with ez by lia.
  assert (Hpz : 0 < 2 ^ (- ez)) by (apply Z.pow_pos_nonneg; lia).
  assert (Hb : 4503599627370496 * 2 ^ (-52 - ez) = 2 ^ (- ez)).
  { change 4503599627370496 with (2 ^ 52).
    rewrite <- Z.pow_add_r by lia. f_equal. lia. }
  rewrite Hb.
  assert (Ha : Zpos m * 2 ^ (e - ez) <= 2 ^ (- ez)).
  { replace (- ez) with (- e + (e - ez)) by lia.
    rewrite Z.pow_add_r by lia.
    apply Z.mul_le_mono_nonneg_r; [|assumption].
    apply Z.pow_nonneg; lia. }
  assert (0 < Zpos m * 2 ^ (e - ez)).
  { apply Z.mul_pos_pos; [lia|]. apply Z.pow_pos_nonneg; lia. }
  destruct (- (Zpos m * 2 ^ (e - ez)) + 2 ^ (- ez)) as [|z|z] eqn:Ez;
    cbn [binary_normalize]; [exact I| |lia].
  pose proof (binary_round_le false z ez 1 ltac:(lia) ltac:(lia) ltac:(lia)) as Hu.
  destruct (binary_round prec emax false z ez) as [s'|s'| |s' mu eu];
    cbn [round_le] in Hu; try contradiction; cbn [unit_float]; auto.
  destruct Hu as (-> & E' & Hfin'). apply fin_le_1 in Hfin'. exact Hfin'.
Qed.

Lemma float_mod_one_range x u :
  float_mod x one = inr u -> u = S754_nan \/ unit_float u.
Proof.
  unfold float_mod. cbn [is_zero one].
  destruct x as [s|s| |s mx ex].
  - cbn. intros H; inv H. right. exact I.
  - cbn. intros H; inv H. left. reflexivity.
  - cbn. intros H; inv H. left. reflexivity.
  - unfold fmod, one.
    set (e := Z.min ex (-52)).
    assert (He : e <= -52) by lia.
    replace (4503599627370496 * 2 ^ (-52 - e)) with (2 ^ (- e)).
    2:{ change 4503599627370496 with (2 ^ 52).
        rewrite <- Z.pow_add_r by lia. f_equal. lia. }
    assert (HpY : 0 < 2 ^ (- e)) by (apply Z.pow_pos_nonneg; lia).
    pose proof (Z.mod_pos_bound (Zpos mx * 2 ^ (ex - e)) (2 ^ (- e)) HpY) as Hr.
    set (r := (Zpos mx * 2 ^ (ex - e)) mod 2 ^ (- e)) in *.
    destruct r as [|p|p]; [| |lia].
    + destruct s; cbn; intros H; inv H; right; exact I.
    + destruct s; cbn [cond_Zopp Z.opp binary_normalize].
      * pose proof (binary_round_le true p e 1 ltac:(lia) ltac:(lia) ltac:(lia)) as Hm.
        destruct (binary_round prec emax true p e) as [s'|s'| |s' m' e'];
          cbn [round_le] in Hm; try contradiction.
        -- intros H; inv H. right. exact I.
        -- destruct Hm as (-> & E & Hfin).
           apply fin_le_1 in Hfin. destruct Hfin as [He' Hm'].
           pose proof (SFadd_neg_one m' e' He' Hm') as Hadd. unfold one in Hadd.
           cbn [sign_bit xorb]. intros H; inv H. right. exact Hadd.
      * pose proof (binary_round_le false p e 1 ltac:(lia) ltac:(lia) ltac:(lia)) as Hm.
        destruct (binary_round prec emax false p e) as [s'|s'| |s' m' e'];
          cbn [round_le] in Hm; try contradiction.
        -- intros H; inv H. right. exact I.
        -- destruct Hm as (-> & E & Hfin). cbn [sign_bit xorb].
           intros H; inv H. right. cbn [unit_float].
           apply fin_le_1 in Hfin. exact Hfin.
Qed.

(** ** The conversions *)

Lemma float_of_int_100 :
  float_of_int 100 = inr (S754_finite false 7036874417766400 (-46)).
Proof. reflexivity. Qed.

Lemma float_of_int_255 :
  float_of_int 255 = inr (S754_finite false 8972014882652160 (-45)).
Proof. reflexivity. Qed.

Lemma compare_int a b : compare (PyInt a) (PyInt b) = Some (a ?= b).
Proof.
  unfold compare. cbn [ext_of]. change (2 ^ (0 - Z.min 0 0)) with 1.
  rewrite !Z.mul_1_r. reflexivity.
Qed.

Lemma leb_int a b : leb (PyInt a) (PyInt b) = true <-> a <= b.
Proof.
  unfold leb. rewrite compare_int.
  destruct (Z.compare_spec a b); split; intros; try lia; try discriminate; auto.
Qed.

(** Brightness or temperature in [0, 1], integer or float. *)
Lemma convert_unit v :
  leb (PyInt 0) v = true -> leb v (PyInt 1) = true ->
  exists p n,
    mul v (PyInt 100) = inr p /\
    (x <- mul v (PyInt 100) ;; ceil x) = inr (PyInt n) /\
    0 <= n <= 100.
Proof.
  intros H0 H1. destruct v as [z|x].
  - apply leb_int in H0, H1.
    exists (PyInt (z * 100)), (z * 100).
    split; [reflexivity|]. split; [|lia].
    cbn [mul arith bind ret Monad_either].
    unfold ceil, to_integral, ceil_fin. cbn [ext_of Z.leb Z.compare].
    change (2 ^ 0) with 1. rewrite Z.mul_1_r. reflexivity.
  - pose proof (leb_unit_float x H0 H1) as Hu.
    unfold mul, arith. cbn [to_float]. rewrite float_of_int_100.
    cbn [bind ret Monad_either].
    pose proof (SFmul_unit_le x 7036874417766400 (-46) 100
                  ltac:(lia) ltac:(lia) eq_refl Hu) as Hp.
    destruct (float_le_integral _ 100 ceil_fin (or_intror eq_refl) ltac:(lia) Hp)
      as (n & Hn & Hr).
    eauto 10.
Qed.

Lemma truediv_float a b q : truediv a b = inr q -> exists f, q = PyFloat f.
Proof.
  unfold truediv. destruct a, b; cbn;
    repeat match goal with
           | |- context [match ?x with inl _ => _ | inr _ => _ end] =>
               destruct x; cbn
           end; intros H; inv H; eauto.
Qed.

(** The hue [rgb_to_hsv] returns is a float: NaN, or between 0.0 and 1.0. *)
Lemma rgb_to_hsv_hue r g b h s v :
  colorsys.rgb_to_hsv r g b = inr (h, s, v) ->
  exists u, h = PyFloat u /\ (u = S754_nan \/ unit_float u).
Proof.
  unfold colorsys.rgb_to_hsv.
  destruct (sub _ _) as [?|rangec]; cbn [bind Monad_either]; [discriminate|].
  destruct (eqb _ _).
  - intros H; inv H. exists (lit 0 0). split; [reflexivity|]. right. exact I.
  - destruct (truediv rangec _) as [?|s']; cbn [bind Monad_either]; [discriminate|].
    destruct (sub _ r) as [?|dr]; cbn [bind Monad_either]; [discriminate|].
    destruct (truediv dr _) as [?|rc]; cbn [bind Monad_either]; [discriminate|].
    destruct (sub _ g) as [?|dg]; cbn [bind Monad_either]; [discriminate|].
    destruct (truediv dg _) as [?|gc]; cbn [bind Monad_either]; [discriminate|].
    destruct (sub _ b) as [?|db]; cbn [bind Monad_either]; [discriminate|].
    destruct (truediv db _) as [?|bc]; cbn [bind Monad_either]; [discriminate|].
    match goal with
    | |- context [match ?x with inl _ => _ | inr _ => _ end] =>
        destruct x as [?|h0]; [discriminate|]
    end.
    destruct (truediv h0 _) as [?|h6] eqn:E6; [discriminate|].
    apply truediv_float in E6. destruct E6 as [f6 ->].
    change (lit 1 0) with one.
    unfold mod_. cbn [to_float bind ret Monad_either].
    destruct (float_mod f6 one) as [?|u] eqn:Eu; [discriminate|].
    intros H; inv H. exists u. split; [reflexivity|].
    eapply float_mod_one_range; eassumption.
Qed.

(** The colour byte lies between 0 and 255. *)
Lemma convert_color_range c v :
  convert_color c = inr v -> exists z, v = PyInt z /\ 0 <= z <= 255.
Proof.
  destruct c as [[r g] b]. unfold convert_color.
  destruct (colorsys.rgb_to_hsv r g b) as [?|[[h s] v']] eqn:E;
    cbn [bind Monad_either]; [discriminate|].
  apply rgb_to_hsv_hue in E. destruct E as (u & -> & Hu).
  cbn [fst]. unfold mul, arith. cbn [to_float]. change MAX_COLOR with 255.
  rewrite float_of_int_255. cbn [bind ret Monad_either].
  destruct Hu as [-> | Hu]; [discriminate|].
  pose proof (SFmul_unit_le u 8972014882652160 (-45) 255
                ltac:(lia) ltac:(lia) eq_refl Hu) as Hp.
  destruct (float_le_integral _ 255 floor_fin (or_introl eq_refl) ltac:(lia) Hp)
    as (n & Hn & Hr).
  unfold floor. rewrite Hn. intros H; inv H. eauto.
Qed.
(** ** The structure of a rounding step *)

Lemma Zdigits2_bounds m :
  0 < m -> 2 ^ (Zdigits2 m - 1) <= m < 2 ^ Zdigits2 m.
Proof.
  intros Hm. destruct m as [|p|p]; try lia. apply digits2_pos_bounds.
Qed.

Lemma Zdigits2_nonneg m : 0 <= Zdigits2 m.
Proof. destruct m; cbn; lia. Qed.

Lemma Zdigits2_unique m d :
  2 ^ (d - 1) <= m < 2 ^ d -> 0 < m -> Zdigits2 m = d.
Proof.
  intros [Hlo Hhi] Hm.
  pose proof (Zdigits2_bounds m Hm) as [Hlo' Hhi'].
  pose proof (Zdigits2_nonneg m).
  assert (Hd : 0 < d).
  { destruct (Z_lt_le_dec 0 d); [assumption|]. exfalso.
    destruct (Z.eq_dec d 0) as [->|]; [cbn in Hhi; lia|].
    rewrite Z.pow_neg_r in Hhi by lia. lia. }
  destruct (Z.lt_trichotomy (Zdigits2 m) d) as [Hlt|[Heq|Hgt]]; [|assumption|].
  - exfalso. assert (2 ^ Zdigits2 m <= 2 ^ (d - 1)) by (apply Z.pow_le_mono_r; lia). lia.
  - exfalso. assert (2 ^ d <= 2 ^ (Zdigits2 m - 1)) by (apply Z.pow_le_mono_r; lia). lia.
Qed.

Lemma Zdigits2_shift m n :
  0 < m -> 0 <= n < Zdigits2 m -> Zdigits2 (m / 2 ^ n) = Zdigits2 m - n.
Proof.
  intros Hm Hn.
  pose proof (Zdigits2_bounds m Hm) as [Hlo Hhi].
  assert (Hp : 0 < 2 ^ n) by (apply Z.pow_pos_nonneg; lia).
  assert (Hq : 2 ^ (Zdigits2 m - n - 1) <= m / 2 ^ n < 2 ^ (Zdigits2 m - n)).
  { split.
    - apply Z.div_le_lower_bound; [lia|].
      rewrite <- Z.pow_add_r by lia.
      replace (n + (Zdigits2 m - n - 1)) with (Zdigits2 m - 1) by lia. lia.
    - apply Z.div_lt_upper_bound; [lia|].
      rewrite <- Z.pow_add_r by lia.
      replace (n + (Zdigits2 m - n)) with (Zdigits2 m) by lia. lia. }
  apply Zdigits2_unique; [exact Hq|].
  assert (0 < 2 ^ (Zdigits2 m - n - 1)) by (apply Z.pow_pos_nonneg; lia). lia.
Qed.

Lemma iter_shr_1_m m r s k :
  0 <= m ->
  shr_m (Nat.iter k shr_1 {| shr_m := m; shr_r := r; shr_s := s |})
  = m / 2 ^ Z.of_nat k.
Proof.
  intros Hm. induction k as [|k IH].
  - cbn. rewrite Z.div_1_r. reflexivity.
  - rewrite Nat.iter_succ.
    destruct (Nat.iter k shr_1 _) as [mk rk sk]. cbn [shr_m] in IH.
    assert (Hpow : 0 < 2 ^ Z.of_nat k) by (apply Z.pow_pos_nonneg; lia).
    assert (0 <= mk) by (subst mk; apply Z.div_pos; lia).
    rewrite shr_1_nonneg by assumption. cbn [shr_m].
    rewrite Nat2Z.inj_succ, Z.pow_succ_r by lia.
    subst mk. rewrite Z.div_div by lia. f_equal. lia.
Qed.

(** Shifting right keeps the quotient whatever was lost before. *)
Lemma shr_m_spec m l e n :
  0 <= m ->
  let '(mrs, e') := shr (shr_record_of_loc m l) e n in
  e' = e + Z.max n 0 /\ shr_m mrs = m / 2 ^ Z.max n 0.
Proof.
  intros Hm. unfold shr.
  assert (Hrec : exists r s, shr_record_of_loc m l
                             = {| shr_m := m; shr_r := r; shr_s := s |})
    by (destruct l as [|[| |]]; cbn; eauto).
  destruct Hrec as (r & s & ->).
  destruct n as [|p|p].
  - cbn. rewrite Z.div_1_r. split; lia.
  - rewrite iter_pos_nat, iter_shr_1_m, positive_nat_Z by assumption.
    replace (Z.max (Zpos p) 0) with (Zpos p) by lia. split; reflexivity.
  - cbn. rewrite Z.div_1_r. split; lia.
Qed.

Lemma fexp_succ_le x : fexp prec emax (x + 1) <= fexp prec emax x + 1.
Proof. rewrite !fexp_eq. lia. Qed.

Lemma fexp_ge_emin x : -1074 <= fexp prec emax x.
Proof. rewrite fexp_eq. lia. Qed.

(** What [binary_round_aux] computes on a mantissa [M >= 0]: the mantissa is
    cut to [q1] at the exponent [e1] of its format, rounded to [m1] (one of
    [q1], [q1 + 1]), and renormalised without loss to [m2] at [e2]. *)
Lemma round_aux_structure s M E l :
  0 <= M ->
  exists q1 e1 m1 m2 e2,
    e1 = E + Z.max (fexp prec emax (Zdigits2 M + E) - E) 0 /\
    q1 = M / 2 ^ (e1 - E) /\
    m1 = round_nearest_even q1
           (loc_of_shr_record
              (fst (shr (shr_record_of_loc M l) E
                        (fexp prec emax (Zdigits2 M + E) - E)))) /\
    q1 <= m1 <= q1 + 1 /\
    e1 <= e2 /\ m1 = m2 * 2 ^ (e2 - e1) /\
    binary_round_aux prec emax s M E l =
    match m2 with
    | Z0 => S754_zero s
    | Zpos m => if e2 <=? emax - prec then S754_finite s m e2
                else S754_infinity s
    | Zneg _ => S754_nan
    end.
Proof.
  intros HM. unfold binary_round_aux, shr_fexp.
  set (n := fexp prec emax (Zdigits2 M + E) - E).
  pose proof (shr_m_spec M l E n HM) as H1.
  destruct (shr (shr_record_of_loc M l) E n) as [mrs' e'] eqn:Es.
  destruct H1 as (-> & Hq). cbn [fst].
  set (np := Z.max n 0) in *.
  assert (Hpn : 0 < 2 ^ np) by (apply Z.pow_pos_nonneg; lia).
  remember (shr_m mrs') as q1 eqn:Eq1.
  assert (Hq1 : 0 <= q1) by (rewrite Hq; apply Z.div_pos; lia).
  pose proof (round_nearest_even_bounds q1 (loc_of_shr_record mrs')) as Hb.
  remember (round_nearest_even q1 (loc_of_shr_record mrs')) as m1 eqn:Em1.
  set (n2 := fexp prec emax (Zdigits2 m1 + (E + np)) - (E + np)).
  pose proof (shr_m_spec m1 loc_Exact (E + np) n2 ltac:(lia)) as H2.
  destruct (shr (shr_record_of_loc m1 loc_Exact) (E + np) n2) as [mrs'' e''].
  destruct H2 as (-> & Hq2).
  clear Es.
  exists q1, (E + np), m1, (shr_m mrs''), (E + np + Z.max n2 0).
  replace (E + np - E) with np by lia.
  replace (E + np + Z.max n2 0 - (E + np)) with (Z.max n2 0) by lia.
  repeat split; try lia; try reflexivity; try assumption.
  (* the renormalisation loses nothing *)
  rewrite Hq2.
  assert (Hcan : fexp prec emax (Zdigits2 q1 + (E + np)) <= E + np).
  { destruct (Z_le_gt_dec n 0) as [Hn|Hn].
    - replace np with 0 in * by lia. rewrite Z.div_1_r in Hq.
      rewrite Hq. replace (E + 0) with E by lia. lia.
    - replace np with n in * by lia.
      destruct (Z_lt_le_dec n (Zdigits2 M)) as [Hlt|Hge].
      + assert (0 < M) by (destruct M; cbn in *; lia).
        rewrite Hq, Zdigits2_shift by lia.
        replace (Zdigits2 M - n + (E + n)) with (Zdigits2 M + E) by lia.
        unfold n. lia.
      + assert (q1 = 0) as ->.
        { rewrite Hq. apply Z.div_small. split; [lia|].
          destruct (Z.eq_dec M 0) as [->|]; [lia|].
          pose proof (Zdigits2_bounds M ltac:(lia)).
          assert (2 ^ Zdigits2 M <= 2 ^ n) by (apply Z.pow_le_mono_r; lia). lia. }
        cbn [Zdigits2]. rewrite fexp_eq.
        pose proof (fexp_ge_emin (Zdigits2 M + E)). unfold n in *. lia. }
  destruct (Z.eq_dec m1 q1) as [Heq|Hne].
  - rewrite Heq. replace (Z.max n2 0) with 0
      by (unfold n2; rewrite Heq; lia).
    rewrite Z.div_1_r. lia.
  - assert (Hm1 : m1 = q1 + 1) by lia.
    destruct (Z_le_gt_dec n2 0) as [Hn2|Hn2].
    + replace (Z.max n2 0) with 0 by lia. rewrite Z.div_1_r. lia.
    + (* the mantissa reached a power of two *)
      assert (Hd : Zdigits2 q1 < Zdigits2 m1).
      { destruct (Z_lt_le_dec (Zdigits2 q1) (Zdigits2 m1)); [assumption|].
        exfalso. unfold n2 in Hn2. rewrite !fexp_eq in *. lia. }
      assert (Hpow : m1 = 2 ^ Zdigits2 q1).
      { destruct (Z.eq_dec q1 0) as [Hz|Hz].
        - rewrite Hm1, Hz. reflexivity.
        - pose proof (Zdigits2_bounds q1 ltac:(lia)) as [_ Hhi].
          pose proof (Zdigits2_bounds m1 ltac:(lia)) as [Hlo _].
          pose proof (Zdigits2_nonneg q1).
          assert (2 ^ Zdigits2 q1 <= 2 ^ (Zdigits2 m1 - 1))
            by (apply Z.pow_le_mono_r; lia).
          lia. }
      assert (Hd1 : Zdigits2 m1 = Zdigits2 q1 + 1).
      { pose proof (Zdigits2_nonneg q1).
        apply Zdigits2_unique.
        - rewrite Hpow. replace (Zdigits2 q1 + 1 - 1) with (Zdigits2 q1) by lia.
          split; [lia|]. apply Z.pow_lt_mono_r; lia.
        - rewrite Hpow. apply Z.pow_pos_nonneg; lia. }
      assert (Hn21 : n2 = 1).
      { unfold n2 in *. rewrite Hd1.
        pose proof (fexp_succ_le (Zdigits2 q1 + (E + np))).
        replace (Zdigits2 q1 + 1 + (E + np)) with (Zdigits2 q1 + (E + np) + 1)
          in * by lia.
        rewrite Hd1 in Hn2.
        replace (Zdigits2 q1 + 1 + (E + np)) with (Zdigits2 q1 + (E + np) + 1)
          in Hn2 by lia.
        lia. }
      rewrite Hn21. cbn [Z.max Z.compare]. change (2 ^ 1) with 2.
      assert (0 < Zdigits2 q1).
      { destruct (Z.eq_dec (Zdigits2 q1) 0) as [H0|]; [|pose proof (Zdigits2_nonneg q1); lia].
        exfalso. rewrite H0 in Hd1.
        unfold n2 in Hn21. rewrite Hd1, fexp_eq in Hn21.
        rewrite H0 in Hcan. rewrite fexp_eq in Hcan. lia. }
      rewrite Hpow.
      replace (Zdigits2 q1) with (Z.succ (Zdigits2 q1 - 1)) at 2 by lia.
      rewrite Z.pow_succ_r by lia.
      rewrite (Z.mul_comm 2), Z.div_mul by lia.
      replace (Zdigits2 q1) with (Z.succ (Zdigits2 q1 - 1)) at 1 by lia.
      rewrite Z.pow_succ_r by lia. lia.
Qed.

(** ** Exact order on finite numbers [m * 2^e] *)

Lemma sc_shift E' E m e :
  E' <= E -> E <= e -> sc E' m e = sc E m e * 2 ^ (E - E').
Proof.
  intros H1 H2. unfold sc. rewrite <- Z.mul_assoc, <- Z.pow_add_r by lia.
  do 2 f_equal. lia.
Qed.

Lemma me_le_scale E m1 e1 m2 e2 :
  E <= e1 -> E <= e2 ->
  (me_le m1 e1 m2 e2 <-> sc E m1 e1 <= sc E m2 e2).
Proof.
  intros H1 H2. unfold me_le.
  rewrite (sc_shift E (Z.min e1 e2) m1 e1), (sc_shift E (Z.min e1 e2) m2 e2) by lia.
  assert (0 < 2 ^ (Z.min e1 e2 - E)) by (apply Z.pow_pos_nonneg; lia).
  split; intros; nia.
Qed.

Lemma sc_pos E m e : 0 < m -> E <= e -> 0 < sc E m e.
Proof.
  intros. unfold sc. apply Z.mul_pos_pos; [lia|]. apply Z.pow_pos_nonneg; lia.
Qed.

Lemma sc_nonneg E m e : 0 <= m -> E <= e -> 0 <= sc E m e.
Proof.
  intros. unfold sc. apply Z.mul_nonneg_nonneg; [lia|]. apply Z.pow_nonneg; lia.
Qed.

Lemma sc_same E m : sc E m E = m.
Proof. unfold sc. rewrite Z.sub_diag. cbn. lia. Qed.

Lemma sc_mul E m e k : 0 <= k -> E <= e -> sc E (m * 2 ^ k) e = sc E m (e + k).
Proof.
  intros. unfold sc. rewrite <- Z.mul_assoc, <- Z.pow_add_r by lia.
  do 2 f_equal. lia.
Qed.

Lemma sc_lt_pow E m e k :
  0 < m -> E <= e -> sc E m e < 2 ^ (k - E) -> e < k.
Proof.
  intros Hm He H. unfold sc in H.
  destruct (Z_lt_le_dec e k); [assumption|]. exfalso.
  assert (0 < 2 ^ (e - E)) by (apply Z.pow_pos_nonneg; lia).
  destruct (Z_lt_le_dec (k - E) 0).
  - rewrite (Z.pow_neg_r 2 (k - E)) in H by lia. nia.
  - assert (2 ^ (k - E) <= 2 ^ (e - E)) by (apply Z.pow_le_mono_r; lia). nia.
Qed.

Lemma me_le_trans m1 e1 m2 e2 m3 e3 :
  me_le m1 e1 m2 e2 -> me_le m2 e2 m3 e3 -> me_le m1 e1 m3 e3.
Proof.
  intros H1 H2.
  set (E := Z.min e1 (Z.min e2 e3)).
  apply (me_le_scale E) in H1; [|lia|lia].
  apply (me_le_scale E) in H2; [|lia|lia].
  apply (me_le_scale E); lia.
Qed.

Lemma loc_of_shr_record_of_loc m l :
  loc_of_shr_record (shr_record_of_loc m l) = l.
Proof. destruct l as [|[| |]]; reflexivity. Qed.

(** Rounding stays between representable bounds.  The mantissa [M] with
    location [l] stands for a number in [[M, M + 1) * 2^E], equal to
    [M * 2^E] when the location is exact. *)
Lemma round_aux_between s M E l lo hi g :
  0 <= M -> 0 <= lo -> 0 < hi < 2 ^ 53 -> -1074 <= g <= 0 ->
  me_le lo g M E ->
  (l = loc_Exact /\ me_le M E hi g) \/ me_le (M + 1) E hi g ->
  fbetween s lo hi g (binary_round_aux prec emax s M E l).
Proof.
  intros HM Hlo Hhi Hg Hlow Hup.
  destruct (round_aux_structure s M E l HM)
    as (q1 & e1 & m1 & m2 & e2 & He1 & Hq1 & Hm1 & Hb & He2 & Hm2 & ->).
  rewrite fexp_eq in He1, Hm1.
  set (n := Z.max (Zdigits2 M + E - 53) (-1074) - E) in *.
  assert (HE1 : E <= e1) by lia.
  assert (Hpn : 0 < 2 ^ (e1 - E)) by (apply Z.pow_pos_nonneg; lia).
  assert (Hq1' : 0 <= q1) by (rewrite Hq1; apply Z.div_pos; lia).
  remember (Z.min E g) as E0 eqn:HE0.
  assert (HM1 : sc E0 M E <= sc E0 hi g).
  { destruct Hup as [[_ H]|H]; apply (me_le_scale E0) in H; try lia.
    all: try (apply Z.le_trans with (sc E0 (M + 1) E); [|assumption];
              unfold sc; apply Z.mul_le_mono_nonneg_r;
              [apply Z.pow_nonneg; lia | lia]). }
  assert (Hlohi : lo <= hi).
  { pose proof Hlow as Hl. apply (me_le_scale E0) in Hl; try lia.
    assert (0 < 2 ^ (g - E0)) by (apply Z.pow_pos_nonneg; lia).
    unfold sc in Hl, HM1. nia. }
  (* upper bound on the rounded mantissa *)
  assert (Hupper : sc E0 m1 e1 <= sc E0 hi g).
  {
    destruct (Z_le_gt_dec n 0) as [Hn|Hn].
    - (* no shift *)
      assert (He1E : e1 = E) by lia.
      replace (e1 - E) with 0 in Hq1 by lia. rewrite Z.div_1_r in Hq1.
      rewrite He1E. clear He1.
      unfold shr in Hm1. destruct n as [| |]; try lia;
        cbn [fst] in Hm1; rewrite loc_of_shr_record_of_loc in Hm1.
      + destruct Hup as [[-> H]|H].
        * cbn in Hm1. rewrite Hm1, Hq1. assumption.
        * apply (me_le_scale E0) in H; try lia.
          apply Z.le_trans with (sc E0 (M + 1) E); [|assumption].
          unfold sc. apply Z.mul_le_mono_nonneg_r; [|lia].
          apply Z.pow_nonneg; lia.
      + destruct Hup as [[-> H]|H].
        * cbn in Hm1. rewrite Hm1, Hq1. assumption.
        * apply (me_le_scale E0) in H; try lia.
          apply Z.le_trans with (sc E0 (M + 1) E); [|assumption].
          unfold sc. apply Z.mul_le_mono_nonneg_r; [|lia].
          apply Z.pow_nonneg; lia.
    - (* the format exponent is below the bound *)
      assert (He1g : e1 <= g).
      { assert (Hlt : sc E0 M E < 2 ^ (53 + g - E0)).
        { apply Z.le_lt_trans with (sc E0 hi g); [assumption|].
          unfold sc. replace (53 + g - E0) with (53 + (g - E0)) by lia.
          rewrite Z.pow_add_r by lia.
          assert (0 < 2 ^ (g - E0)) by (apply Z.pow_pos_nonneg; lia). nia. }
        destruct (Z.eq_dec M 0) as [HM0|HM0].
        - unfold n in *. rewrite HM0 in *. cbn [Zdigits2] in *. lia.
        - pose proof (Zdigits2_bounds M ltac:(lia)) as [HdM _].
          assert (Hd : Zdigits2 M + E - 1 < 53 + g).
          { pose proof (Zdigits2_nonneg M).
            assert (Hlow2 : sc E0 (2 ^ (Zdigits2 M - 1)) E <= sc E0 M E).
            { unfold sc. apply Z.mul_le_mono_nonneg_r; [|lia].
              apply Z.pow_nonneg; lia. }
            assert (0 < Zdigits2 M).
            { destruct M; cbn in *; lia. }
            assert (H2 : 2 ^ (Zdigits2 M - 1 + (E - E0)) < 2 ^ (53 + g - E0)).
            { rewrite Z.pow_add_r by lia. unfold sc in Hlow2, Hlt. lia. }
            apply Z.pow_lt_mono_r_iff in H2; lia. }
          unfold n in *. lia. }
      assert (E0 = E) by lia.
      set (I := hi * 2 ^ (g - e1)).
      assert (HI : sc E0 hi g = I * 2 ^ (e1 - E)).
      { unfold sc, I. rewrite <- Z.mul_assoc, <- Z.pow_add_r by lia.
        do 2 f_equal. lia. }
      assert (Hsc : sc E0 m1 e1 = m1 * 2 ^ (e1 - E)).
      { unfold sc. do 2 f_equal. lia. }
      rewrite Hsc, HI. apply Z.mul_le_mono_nonneg_r; [lia|].
      assert (HME : sc E0 M E = M) by (replace E0 with E by lia; apply sc_same).
      assert (hq : q1 <= I).
      { rewrite Hq1. apply Z.div_le_upper_bound; [lia|]. lia. }
      destruct (Z.eq_dec q1 I) as [Heq|Hne]; [|lia].
      assert (HMeq : M = I * 2 ^ (e1 - E)).
      { pose proof (Z.mul_div_le M (2 ^ (e1 - E)) Hpn). rewrite <- Hq1 in *. nia. }
      destruct Hup as [[-> Hu]|Hu].
      + pose proof (shr_exact_spec M E n HM) as Hx.
        destruct (shr (shr_record_of_loc M loc_Exact) E n) as [mrs' e'].
        destruct Hx as (_ & _ & Hx). cbn [fst] in Hm1.
        rewrite Hx in Hm1.
        * cbn in Hm1. lia.
        * replace (Z.max n 0) with (e1 - E) by lia.
          rewrite HMeq. apply Z.mod_mul. lia.
      + exfalso. apply (me_le_scale E0) in Hu; try lia.
        assert (sc E0 (M + 1) E = M + 1)
          by (replace E0 with E by lia; apply sc_same).
        lia. }
  (* lower bound on the rounded mantissa *)
  assert (Hlower : sc E0 lo g <= sc E0 m1 e1).
  { apply (me_le_scale E0) in Hlow; try lia.
    destruct (Z.eq_dec lo 0) as [->|Hlo0].
    { unfold sc at 1. rewrite Z.mul_0_l. apply sc_nonneg; lia. }
    apply Z.le_trans with (sc E0 q1 e1);
      [|unfold sc; apply Z.mul_le_mono_nonneg_r; [apply Z.pow_nonneg|]; lia].
    destruct (Z_le_gt_dec n 0) as [Hn|Hn].
    - assert (He1E : e1 = E) by lia.
      replace (e1 - E) with 0 in Hq1 by lia. rewrite Z.div_1_r in Hq1.
      rewrite He1E, Hq1. assumption.
    - assert (0 < M).
      { destruct (Z.eq_dec M 0) as [->|]; [|lia]. exfalso.
        unfold sc in Hlow. rewrite Z.mul_0_l in Hlow.
        assert (0 < 2 ^ (g - E0)) by (apply Z.pow_pos_nonneg; lia). nia. }
      destruct (Z_le_gt_dec e1 g) as [He1g|He1g].
      + assert (E0 = E) by lia.
        set (I := lo * 2 ^ (g - e1)).
        assert (HI : sc E0 lo g = I * 2 ^ (e1 - E)).
        { unfold sc, I. rewrite <- Z.mul_assoc, <- Z.pow_add_r by lia.
          do 2 f_equal. lia. }
        assert (Hsc : sc E0 q1 e1 = q1 * 2 ^ (e1 - E)).
        { unfold sc. do 2 f_equal. lia. }
        rewrite Hsc, HI. apply Z.mul_le_mono_nonneg_r; [lia|].
        assert (HME : sc E0 M E = M) by (replace E0 with E by lia; apply sc_same).
        rewrite Hq1. apply Z.div_le_lower_bound; [lia|]. lia.
      + (* the format exponent is above the bound: a full mantissa *)
        assert (Hn53 : e1 - E = Zdigits2 M - 53).
        { unfold n in *. lia. }
        pose proof (Zdigits2_bounds M ltac:(lia)) as [HdM _].
        assert (Hq52 : 2 ^ 52 <= q1).
        { rewrite Hq1, Hn53. apply Z.div_le_lower_bound.
          - apply Z.pow_pos_nonneg; lia.
          - rewrite <- Z.pow_add_r by lia.
            replace (Zdigits2 M - 53 + 52) with (Zdigits2 M - 1) by lia. lia. }
        apply Z.le_trans with (sc E0 (2 ^ 52) e1);
          [|unfold sc; apply Z.mul_le_mono_nonneg_r; [apply Z.pow_nonneg|]; lia].
        apply Z.le_trans with (sc E0 (2 ^ 53) g).
        * unfold sc. apply Z.mul_le_mono_nonneg_r; [apply Z.pow_nonneg|]; lia.
        * unfold sc. rewrite <- !Z.pow_add_r by lia.
          apply Z.pow_le_mono_r; lia. }
  (* the renormalised result *)
  assert (Hval : forall E', E' <= e1 -> sc E' m2 e2 = sc E' m1 e1).
  { intros E' HE'. rewrite Hm2, sc_mul by lia. f_equal. lia. }
  assert (Hm2' : 0 <= m2).
  { assert (0 < 2 ^ (e2 - e1)) by (apply Z.pow_pos_nonneg; lia). nia. }
  destruct m2 as [|m|m]; [| |lia].
  - cbn [fbetween].
    destruct (Z.eq_dec lo 0); [lia|]. exfalso.
    assert (Hm10 : m1 = 0) by lia. rewrite Hm10 in Hlower.
    unfold sc in Hlower. rewrite Z.mul_0_l in Hlower.
    assert (0 < 2 ^ (g - E0)) by (apply Z.pow_pos_nonneg; lia). nia.
  - assert (He2' : e2 < 53).
    { apply (sc_lt_pow E0 (Zpos m)); [lia|lia|].
      rewrite Hval by lia.
      apply Z.le_lt_trans with (sc E0 hi g); [assumption|].
      unfold sc.
      assert (0 < 2 ^ (g - E0)) by (apply Z.pow_pos_nonneg; lia).
      apply Z.lt_le_trans with (2 ^ 53 * 2 ^ (g - E0)); [nia|].
      rewrite <- Z.pow_add_r by lia. apply Z.pow_le_mono_r; lia. }
    replace (e2 <=? emax - prec) with true
      by (symmetry; apply Z.leb_le; unfold emax, prec; lia).
    cbn [fbetween]. split; [reflexivity|]. split.
    + apply (me_le_scale E0); try lia. rewrite Hval by lia. assumption.
    + apply (me_le_scale E0); try lia. rewrite Hval by lia. assumption.
Qed.

(** ** Bounds through the arithmetic operations *)

Lemma binary_round_between s m e lo hi g :
  0 <= lo -> 0 < hi < 2 ^ 53 -> -1074 <= g <= 0 ->
  me_le lo g (Zpos m) e -> me_le (Zpos m) e hi g ->
  fbetween s lo hi g (binary_round prec emax s m e).
Proof.
  intros Hlo Hhi Hg Hl Hu. unfold binary_round.
  pose proof (shl_align_spec m e (fexp prec emax (Zpos (digits2_pos m) + e))) as Ha.
  destruct (shl_align m e _) as [mz ez]. destruct Ha as [Hez Hmz].
  assert (Hez' : ez <= e) by lia.
  assert (Hsc : forall E, E <= ez -> sc E (Zpos mz) ez = sc E (Zpos m) e).
  { intros E HE. rewrite Hmz, sc_mul by lia. f_equal. lia. }
  apply round_aux_between; try lia.
  - apply (me_le_scale (Z.min g ez)); try lia.
    apply (me_le_scale (Z.min g ez)) in Hl; try lia.
    rewrite Hsc by lia. assumption.
  - left. split; [reflexivity|].
    apply (me_le_scale (Z.min g ez)); try lia.
    apply (me_le_scale (Z.min g ez)) in Hu; try lia.
    rewrite Hsc by lia. assumption.
Qed.

(** The float nearest to the integer [z] times [2^e]. *)
Lemma binary_normalize_between z e s lo hi g :
  0 <= lo -> 0 < hi < 2 ^ 53 -> -1074 <= g <= 0 ->
  (z <> 0 -> s = (z <? 0)) ->
  me_le lo g (Z.abs z) e -> me_le (Z.abs z) e hi g ->
  fbetween s lo hi g (binary_normalize prec emax z e false).
Proof.
  intros Hlo Hhi Hg Hs Hl Hu. destruct z as [|p|p]; cbn [binary_normalize].
  - cbn [fbetween]. unfold me_le, sc in Hl. cbn [Z.abs] in Hl.
    rewrite Z.mul_0_l in Hl.
    assert (0 < 2 ^ (g - Z.min g e)) by (apply Z.pow_pos_nonneg; lia). nia.
  - rewrite (Hs ltac:(lia)). cbn [Z.ltb Z.compare].
    apply binary_round_between; assumption.
  - rewrite (Hs ltac:(lia)). cbn [Z.ltb Z.compare].
    apply binary_round_between; assumption.
Qed.

Lemma fbetween_real s lo hi g x : fbetween s lo hi g x -> is_real x.
Proof. destruct x; cbn; auto. Qed.

Lemma sc_opp E m e : sc E (- m) e = - sc E m e.
Proof. unfold sc. lia. Qed.

Lemma sc_add E a b e : sc E (a + b) e = sc E a e + sc E b e.
Proof. unfold sc. lia. Qed.

(** The scaled value of a bounded float. *)
Lemma fbetween_sval s lo hi g x E :
  fbetween s lo hi g x -> 0 <= lo <= hi -> E <= g -> E <= fexpo x ->
  sc E lo g <= Z.abs (sval E x) <= sc E hi g /\
  (sval E x <> 0 -> s = (sval E x <? 0)).
Proof.
  intros Hx Hlo HEg HEx.
  assert (Hp : 0 < 2 ^ (g - E)) by (apply Z.pow_pos_nonneg; lia).
  destruct x as [s'|s'| |s' m e]; cbn [fbetween] in Hx; try contradiction.
  - cbn [sval Z.abs]. unfold sc. split; [nia|]. intros H; congruence.
  - cbn [fexpo] in HEx. destruct Hx as (-> & Hl & Hu).
    apply (me_le_scale E) in Hl; try lia.
    apply (me_le_scale E) in Hu; try lia.
    cbn [sval].
    pose proof (sc_pos E (Zpos m) e ltac:(lia) HEx) as Hpos.
    destruct s; cbn [cond_Zopp]; rewrite ?sc_opp.
    + split; [lia|]. intros _. symmetry. apply Z.ltb_lt. lia.
    + split; [lia|]. intros _. symmetry. apply Z.ltb_ge. lia.
Qed.

(** Addition and subtraction of two real floats: the exact sum, rounded. *)
Lemma SFadd_sub_between (sub_ : bool) x y s lo hi g :
  is_real x -> is_real y ->
  0 <= lo -> 0 < hi < 2 ^ 53 -> -1074 <= g <= 0 ->
  let E := Z.min g (Z.min (fexpo x) (fexpo y)) in
  let v := if sub_ then sval E x - sval E y else sval E x + sval E y in
  (v <> 0 -> s = (v <? 0)) ->
  sc E lo g <= Z.abs v <= sc E hi g ->
  fbetween s lo hi g
           (if sub_ then SFsub prec emax x y else SFadd prec emax x y).
Proof.
  intros Hx Hy Hlo Hhi Hg E v Hs Hv.
  assert (Hp : 0 < 2 ^ (g - E)) by (apply Z.pow_pos_nonneg; lia).
  destruct x as [sx|sx| |sx mx ex]; cbn [is_real] in Hx; try contradiction;
    destruct y as [sy|sy| |sy my ey]; cbn [is_real] in Hy; try contradiction.
  - (* zero, zero *)
    assert (v = 0) by (unfold v; destruct sub_; cbn; lia).
    assert (lo <= 0) by (unfold sc in Hv; rewrite H in Hv; cbn in Hv; nia).
    destruct sub_, sx, sy; cbn; assumption.
  - (* zero, finite *)
    cbn [fexpo] in E.
    assert (HE : E <= ey) by lia.
    pose proof (sc_pos E (Zpos my) ey ltac:(lia) HE) as Hpos.
    assert (Hval : Z.abs v = sc E (Zpos my) ey).
    { unfold v. cbn [sval]. destruct sub_, sy; cbn [cond_Zopp];
        rewrite ?sc_opp; lia. }
    assert (Hsign : s = (if sub_ then negb sy else sy)).
    { rewrite Hs by lia. unfold v. cbn [sval].
      destruct sub_, sy; cbn [cond_Zopp negb]; rewrite ?sc_opp;
        (apply Z.ltb_lt; lia) || (apply Z.ltb_ge; lia). }
    rewrite Hval in Hv.
    destruct sub_; cbn [SFsub SFadd fbetween]; (split; [congruence|]);
      split; apply (me_le_scale E); lia.
  - (* finite, zero *)
    cbn [fexpo] in E.
    assert (HE : E <= ex) by lia.
    pose proof (sc_pos E (Zpos mx) ex ltac:(lia) HE) as Hpos.
    assert (Hval : Z.abs v = sc E (Zpos mx) ex).
    { unfold v. cbn [sval]. destruct sub_, sx; cbn [cond_Zopp];
        rewrite ?sc_opp; lia. }
    assert (Hsign : s = sx).
    { rewrite Hs by lia. unfold v. cbn [sval].
      destruct sub_, sx; cbn [cond_Zopp negb]; rewrite ?sc_opp;
        (apply Z.ltb_lt; lia) || (apply Z.ltb_ge; lia). }
    rewrite Hval in Hv.
    destruct sub_; cbn [SFsub SFadd fbetween]; (split; [congruence|]);
      split; apply (me_le_scale E); lia.
  - (* finite, finite *)
    cbn [fexpo] in E.
    set (ez := Z.min ex ey).
    set (a := cond_Zopp sx (Zpos mx * 2 ^ (ex - ez))).
    set (b := cond_Zopp sy (Zpos my * 2 ^ (ey - ez))).
    assert (Hform :
      @eq float
        (if sub_ then SFsub prec emax (S754_finite sx mx ex) (S754_finite sy my ey)
         else SFadd prec emax (S754_finite sx mx ex) (S754_finite sy my ey))
        (binary_normalize prec emax (if sub_ then a - b else a + b) ez false)).
    { destruct sub_; cbv beta iota zeta delta [SFsub SFadd]; fold ez;
        rewrite !shl_align_fst;
        replace (Z.min ex ez) with ez by lia;
        replace (Z.min ey ez) with ez by lia; reflexivity. }
    rewrite Hform.
    assert (Ha : sc E a ez = sval E (S754_finite sx mx ex)).
    { unfold a. cbn [sval]. destruct sx; cbn [cond_Zopp];
        rewrite ?sc_opp, sc_mul by lia; repeat f_equal; lia. }
    assert (Hb : sc E b ez = sval E (S754_finite sy my ey)).
    { unfold b. cbn [sval]. destruct sy; cbn [cond_Zopp];
        rewrite ?sc_opp, sc_mul by lia; repeat f_equal; lia. }
    set (z := if sub_ then a - b else a + b).
    assert (Hz : sc E z ez = v).
    { unfold z, v. destruct sub_.
      - replace (a - b) with (a + - b) by lia.
        rewrite sc_add, sc_opp, Ha, Hb. lia.
      - rewrite sc_add, Ha, Hb. lia. }
    assert (Hpz : 0 < 2 ^ (ez - E)) by (apply Z.pow_pos_nonneg; lia).
    assert (Habs : sc E (Z.abs z) ez = Z.abs v).
    { rewrite <- Hz. unfold sc. rewrite Z.abs_mul, (Z.abs_eq (2 ^ _)) by lia.
      reflexivity. }
    apply binary_normalize_between; try lia.
    + intros Hz0. rewrite Hs.
      * rewrite <- Hz. unfold sc.
        destruct (Z.ltb_spec z 0), (Z.ltb_spec (z * 2 ^ (ez - E)) 0);
          try reflexivity; nia.
      * rewrite <- Hz. unfold sc. nia.
    + apply (me_le_scale E); try rewrite Habs; lia.
    + apply (me_le_scale E); try rewrite Habs; lia.
Qed.

Lemma SFdiv_core_spec mx ex my ey :
  let '(q, e', l) := SFdiv_core_binary prec emax (Zpos mx) ex (Zpos my) ey in
  exists r,
    e' <= ex - ey /\
    e' <= fexp prec emax (Zpos (digits2_pos mx) + ex - (Zpos (digits2_pos my) + ey)) /\
    Zpos mx * 2 ^ (ex - ey - e') = Zpos my * q + r /\
    0 <= r < Zpos my /\ 0 <= q /\
    (r = 0 -> l = loc_Exact).
Proof.
  unfold SFdiv_core_binary. cbn [Zdigits2].
  set (e' := Z.min (fexp prec emax (Zpos (digits2_pos mx) + ex
                                   - (Zpos (digits2_pos my) + ey))) (ex - ey)).
  set (s := ex - ey - e').
  assert (Hs : 0 <= s) by (unfold s, e'; lia).
  set (m' := match s with
             | 0 => Zpos mx
             | Zpos _ => Z.shiftl (Zpos mx) s
             | Zneg _ => 0
             end).
  assert (Hm' : m' = Zpos mx * 2 ^ s).
  { unfold m'. destruct s as [|p|p] eqn:Es.
    - cbn. lia.
    - rewrite Z.shiftl_mul_pow2 by lia. reflexivity.
    - lia. }
  pose proof (Z_div_mod m' (Zpos my) ltac:(lia)) as Hdm.
  destruct (Z.div_eucl m' (Zpos my)) as [q r].
  destruct Hdm as [Hdm Hr].
  exists r. repeat split; try lia.
  - fold s. rewrite <- Hm'. exact Hdm.
  - assert (0 <= m') by (rewrite Hm'; apply Z.mul_nonneg_nonneg;
                         [lia|apply Z.pow_nonneg; lia]).
    destruct (Z_lt_le_dec q 0); [|lia]. exfalso. nia.
  - intros ->. unfold new_location, new_location_even, new_location_odd.
    destruct (Z.even (Zpos my)); reflexivity.
Qed.

(** The quotient of two finite floats whose exact quotient lies between
    [lo * 2^g] and [hi * 2^g]. *)
Lemma SFdiv_between sx mx ex sy my ey lo hi g :
  0 <= lo -> 0 < hi < 2 ^ 53 -> -1074 <= g <= 0 ->
  me_le (lo * Zpos my) (g + ey) (Zpos mx) ex ->
  me_le (Zpos mx) ex (hi * Zpos my) (g + ey) ->
  fbetween (xorb sx sy) lo hi g
           (SFdiv prec emax (S754_finite sx mx ex) (S754_finite sy my ey)).
Proof.
  intros Hlo Hhi Hg Hl Hu. cbn [SFdiv].
  pose proof (SFdiv_core_spec mx ex my ey) as Hc.
  destruct (SFdiv_core_binary prec emax (Zpos mx) ex (Zpos my) ey) as [[q e'] l].
  destruct Hc as (r & He1 & He2 & Hdiv & Hr & Hq & Hex).
  rewrite fexp_eq in He2.
  assert (Hs : 0 <= ex - ey - e') by lia.
  assert (Hps : 0 < 2 ^ (ex - ey - e')) by (apply Z.pow_pos_nonneg; lia).
  (* the exponent of the quotient is below the bound *)
  assert (He'g : e' <= g).
  { destruct (Z_le_gt_dec e' g) as [|Hgt]; [assumption|]. exfalso.
    apply (me_le_scale (g + ey)) in Hu; try lia.
    rewrite sc_same in Hu. unfold sc in Hu.
    pose proof (digits2_pos_bounds mx) as [Hd1 _].
    pose proof (digits2_pos_bounds my) as [_ Hd2].
    set (d1 := Zpos (digits2_pos mx)) in *.
    set (d2 := Zpos (digits2_pos my)) in *.
    assert (Hsd : 52 + d2 <= d1 - 1 + (ex - ey - e')) by lia.
    assert (H1 : 2 ^ (52 + d2) <= 2 ^ (d1 - 1 + (ex - ey - e')))
      by (apply Z.pow_le_mono_r; lia).
    rewrite !Z.pow_add_r in H1 by lia.
    replace (ex - (g + ey)) with ((ex - ey - e') + (e' - g)) in Hu by lia.
    rewrite Z.pow_add_r in Hu by lia.
    assert (2 ^ 1 <= 2 ^ (e' - g)) by (apply Z.pow_le_mono_r; lia).
    change (2 ^ 1) with 2 in *.
    assert (2 ^ 52 * Zpos my < Zpos mx * 2 ^ (ex - ey - e')) by nia.
    nia. }
  assert (Hpg : 0 < 2 ^ (g - e')) by (apply Z.pow_pos_nonneg; lia).
  apply (me_le_scale (e' + ey)) in Hl; try lia.
  apply (me_le_scale (e' + ey)) in Hu; try lia.
  unfold sc in Hl, Hu.
  replace (ex - (e' + ey)) with (ex - ey - e') in Hl, Hu by lia.
  replace (g + ey - (e' + ey)) with (g - e') in Hl, Hu by lia.
  rewrite Hdiv in Hl, Hu.
  apply round_aux_between; try lia.
  - apply (me_le_scale e'); try lia. rewrite sc_same. unfold sc.
    destruct (Z_le_gt_dec (lo * 2 ^ (g - e')) q); [assumption|]. exfalso. nia.
  - destruct (Z.eq_dec r 0) as [Hr0|Hr0].
    + left. split; [auto|].
      apply (me_le_scale e'); try lia. rewrite sc_same. unfold sc.
      destruct (Z_le_gt_dec q (hi * 2 ^ (g - e'))); [assumption|]. exfalso. nia.
    + right.
      apply (me_le_scale e'); try lia. rewrite sc_same. unfold sc.
      destruct (Z_le_gt_dec (q + 1) (hi * 2 ^ (g - e'))); [assumption|].
      exfalso. nia.
Qed.

Lemma SFmul_between sx mx ex sy my ey lo hi g :
  0 <= lo -> 0 < hi < 2 ^ 53 -> -1074 <= g <= 0 ->
  me_le lo g (Zpos mx * Zpos my) (ex + ey) ->
  me_le (Zpos mx * Zpos my) (ex + ey) hi g ->
  fbetween (xorb sx sy) lo hi g
           (SFmul prec emax (S754_finite sx mx ex) (S754_finite sy my ey)).
Proof.
  intros Hlo Hhi Hg Hl Hu. cbn [SFmul]. rewrite Pos2Z.inj_mul.
  apply round_aux_between; auto; lia.
Qed.

(** The quotient of two integers [0 <= k <= n]. *)
Lemma int_truediv_between k n lo hi g :
  0 <= k -> 0 < n ->
  0 <= lo -> 0 < hi < 2 ^ 53 -> -1074 <= g <= 0 ->
  me_le (lo * n) g k 0 -> me_le k 0 (hi * n) g ->
  exists q, int_truediv k n = inr q /\ fbetween false lo hi g q.
Proof.
  intros Hk Hn Hlo Hhi Hg Hl Hu. unfold int_truediv.
  replace (n =? 0) with false by (symmetry; apply Z.eqb_neq; lia).
  destruct k as [|p|p]; [| |lia].
  - exists (S754_zero (n <? 0)). split; [reflexivity|]. cbn [fbetween].
    unfold me_le, sc in Hl. rewrite Z.mul_0_l in Hl.
    assert (0 < 2 ^ (g - Z.min g 0)) by (apply Z.pow_pos_nonneg; lia). nia.
  - replace (Zpos p <? 0) with false by reflexivity.
    replace (n <? 0) with false by (symmetry; apply Z.ltb_ge; lia).
    cbn [Z.abs Z.to_pos].
    assert (Hnp : Zpos (Z.to_pos (Z.abs n)) = n).
    { rewrite Z.abs_eq by lia. apply Z2Pos.id. lia. }
    pose proof (SFdiv_between false p 0 false (Z.to_pos (Z.abs n)) 0 lo hi g
                  Hlo Hhi Hg) as H.
    rewrite Hnp, Z.add_0_r in H. specialize (H Hl Hu). cbn [xorb] in H.
    destruct (SFdiv prec emax _ _) as [s|s| |s m e] eqn:E;
      cbn [fbetween] in H; try contradiction;
      (eexists; split; [reflexivity|exact H]).
Qed.

(** Division by 6.0. *)
Lemma div6_between s lo hi g lo' hi' g' h :
  fbetween s lo hi g h ->
  0 <= lo' -> 0 < hi' < 2 ^ 53 -> -1074 <= g' <= 0 ->
  me_le (6 * lo') g' lo g -> me_le hi g (6 * hi') g' ->
  exists h6, float_truediv h six = inr h6 /\ fbetween s lo' hi' g' h6.
Proof.
  intros Hh Hlo' Hhi' Hg' Hl Hu.
  unfold float_truediv. cbn [is_zero six]. eexists. split; [reflexivity|].
  destruct h as [sh|sh| |sh mh eh]; cbn [fbetween] in Hh; try contradiction.
  - cbn [SFdiv fbetween].
    unfold me_le, sc in Hl.
    assert (0 < 2 ^ (g' - Z.min g' g)) by (apply Z.pow_pos_nonneg; lia).
    assert (0 < 2 ^ (g - Z.min g' g)) by (apply Z.pow_pos_nonneg; lia).
    assert (lo * 2 ^ (g - Z.min g' g) <= 0) by nia.
    destruct (Z_le_gt_dec lo' 0); [assumption|]. exfalso.
    assert (0 < 6 * lo' * 2 ^ (g' - Z.min g' g)) by nia. lia.
  - destruct Hh as (-> & Hhl & Hhu).
    replace s with (xorb s false) at 1 by (destruct s; reflexivity).
    set (E := Z.min (Z.min g g') eh - 50).
    apply (me_le_scale (E + 50)) in Hl, Hu, Hhl, Hhu; try (unfold E; lia).
    assert (Hp1 : 0 < 2 ^ (g - (E + 50))) by (apply Z.pow_pos_nonneg; unfold E; lia).
    assert (Hp2 : 0 < 2 ^ (g' - (E + 50))) by (apply Z.pow_pos_nonneg; unfold E; lia).
    assert (Hp3 : 0 < 2 ^ (eh - (E + 50))) by (apply Z.pow_pos_nonneg; unfold E; lia).
    assert (Hsix : 6755399441055744 = 6 * 2 ^ 50) by reflexivity.
    unfold sc in Hl, Hu, Hhl, Hhu.
    apply SFdiv_between; try lia.
    + apply (me_le_scale E); try (unfold E; lia). unfold sc.
      replace (g' + -50 - E) with (g' - (E + 50)) by lia.
      replace (eh - E) with ((eh - (E + 50)) + 50) by lia.
      rewrite Z.pow_add_r by (unfold E; lia). rewrite Hsix. nia.
    + apply (me_le_scale E); try (unfold E; lia). unfold sc.
      replace (g' + -50 - E) with (g' - (E + 50)) by lia.
      replace (eh - E) with ((eh - (E + 50)) + 50) by lia.
      rewrite Z.pow_add_r by (unfold E; lia). rewrite Hsix. nia.
Qed.

(** Sum and difference of two bounded floats, with bounds at the same
    exponent [g]: [x] of sign [sx] in [[lx, hx]], [y] of sign [sy] in
    [[ly, hy]]. *)
Lemma sc_sub E a b e : sc E (a - b) e = sc E a e - sc E b e.
Proof. unfold sc. lia. Qed.

Lemma SFsub_pos_pos g lx hx ly hy x y :
  fbetween false lx hx g x -> fbetween false ly hy g y ->
  0 <= lx <= hx -> 0 <= ly <= hy -> hy <= lx -> 0 < hx - ly < 2 ^ 53 ->
  -1074 <= g <= 0 ->
  fbetween false (lx - hy) (hx - ly) g (SFsub prec emax x y).
Proof.
  intros Hx Hy Hlx Hly Hord Hhi Hg.
  set (E := Z.min g (Z.min (fexpo x) (fexpo y))).
  destruct (fbetween_sval _ _ _ _ _ E Hx Hlx ltac:(unfold E; lia) ltac:(unfold E; lia))
    as [Hvx Hsx].
  destruct (fbetween_sval _ _ _ _ _ E Hy Hly ltac:(unfold E; lia) ltac:(unfold E; lia))
    as [Hvy Hsy].
  assert (Hp : 0 < 2 ^ (g - E)) by (apply Z.pow_pos_nonneg; unfold E; lia).
  assert (Hmono : sc E hy g <= sc E lx g) by (unfold sc; nia).
  assert (Hx0 : 0 <= sval E x).
  { destruct (Z.eq_dec (sval E x) 0) as [->|Hne]; [lia|].
    specialize (Hsx Hne). symmetry in Hsx. apply Z.ltb_ge in Hsx. lia. }
  assert (Hy0 : 0 <= sval E y).
  { destruct (Z.eq_dec (sval E y) 0) as [->|Hne]; [lia|].
    specialize (Hsy Hne). symmetry in Hsy. apply Z.ltb_ge in Hsy. lia. }
  apply (SFadd_sub_between true x y false (lx - hy) (hx - ly) g);
    eauto using fbetween_real; try lia; fold E; rewrite ?sc_sub.
  - intros _. symmetry. apply Z.ltb_ge. lia.
  - lia.
Qed.

Lemma SFsub_pos_neg g lx hx ly hy x y :
  fbetween false lx hx g x -> fbetween false ly hy g y ->
  0 <= lx <= hx -> 0 <= ly <= hy -> hx < ly -> hy - lx < 2 ^ 53 ->
  -1074 <= g <= 0 ->
  fbetween true (ly - hx) (hy - lx) g (SFsub prec emax x y).
Proof.
  intros Hx Hy Hlx Hly Hord Hhi Hg.
  set (E := Z.min g (Z.min (fexpo x) (fexpo y))).
  destruct (fbetween_sval _ _ _ _ _ E Hx Hlx ltac:(unfold E; lia) ltac:(unfold E; lia))
    as [Hvx Hsx].
  destruct (fbetween_sval _ _ _ _ _ E Hy Hly ltac:(unfold E; lia) ltac:(unfold E; lia))
    as [Hvy Hsy].
  assert (Hp : 0 < 2 ^ (g - E)) by (apply Z.pow_pos_nonneg; unfold E; lia).
  assert (Hmono : sc E hx g < sc E ly g) by (unfold sc; nia).
  assert (Hx0 : 0 <= sval E x).
  { destruct (Z.eq_dec (sval E x) 0) as [->|Hne]; [lia|].
    specialize (Hsx Hne). symmetry in Hsx. apply Z.ltb_ge in Hsx. lia. }
  assert (Hy0 : 0 <= sval E y).
  { destruct (Z.eq_dec (sval E y) 0) as [->|Hne]; [lia|].
    specialize (Hsy Hne). symmetry in Hsy. apply Z.ltb_ge in Hsy. lia. }
  apply (SFadd_sub_between true x y true (ly - hx) (hy - lx) g);
    eauto using fbetween_real; try lia; fold E; rewrite ?sc_sub.
  - intros _. symmetry. apply Z.ltb_lt. lia.
  - lia.
Qed.

Lemma SFadd_pos_pos g lx hx ly hy x y :
  fbetween false lx hx g x -> fbetween false ly hy g y ->
  0 <= lx <= hx -> 0 <= ly <= hy -> 0 < hx + hy < 2 ^ 53 ->
  -1074 <= g <= 0 ->
  fbetween false (lx + ly) (hx + hy) g (SFadd prec emax x y).
Proof.
  intros Hx Hy Hlx Hly Hhi Hg.
  set (E := Z.min g (Z.min (fexpo x) (fexpo y))).
  destruct (fbetween_sval _ _ _ _ _ E Hx Hlx ltac:(unfold E; lia) ltac:(unfold E; lia))
    as [Hvx Hsx].
  destruct (fbetween_sval _ _ _ _ _ E Hy Hly ltac:(unfold E; lia) ltac:(unfold E; lia))
    as [Hvy Hsy].
  assert (Hx0 : 0 <= sval E x).
  { destruct (Z.eq_dec (sval E x) 0) as [->|Hne]; [lia|].
    specialize (Hsx Hne). symmetry in Hsx. apply Z.ltb_ge in Hsx. lia. }
  assert (Hy0 : 0 <= sval E y).
  { destruct (Z.eq_dec (sval E y) 0) as [->|Hne]; [lia|].
    specialize (Hsy Hne). symmetry in Hsy. apply Z.ltb_ge in Hsy. lia. }
  apply (SFadd_sub_between false x y false (lx + ly) (hx + hy) g);
    eauto using fbetween_real; try lia; fold E; rewrite ?sc_add.
  - intros _. symmetry. apply Z.ltb_ge. lia.
  - lia.
Qed.

Lemma SFadd_neg_pos g lx hx ly hy x y :
  fbetween true lx hx g x -> fbetween false ly hy g y ->
  0 <= lx <= hx -> 0 <= ly <= hy -> hx <= ly -> 0 < hy - lx < 2 ^ 53 ->
  -1074 <= g <= 0 ->
  fbetween false (ly - hx) (hy - lx) g (SFadd prec emax x y).
Proof.
  intros Hx Hy Hlx Hly Hord Hhi Hg.
  set (E := Z.min g (Z.min (fexpo x) (fexpo y))).
  destruct (fbetween_sval _ _ _ _ _ E Hx Hlx ltac:(unfold E; lia) ltac:(unfold E; lia))
    as [Hvx Hsx].
  destruct (fbetween_sval _ _ _ _ _ E Hy Hly ltac:(unfold E; lia) ltac:(unfold E; lia))
    as [Hvy Hsy].
  assert (Hp : 0 < 2 ^ (g - E)) by (apply Z.pow_pos_nonneg; unfold E; lia).
  assert (Hmono : sc E hx g <= sc E ly g) by (unfold sc; nia).
  assert (Hx0 : sval E x <= 0).
  { destruct (Z.eq_dec (sval E x) 0) as [->|Hne]; [lia|].
    specialize (Hsx Hne). symmetry in Hsx. apply Z.ltb_lt in Hsx. lia. }
  assert (Hy0 : 0 <= sval E y).
  { destruct (Z.eq_dec (sval E y) 0) as [->|Hne]; [lia|].
    specialize (Hsy Hne). symmetry in Hsy. apply Z.ltb_ge in Hsy. lia. }
  apply (SFadd_sub_between false x y false (ly - hx) (hy - lx) g);
    eauto using fbetween_real; try lia; fold E; rewrite ?sc_sub.
  - intros _. symmetry. apply Z.ltb_ge. lia.
  - lia.
Qed.

Lemma me_le_mono_l m1 m1' e1 m2 e2 :
  m1' <= m1 -> me_le m1 e1 m2 e2 -> me_le m1' e1 m2 e2.
Proof.
  intros H Hm. unfold me_le, sc in *.
  assert (0 <= 2 ^ (e1 - Z.min e1 e2)) by (apply Z.pow_nonneg; lia). nia.
Qed.

Lemma me_le_mono_r m1 e1 m2 m2' e2 :
  m2 <= m2' -> me_le m1 e1 m2 e2 -> me_le m1 e1 m2' e2.
Proof.
  intros H Hm. unfold me_le, sc in *.
  assert (0 <= 2 ^ (e2 - Z.min e1 e2)) by (apply Z.pow_nonneg; lia). nia.
Qed.

Lemma fbetween_weaken s lo hi lo' hi' g x :
  fbetween s lo hi g x -> lo' <= lo -> hi <= hi' -> fbetween s lo' hi' g x.
Proof.
  intros Hx Hl Hh. destruct x as [s'|s'| |s' m e]; cbn [fbetween] in *; try lia; auto.
  destruct Hx as (-> & H1 & H2). split; [reflexivity|]. split.
  - eapply me_le_mono_l; eassumption.
  - eapply me_le_mono_r; eassumption.
Qed.

(** The same bounds, written with a smaller exponent. *)
Lemma fbetween_rescale s lo hi g k x :
  0 <= k -> fbetween s lo hi g x ->
  fbetween s (lo * 2 ^ k) (hi * 2 ^ k) (g - k) x.
Proof.
  intros Hk Hx. destruct x as [s'|s'| |s' m e]; cbn [fbetween] in *; auto.
  - assert (0 < 2 ^ k) by (apply Z.pow_pos_nonneg; lia). nia.
  - destruct Hx as (-> & H1 & H2). split; [reflexivity|].
    set (E := Z.min (g - k) e).
    apply (me_le_scale E) in H1, H2; try (unfold E; lia).
    split; apply (me_le_scale E); try (unfold E; lia).
    + rewrite sc_mul by (unfold E; lia).
      replace (g - k + k) with g by lia. assumption.
    + rewrite sc_mul by (unfold E; lia).
      replace (g - k + k) with g by lia. assumption.
Qed.

(** ** The remainder modulo 1.0 of a float of magnitude below 1 *)

Lemma fmod_small s m e hi g :
  0 < hi < 2 ^ (- g) -> -1074 <= g <= 0 ->
  me_le (Zpos m) e hi g ->
  fmod (S754_finite s m e) one
  = binary_normalize prec emax
      (cond_Zopp s (Zpos m * 2 ^ (e - Z.min e (-52)))) (Z.min e (-52)) s.
Proof.
  intros Hhi Hg Hu. unfold fmod, one.
  set (e0 := Z.min e (-52)).
  replace (4503599627370496 * 2 ^ (-52 - e0)) with (2 ^ (- e0)).
  2:{ change 4503599627370496 with (2 ^ 52).
      rewrite <- Z.pow_add_r by lia. f_equal. lia. }
  rewrite Z.mod_small; [reflexivity|].
  split; [apply Z.mul_nonneg_nonneg; [lia|apply Z.pow_nonneg; lia]|].
  set (E := Z.min e0 g).
  apply (me_le_scale E) in Hu; try (unfold E; lia).
  assert (Hp1 : 0 < 2 ^ (g - E)) by (apply Z.pow_pos_nonneg; unfold E; lia).
  assert (Hp2 : 0 < 2 ^ (e0 - E)) by (apply Z.pow_pos_nonneg; unfold E; lia).
  assert (Hlt : sc E (Zpos m) e < 2 ^ (- E)).
  { apply Z.le_lt_trans with (sc E hi g); [assumption|]. unfold sc.
    replace (- E) with (- g + (g - E)) by lia.
    rewrite Z.pow_add_r by (unfold E; lia). nia. }
  unfold sc in Hlt.
  replace (e - E) with ((e - e0) + (e0 - E)) in Hlt by lia.
  replace (- E) with (- e0 + (e0 - E)) in Hlt by lia.
  rewrite !Z.pow_add_r, Z.mul_assoc in Hlt by (unfold E, e0; lia).
  nia.
Qed.

Lemma fmod_small_between s m e lo hi g :
  0 <= lo -> 0 < hi < 2 ^ (- g) -> hi < 2 ^ 53 -> -1074 <= g <= 0 ->
  me_le lo g (Zpos m) e -> me_le (Zpos m) e hi g ->
  fbetween s lo hi g (fmod (S754_finite s m e) one).
Proof.
  intros Hlo Hhi Hhi' Hg Hl Hu.
  rewrite (fmod_small s m e hi g) by assumption.
  set (e0 := Z.min e (-52)).
  assert (Hz : Zpos m * 2 ^ (e - e0) = Zpos (m * Z.to_pos (2 ^ (e - e0)))).
  { rewrite Pos2Z.inj_mul, Z2Pos.id; [reflexivity|].
    apply Z.pow_pos_nonneg; unfold e0; lia. }
  rewrite Hz.
  set (p := (m * Z.to_pos (2 ^ (e - e0)))%positive) in *.
  assert (Hsc : forall E, E <= e0 -> sc E (Zpos p) e0 = sc E (Zpos m) e).
  { intros E HE. rewrite <- Hz, sc_mul by (unfold e0 in *; lia).
    f_equal. lia. }
  assert (Hb : fbetween s lo hi g (binary_round prec emax s p e0)).
  { apply binary_round_between; try lia.
    - apply (me_le_scale (Z.min g e0)); try lia.
      apply (me_le_scale (Z.min g e0)) in Hl; try (unfold e0; lia).
      rewrite Hsc by lia. assumption.
    - apply (me_le_scale (Z.min g e0)); try lia.
      apply (me_le_scale (Z.min g e0)) in Hu; try (unfold e0; lia).
      rewrite Hsc by lia. assumption. }
  destruct s; exact Hb.
Qed.

Lemma float_mod_pos h hi g :
  fbetween false 0 hi g h ->
  0 < hi < 2 ^ (- g) -> hi < 2 ^ 53 -> -1074 <= g <= 0 ->
  exists u, float_mod h one = inr u /\ fbetween false 0 hi g u.
Proof.
  intros Hh Hhi Hhi' Hg. unfold float_mod. cbn [is_zero one].
  destruct h as [sh|sh| |sh mh eh]; cbn [fbetween] in Hh; try contradiction.
  - cbn. eexists. split; [reflexivity|]. cbn. lia.
  - destruct Hh as (-> & Hl & Hu).
    pose proof (fmod_small_between false mh eh 0 hi g ltac:(lia) Hhi Hhi' Hg Hl Hu) as Hm.
    fold one.
    destruct (fmod (S754_finite false mh eh) one) as [s|s| |s m e];
      cbn [fbetween] in Hm; try contradiction.
    + eexists. split; [reflexivity|]. cbn. lia.
    + destruct Hm as (-> & Hm). cbn [sign_bit one xorb].
      eexists. split; [reflexivity|]. cbn [fbetween]. auto.
Qed.

Lemma float_mod_neg h lo hi g :
  fbetween true lo hi g h ->
  0 < lo <= hi -> hi < 2 ^ (- g) -> -53 <= g <= 0 ->
  exists u, float_mod h one = inr u /\
            fbetween false (2 ^ (- g) - hi) (2 ^ (- g) - lo) g u.
Proof.
  intros Hh Hlo Hhi Hg. unfold float_mod. cbn [is_zero one].
  assert (Hpg : 2 ^ (- g) <= 2 ^ 53) by (apply Z.pow_le_mono_r; lia).
  destruct h as [sh|sh| |sh mh eh]; cbn [fbetween] in Hh; try lia.
  destruct Hh as (-> & Hl & Hu).
  pose proof (fmod_small_between true mh eh lo hi g ltac:(lia) ltac:(lia)
                ltac:(lia) ltac:(lia) Hl Hu) as Hm.
  fold one.
  destruct (fmod (S754_finite true mh eh) one) as [s|s| |s m e] eqn:Ef;
    cbn [fbetween] in Hm; try lia.
  destruct Hm as (-> & Hm). cbn [sign_bit one xorb].
  eexists. split; [reflexivity|].
  assert (Hone : fbetween false (2 ^ (- g)) (2 ^ (- g)) g one).
  { unfold one. cbn [fbetween]. split; [reflexivity|].
    assert (He : 4503599627370496 = 2 ^ 52) by reflexivity.
    split; apply (me_le_scale (-53)); try lia; unfold sc; rewrite He;
      rewrite <- !Z.pow_add_r by lia;
      replace (- g + (g - -53)) with (52 + (-52 - -53)) by lia;
      apply Z.le_refl. }
  assert (Hmm : fbetween true lo hi g (S754_finite true m e))
    by (cbn [fbetween]; tauto).
  apply (SFadd_neg_pos g lo hi (2 ^ (- g)) (2 ^ (- g)) _ _ Hmm Hone); lia.
Qed.

(** ** From the hue to the colour byte *)

Lemma floor_between hi g p :
  fbetween false 0 hi g p -> 0 <= hi -> -1074 <= g <= 0 ->
  exists z, floor (PyFloat p) = inr (PyInt z) /\ 0 <= z <= hi / 2 ^ (- g).
Proof.
  intros Hp Hhi Hg. unfold floor, to_integral. cbn [ext_of].
  assert (Hpg : 0 < 2 ^ (- g)) by (apply Z.pow_pos_nonneg; lia).
  destruct p as [s|s| |s m e]; cbn [fbetween] in Hp; try contradiction.
  - cbn [ext_of_float]. eexists. split; [reflexivity|].
    unfold floor_fin. cbn. split; [lia|]. apply Z.div_pos; lia.
  - destruct Hp as (-> & _ & Hu). cbn [ext_of_float cond_Zopp].
    eexists. split; [reflexivity|].
    pose proof (floor_fin_spec (Zpos m) e) as [Hf _].
    set (z := floor_fin (Zpos m) e) in *.
    assert (Hz0 : 0 <= z).
    { unfold z, floor_fin. destruct (Z.leb_spec 0 e).
      - apply Z.mul_nonneg_nonneg; [lia|apply Z.pow_nonneg; lia].
      - apply Z.div_pos; [lia|]. apply Z.pow_pos_nonneg; lia. }
    split; [assumption|].
    apply Z.div_le_lower_bound; [assumption|].
    set (E := Z.min e g).
    apply (proj1 (me_le_scale E (Zpos m) e hi g ltac:(unfold E; lia)
                              ltac:(unfold E; lia))) in Hu.
    assert (HzE : sc E z 0 <= sc E (Zpos m) e).
    { unfold sc.
      replace (0 - E) with ((0 - Z.min e 0) + (Z.min e 0 - E)) by lia.
      replace (e - E) with ((e - Z.min e 0) + (Z.min e 0 - E)) by lia.
      rewrite !Z.pow_add_r, !Z.mul_assoc by (unfold E; lia).
      apply Z.mul_le_mono_nonneg_r; [apply Z.pow_nonneg; lia|assumption]. }
    unfold sc in HzE, Hu.
    replace (0 - E) with (- g + (g - E)) in HzE by lia.
    rewrite Z.pow_add_r in HzE by (unfold E; lia).
    assert (HP : 0 < 2 ^ (g - E)) by (apply Z.pow_pos_nonneg; unfold E; lia).
    rewrite Z.mul_assoc in HzE.
    apply (Z.mul_le_mono_pos_r _ _ (2 ^ (g - E)) HP).
    rewrite (Z.mul_comm (2 ^ (- g)) z). lia.
Qed.

(** The byte of a hue that is at most [hi * 2^g]. *)
Lemma hue_byte u hi g :
  fbetween false 0 hi g u -> 0 < hi -> 255 * hi < 2 ^ 53 -> -1074 <= g <= 0 ->
  exists z,
    (x <- mul (PyFloat u) (PyInt MAX_COLOR) ;; floor x) = inr (PyInt z) /\
    0 <= z <= (255 * hi) / 2 ^ (- g).
Proof.
  intros Hu Hhi Hhi' Hg. unfold mul, arith. cbn [to_float].
  change MAX_COLOR with 255. rewrite float_of_int_255.
  cbn [bind ret Monad_either].
  apply floor_between; try lia.
  destruct u as [s|s| |s m e]; cbn [fbetween] in Hu; try contradiction.
  - cbn. lia.
  - destruct Hu as (-> & _ & Hu).
    change false with (xorb false false) at 1.
    set (E := Z.min g e - 45).
    apply (me_le_scale (E + 45)) in Hu; try (unfold E; lia).
    assert (H255 : 8972014882652160 = 255 * 2 ^ 45) by reflexivity.
    unfold sc in Hu.
    apply SFmul_between; try lia.
    + unfold me_le, sc. rewrite Z.mul_0_l.
      apply Z.mul_nonneg_nonneg; [lia|apply Z.pow_nonneg; lia].
    + apply (me_le_scale E); try (unfold E; lia). unfold sc.
      replace (e + -45 - E) with (e - (E + 45)) by lia.
      replace (g - E) with ((g - (E + 45)) + 45) by lia.
      rewrite Z.pow_add_r by (unfold E; lia). rewrite H255. nia.
Qed.

(** ** The hue of a triple of integers in [0, 255] *)

Lemma gtb_int a b : gtb (PyInt a) (PyInt b) = (a >? b).
Proof. unfold gtb. rewrite compare_int. reflexivity. Qed.

Lemma ltb_int a b : ltb (PyInt a) (PyInt b) = (a <? b).
Proof. unfold ltb. rewrite compare_int. reflexivity. Qed.

Lemma eqb_int a b : eqb (PyInt a) (PyInt b) = (a =? b).
Proof.
  unfold eqb. rewrite compare_int.
  destruct (Z.compare_spec a b), (Z.eqb_spec a b); try reflexivity; lia.
Qed.

Lemma max3_int r g b :
  max3 (PyInt r) (PyInt g) (PyInt b) = PyInt (Z.max (Z.max r g) b).
Proof.
  unfold max3. rewrite gtb_int.
  destruct (Z.gtb_spec g r); rewrite gtb_int;
    match goal with |- context [?x >? ?y] => destruct (Z.gtb_spec x y) end;
    f_equal; lia.
Qed.

Lemma min3_int r g b :
  min3 (PyInt r) (PyInt g) (PyInt b) = PyInt (Z.min (Z.min r g) b).
Proof.
  unfold min3. rewrite ltb_int.
  destruct (Z.ltb_spec g r); rewrite ltb_int;
    match goal with |- context [?x <? ?y] => destruct (Z.ltb_spec x y) end;
    f_equal; lia.
Qed.

(** The quotient [k / n] of two integers with [0 <= k <= n <= 255]: between
    0 and 1, equal to 1 for [k = n], at most 255/256 below. *)
Lemma ratio_between k n :
  0 <= k <= n -> 0 < n <= 255 ->
  exists q,
    int_truediv k n = inr q /\
    fbetween false 0 256 (-8) q /\
    (k = n -> fbetween false 256 256 (-8) q) /\
    (k < n -> fbetween false 0 255 (-8) q).
Proof.
  intros Hk Hn.
  assert (Hsc0 : forall a, sc (-8) a 0 = a * 256).
  { intros a. unfold sc. reflexivity. }
  destruct (int_truediv_between k n 0 256 (-8)) as (q & Hq & Hb); try lia.
  { apply (me_le_scale (-8)); try lia. rewrite sc_same, Hsc0. lia. }
  { apply (me_le_scale (-8)); try lia. rewrite sc_same, Hsc0. nia. }
  exists q. split; [assumption|]. split; [assumption|]. split.
  - intros ->.
    destruct (int_truediv_between n n 256 256 (-8)) as (q' & Hq' & Hb'); try lia.
    { apply (me_le_scale (-8)); try lia. rewrite sc_same, Hsc0. lia. }
    { apply (me_le_scale (-8)); try lia. rewrite sc_same, Hsc0. lia. }
    rewrite Hq in Hq'. inv Hq'. assumption.
  - intros Hlt.
    destruct (int_truediv_between k n 0 255 (-8)) as (q' & Hq' & Hb'); try lia.
    { apply (me_le_scale (-8)); try lia. rewrite sc_same, Hsc0. lia. }
    { apply (me_le_scale (-8)); try lia. rewrite sc_same, Hsc0. nia. }
    rewrite Hq in Hq'. inv Hq'. assumption.
Qed.

Lemma two_between : fbetween false 512 512 (-8) (lit 2 0).
Proof.
  cbn. split; [reflexivity|]. split; vm_compute; discriminate.
Qed.

Lemma four_between : fbetween false 1024 1024 (-8) (lit 4 0).
Proof.
  cbn. split; [reflexivity|]. split; vm_compute; discriminate.
Qed.

(** From the numerator [h] of the hue to the hue: a non-negative [h] of at
    most 5, or a negative [h] of magnitude between 1/256 and 1. *)
Lemma hue_of_h h :
  fbetween false 0 1280 (-8) h \/ fbetween true 1 256 (-8) h ->
  exists u,
    (h6 <- truediv (PyFloat h) (PyFloat (lit 6 0)) ;;
     mod_ h6 (PyFloat (lit 1 0))) = inr (PyFloat u) /\
    fbetween false 0 2047 (-11) u.
Proof.
  intros Hh. unfold truediv. cbn [to_float bind ret Monad_either].
  change (lit 6 0) with six. change (lit 1 0) with one.
  assert (B1 : me_le (6 * 0) (-3) 0 (-8)) by (vm_compute; discriminate).
  assert (B2 : me_le 1280 (-8) (6 * 7) (-3)) by (vm_compute; discriminate).
  assert (B3 : me_le (6 * 1) (-11) 1 (-8)) by (vm_compute; discriminate).
  assert (B4 : me_le 256 (-8) (6 * 512) (-11)) by (vm_compute; discriminate).
  assert (P53 : 2 ^ 53 = 9007199254740992) by reflexivity.
  destruct Hh as [Hh|Hh].
  - destruct (div6_between false 0 1280 (-8) 0 7 (-3) h Hh
                ltac:(lia) ltac:(lia) ltac:(lia) B1 B2) as (h6 & E6 & H6).
    rewrite E6. cbn [bind ret Monad_either mod_ to_float].
    destruct (float_mod_pos h6 7 (-3) H6 ltac:(change (2 ^ (- -3)) with 8; lia)
                ltac:(lia) ltac:(lia)) as (u & Eu & Hu).
    rewrite Eu. cbn [bind ret Monad_either].
    exists u. split; [reflexivity|].
    apply (fbetween_rescale _ _ _ _ 8) in Hu; [|lia].
    change (0 * 2 ^ 8) with 0 in Hu. change (7 * 2 ^ 8) with 1792 in Hu.
    change (-3 - 8) with (-11) in Hu.
    eapply fbetween_weaken; [exact Hu| |]; lia.
  - destruct (div6_between true 1 256 (-8) 1 512 (-11) h Hh
                ltac:(lia) ltac:(lia) ltac:(lia) B3 B4) as (h6 & E6 & H6).
    rewrite E6. cbn [bind ret Monad_either mod_ to_float].
    destruct (float_mod_neg h6 1 512 (-11) H6 ltac:(lia)
                ltac:(change (2 ^ (- -11)) with 2048; lia) ltac:(lia))
      as (u & Eu & Hu).
    rewrite Eu. cbn [bind ret Monad_either].
    exists u. split; [reflexivity|].
    change (2 ^ (- -11)) with 2048 in Hu.
    eapply fbetween_weaken; [exact Hu| |]; lia.
Qed.

Lemma rgb_to_hsv_int r g b :
  0 <= r <= 255 -> 0 <= g <= 255 -> 0 <= b <= 255 ->
  exists u s v,
    colorsys.rgb_to_hsv (PyInt r) (PyInt g) (PyInt b) = inr (PyFloat u, s, v) /\
    fbetween false 0 2047 (-11) u.
Proof.
  intros Hr Hg Hb. unfold colorsys.rgb_to_hsv.
  rewrite max3_int, min3_int.
  set (Mx := Z.max (Z.max r g) b). set (mn := Z.min (Z.min r g) b).
  change (sub (PyInt Mx) (PyInt mn)) with (@inr exn _ (PyInt (Mx - mn))).
  cbn [bind Monad_either]. rewrite eqb_int.
  destruct (Z.eqb_spec mn Mx) as [Heq|Hne].
  { exists (lit 0 0). do 2 eexists. split; [reflexivity|]. cbn. lia. }
  set (n := Mx - mn).
  assert (Hn : 0 < n <= 255) by (unfold n, Mx, mn; lia).
  unfold truediv at 1.
  destruct (ratio_between n Mx) as (qs & Es & _); try (unfold n, Mx, mn; lia).
  rewrite Es. cbn [bind ret Monad_either].
  change (sub (PyInt Mx) (PyInt r)) with (@inr exn _ (PyInt (Mx - r))).
  change (sub (PyInt Mx) (PyInt g)) with (@inr exn _ (PyInt (Mx - g))).
  change (sub (PyInt Mx) (PyInt b)) with (@inr exn _ (PyInt (Mx - b))).
  cbn [bind Monad_either].
  destruct (ratio_between (Mx - r) n) as (rc & Er & Hrc & Hrc1 & Hrc2);
    try (unfold n, Mx, mn; lia).
  destruct (ratio_between (Mx - g) n) as (gc & Eg & Hgc & Hgc1 & Hgc2);
    try (unfold n, Mx, mn; lia).
  destruct (ratio_between (Mx - b) n) as (bc & Eb & Hbc & Hbc1 & Hbc2);
    try (unfold n, Mx, mn; lia).
  unfold truediv at 1. rewrite Er. cbn [bind ret Monad_either].
  unfold truediv at 1. rewrite Eg. cbn [bind ret Monad_either].
  unfold truediv at 1. rewrite Eb. cbn [bind ret Monad_either].
  rewrite !eqb_int.
  assert (Hh : exists h,
    (if r =? Mx then sub (PyFloat bc) (PyFloat gc)
     else if g =? Mx
          then t <- add (PyFloat (lit 2 0)) (PyFloat rc) ;; sub t (PyFloat bc)
          else t <- add (PyFloat (lit 4 0)) (PyFloat gc) ;; sub t (PyFloat rc))
    = inr (PyFloat h) /\
    (fbetween false 0 1280 (-8) h \/ fbetween true 1 256 (-8) h)).
  { destruct (Z.eqb_spec r Mx) as [HrM|HrM].
    - eexists. split; [reflexivity|].
      destruct (Z.eq_dec (Mx - b) n) as [Hbn|Hbn].
      + left. specialize (Hbc1 Hbn).
        pose proof (SFsub_pos_pos (-8) 256 256 0 256 bc gc Hbc1 Hgc) as H.
        eapply fbetween_weaken; [apply H; lia| |]; lia.
      + right.
        assert (Hgn : Mx - g = n) by (unfold n, Mx, mn in *; lia).
        assert (Hblt : Mx - b < n) by (unfold n, Mx, mn in *; lia).
        specialize (Hgc1 Hgn). specialize (Hbc2 Hblt).
        pose proof (SFsub_pos_neg (-8) 0 255 256 256 bc gc Hbc2 Hgc1) as H.
        apply H; lia.
    - destruct (Z.eqb_spec g Mx) as [HgM|HgM].
      + eexists. split; [reflexivity|]. left.
        pose proof (SFadd_pos_pos (-8) 512 512 0 256 _ _ two_between Hrc) as Ht.
        specialize (Ht ltac:(lia) ltac:(lia) ltac:(lia) ltac:(lia)).
        pose proof (SFsub_pos_pos (-8) _ _ _ _ _ _ Ht Hbc) as H.
        eapply fbetween_weaken; [apply H; lia| |]; lia.
      + eexists. split; [reflexivity|]. left.
        pose proof (SFadd_pos_pos (-8) 1024 1024 0 256 _ _ four_between Hgc) as Ht.
        specialize (Ht ltac:(lia) ltac:(lia) ltac:(lia) ltac:(lia)).
        pose proof (SFsub_pos_pos (-8) _ _ _ _ _ _ Ht Hrc) as H.
        eapply fbetween_weaken; [apply H; lia| |]; lia. }
  destruct Hh as (h & Eh & Hh).
  cbn [bind ret Monad_either] in Eh |- *. rewrite Eh.
  cbn [bind ret Monad_either].
  destruct (hue_of_h h Hh) as (u & Eu & Hu).
  cbn [bind ret Monad_either] in Eu.
  destruct (truediv (PyFloat h) (PyFloat (lit 6 0))) as [?|h6];
    [discriminate Eu|].
  destruct (mod_ h6 (PyFloat (lit 1 0))) as [?|w]; [discriminate Eu|].
  inv Eu. do 3 eexists. split; [reflexivity|assumption].
Qed.

(** For integer components in [0, 255] the colour byte is returned and lies
    between 0 and 254. *)
Lemma convert_color_int r g b :
  0 <= r <= 255 -> 0 <= g <= 255 -> 0 <= b <= 255 ->
  exists z,
    convert_color (PyInt r, PyInt g, PyInt b) = inr (PyInt z) /\ 0 <= z <= 254.
Proof.
  intros Hr Hg Hb.
  destruct (rgb_to_hsv_int r g b Hr Hg Hb) as (u & s & v & E & Hu).
  unfold convert_color. rewrite E. cbn [bind Monad_either fst].
  destruct (hue_byte u 2047 (-11) Hu) as (z & Ez & Hz); try lia.
  exists z. split; [assumption|].
  change ((255 * 2047) / 2 ^ (- -11)) with 254 in Hz. assumption.
Qed.

(** ** The claims *)

(** Literals: [0.01] and [0.001] are the doubles nearest to 1/100 and
    1/1000, as the quotient of two integers is correctly rounded. *)
Lemma literals_nearest :
  int_truediv 1 100 = inr f_0_01 /\ int_truediv 1 1000 = inr f_0_001 /\
  int_truediv 1 2 = inr f_half /\ lit 1 0 = one /\ lit 1 (-53) = f_2m53.
Proof. repeat split; reflexivity. Qed.

(** C1: every frame that a method call returns is the 22-byte layout of the
    specification, with the session bytes at 5 and 6, the sequence byte at 8,
    the remote style at 13, cmd1 at 14, cmd2 at 15 to 18 and the zone at 19,
    and the command carries the zone; a frame is returned whenever the
    second command byte is an integer.  But not every defined operation
    returns a frame: the White temperature operation called with 0.5, a
    value of its documented range 0.0-1.0, raises [TypeError]. *)
Theorem C1_frame_layout :
  (forall self m cmd,
      call self m = inr cmd ->
      defines (cls self) m = true /\
      exists c1 c2 checksum,
        cmd_bytes cmd =
          frame (wb1 (_bridge self)) (wb2 (_bridge self)) (sn (_bridge self))
                (_remote_style self) c1 c2 (_group_number self) checksum /\
        length (cmd_bytes cmd) = 22%nat /\
        cmd_group_number cmd = _group_number self) /\
  (forall c bridge zone m c1 c2,
      spec_opcodes c m = Some (c1, inr (PyInt c2)) ->
      exists cmd, call (new c bridge (PyInt zone)) m = inr cmd) /\
  defines CommandSetWhiteV6 (temperature (PyFloat f_half)) = true /\
  call (new CommandSetWhiteV6 bridge_example (PyInt 1))
       (temperature (PyFloat f_half)) = inl TypeError.
Proof.
  split; [|split; [exact call_builds|split; reflexivity]].
  intros self m cmd H. split.
  - apply call_inv in H. destruct H as (c1 & c2 & arg & _ & _ & Ht & _).
    rewrite defines_table, Ht. reflexivity.
  - apply call_frame_layout with (m := m). assumption.
Qed.

Lemma C1_frame_layout_witness :
  exists c1 c2 checksum,
    example_frame 0x43 =
      frame (PyInt 0x11) (PyInt 0x22) (PyInt 0x05) (PyInt 0x00) c1 c2
            (PyInt 3) checksum /\
    length (example_frame 0x43) = 22%nat.
Proof.
  destruct (proj1 C1_frame_layout
              (new CommandSetBridgeLightV6 bridge_example (PyInt 3)) on
              {| cmd_bytes := example_frame 0x43;
                 cmd_group_number := PyInt 3 |} eq_refl)
    as (_ & c1 & c2 & ck & Hb & Hl & _).
  exists c1, c2, ck. split; [exact Hb|exact Hl].
Defined.

(** C2: in every frame that a method call returns, bytes 10 to 20 are
    integers and byte 21 is their sum modulo 256.  But for the White
    temperature operation called with 0.5 on zone 1 no checksum is produced:
    the sum of the command and zone bytes is the float 65.0 and the mask
    [& 0xFF] of a float is a [TypeError]. *)
Theorem C2_frame_checksum :
  (forall self m cmd,
      call self m = inr cmd ->
      exists body ck,
        skipn 10 (cmd_bytes cmd) = map PyInt (body ++ [ck]) /\
        length body = 11%nat /\
        ck = zsum body mod 256) /\
  sum ([PyInt 0x31; PyInt PASSWORD_BYTE1; PyInt PASSWORD_BYTE2;
        PyInt (REMOTE_STYLE CommandSetWhiteV6); PyInt 0x05;
        PyFloat f_half; PyFloat f_half; PyFloat f_half; PyFloat f_half]
       ++ [PyInt 1; PyInt 0x00]) = inr (PyFloat (lit 65 0)) /\
  and_ (PyFloat (lit 65 0)) (PyInt 0xFF) = inl TypeError /\
  White.temperature (new CommandSetWhiteV6 bridge_example (PyInt 1))
                    (PyFloat f_half) = inl TypeError.
Proof.
  split; [exact call_frame_checksum|repeat split; reflexivity].
Qed.

Lemma C2_frame_checksum_witness :
  exists body ck,
    skipn 10 (example_frame 0x43) = map PyInt (body ++ [ck]) /\
    length body = 11%nat /\ ck = zsum body mod 256.
Proof.
  apply (proj1 C2_frame_checksum
           (new CommandSetBridgeLightV6 bridge_example (PyInt 3)) on
           {| cmd_bytes := example_frame 0x43;
              cmd_group_number := PyInt 3 |} eq_refl).
Defined.

(** C3: every class places its remote-style byte (BridgeLight 0x00, White
    0x08, RGBW 0x08, RGBWW 0x07) at offset 13, and every method fills the
    command bytes as the table of the specification states: the call is the
    frame template applied to the table's first byte and to the table's second
    byte, and a returned frame holds them at offsets 14 and 15 to 18. *)
Theorem C3_opcode_table c bridge zone m :
  _remote_style (new c bridge zone) = PyInt (spec_remote_style c) /\
  call (new c bridge zone) m =
    match spec_opcodes c m with
    | Some (c1, arg) =>
        x <- arg ;; _build_command (new c bridge zone) (PyInt c1) x
    | None => raise AttributeError
    end /\
  forall cmd,
    call (new c bridge zone) m = inr cmd ->
    exists c1 c2,
      spec_opcodes c m = Some (c1, inr c2) /\
      nth_error (cmd_bytes cmd) 13 = Some (PyInt (spec_remote_style c)) /\
      nth_error (cmd_bytes cmd) 14 = Some (PyInt c1) /\
      nth_error (cmd_bytes cmd) 15 = Some c2 /\
      nth_error (cmd_bytes cmd) 16 = Some c2 /\
      nth_error (cmd_bytes cmd) 17 = Some c2 /\
      nth_error (cmd_bytes cmd) 18 = Some c2.
Proof.
  split; [destruct c; reflexivity|]. split; [apply call_table|].
  intros cmd H. apply call_inv in H.
  destruct H as (c1 & c2 & arg & rs & z & Ht & -> & Hrs & _ & ->).
  cbn [cls new CommandSetV6_init _remote_style] in Ht, Hrs.
  exists c1, (PyInt c2). split; [assumption|].
  assert (rs = spec_remote_style c) as ->
      by (destruct c; cbn in Hrs; inv Hrs; reflexivity).
  repeat split; reflexivity.
Qed.

Lemma C3_opcode_table_witness :
  exists cmd c1 c2,
    call (new CommandSetRgbwV6 bridge_example (PyInt 3)) white = inr cmd /\
    spec_opcodes CommandSetRgbwV6 white = Some (c1, inr c2) /\
    nth_error (cmd_bytes cmd) 13 = Some (PyInt 0x08) /\
    nth_error (cmd_bytes cmd) 14 = Some (PyInt c1) /\
    nth_error (cmd_bytes cmd) 15 = Some c2.
Proof.
  destruct (C3_opcode_table CommandSetRgbwV6 bridge_example (PyInt 3) white)
    as (_ & _ & H).
  destruct (H _ eq_refl) as (c1 & c2 & Ht & H13 & H14 & H15 & _).
  eexists. exists c1, c2. split; [reflexivity|].
  split; [exact Ht|]. split; [exact H13|]. split; [exact H14|exact H15].
Defined.

(** C4: for a brightness between 0 and 1 (an integer or a float),
    [convert_brightness] returns the ceiling of the product of the brightness
    and 100, an integer n with n - 1 < product <= n and 0 <= n <= 100; the
    inputs 0.0, 1.0, 0.01 and 0.001 give 0, 100, 1 and 1; and
    [convert_temperature] is the same function. *)
Theorem C4_convert_brightness_ceiling :
  (forall v,
      leb (PyInt 0) v = true -> leb v (PyInt 1) = true ->
      exists p n,
        mul v (PyInt MAX_BRIGHTNESS) = inr p /\
        convert_brightness v = inr (PyInt n) /\
        ltb (PyInt (n - 1)) p = true /\ leb p (PyInt n) = true /\
        0 <= n <= 100) /\
  convert_brightness (PyFloat f_zero) = inr (PyInt 0) /\
  convert_brightness (PyFloat one) = inr (PyInt 100) /\
  convert_brightness (PyFloat f_0_01) = inr (PyInt 1) /\
  convert_brightness (PyFloat f_0_001) = inr (PyInt 1) /\
  (forall v, convert_temperature v = convert_brightness v).
Proof.
  split; [|repeat split; reflexivity].
  intros v H0 H1. destruct (convert_unit v H0 H1) as (p & n & Hp & Hn & Hr).
  exists p, n. unfold convert_brightness. change MAX_BRIGHTNESS with 100.
  split; [assumption|]. split; [assumption|].
  rewrite Hp in Hn. cbn [bind Monad_either] in Hn.
  apply ceil_spec in Hn. tauto.
Qed.

Lemma C4_convert_brightness_ceiling_witness :
  leb (PyInt 0) (PyFloat f_half) = true /\
  leb (PyFloat f_half) (PyInt 1) = true /\
  exists p n,
    mul (PyFloat f_half) (PyInt MAX_BRIGHTNESS) = inr p /\
    convert_brightness (PyFloat f_half) = inr (PyInt n) /\
    ltb (PyInt (n - 1)) p = true /\ leb p (PyInt n) = true /\
    0 <= n <= 100.
Proof.
  split; [reflexivity|]. split; [reflexivity|].
  apply (proj1 C4_convert_brightness_ceiling (PyFloat f_half)); reflexivity.
Defined.

(** C5, the claim as stated, fails: the red-dominant triple
    (1.0, 0.0, 2 ** -53) has hue 1.0 after the remainder modulo 1.0 is
    rounded, and its colour byte is 255, outside [0, 254]. *)
Lemma C5_hue_rounds_to_one_counterexample :
  ~ (exists z,
        convert_color (PyFloat one, PyFloat f_zero, PyFloat f_2m53)
        = inr (PyInt z) /\ 0 <= z <= 254).
Proof.
  intros (z & H & Hz).
  assert (E : convert_color (PyFloat one, PyFloat f_zero, PyFloat f_2m53)
              = inr (PyInt 255)) by (vm_compute; reflexivity).
  rewrite E in H. inv H. lia.
Qed.


(** C6: the White temperature operation should build a frame with
    cmd1 = 0x05 and cmd2 = t for every input t.  It does so for an integer t,
    which it passes on unconverted; for a float t, the documented kind of
    input, the call returns no frame at all. *)
Theorem C6_white_temperature_unconverted :
  (forall bridge zone t,
      call (new CommandSetWhiteV6 bridge (PyInt zone)) (temperature (PyInt t))
      = inr {| cmd_bytes :=
                 frame (wb1 bridge) (wb2 bridge) (sn bridge)
                       (PyInt 0x08) (PyInt 0x05) (PyInt t) (PyInt zone)
                       (PyInt ((0x31 + 0 + 0 + 0x08 + 0x05 + t + t + t + t
                                + zone + 0) mod 256));
               cmd_group_number := PyInt zone |}) /\
  (forall self x cmd, call self (temperature (PyFloat x)) <> inr cmd) /\
  call (new CommandSetWhiteV6 bridge_example (PyInt 1))
       (temperature (PyFloat f_half)) = inl TypeError.
Proof.
  split; [|split; [|reflexivity]].
  - intros bridge zone t.
    change (call (new CommandSetWhiteV6 bridge (PyInt zone)) (temperature (PyInt t)))
      with (_build_command (new CommandSetWhiteV6 bridge (PyInt zone))
                           (PyInt 0x05) (PyInt t)).
    apply build_command_ints; reflexivity.
  - intros self x cmd H. apply call_inv in H.
    destruct H as (c1 & c2 & arg & rs & z & Ht & Harg & _).
    destruct (cls self); cbn in Ht; inv Ht. discriminate.
Qed.

(** C7, the claim as stated, fails: the frame of the example does not end in
    the checksum 0x34. *)
Lemma C7_checksum_0x34_counterexample :
  call (new CommandSetBridgeLightV6 bridge_example (PyInt 3)) on
  <> inr {| cmd_bytes := example_frame 0x34; cmd_group_number := PyInt 3 |}.
Proof. vm_compute. discriminate. Qed.

(** C7, amended: for the BridgeLight class with zone 3, session bytes
    (0x11, 0x22) and sequence byte 0x05, [on()] produces the bytes of the
    example with checksum (0x31+0+0+0+3+3+3+3+3+3+0) & 0xFF = 0x43. *)
Theorem C7_bridge_light_on_example :
  call (new CommandSetBridgeLightV6 bridge_example (PyInt 3)) on
  = inr {| cmd_bytes := example_frame 0x43; cmd_group_number := PyInt 3 |} /\
  Z.land (0x31 + 0 + 0 + 0 + 3 + 3 + 3 + 3 + 3 + 3 + 0) 0xFF = 0x43.
Proof. split; reflexivity. Qed.

(** C8, the claim as stated, fails: the colour operation on the White class
    does not raise [UnsupportedOperation]. *)
Lemma C8_unsupported_operation_counterexample :
  call (new CommandSetWhiteV6 bridge_example (PyInt 1))
       (color (PyInt 255, PyInt 0, PyInt 0)) <> inl UnsupportedOperation.
Proof. vm_compute. discriminate. Qed.

(** C8, amended: a method that the class of a command set does not define
    cannot be called: the attribute lookup fails with [AttributeError] and no
    frame is returned. *)
Theorem C8_undefined_method_attribute_error self m :
  defines (cls self) m = false ->
  call self m = inl AttributeError /\ forall cmd, call self m <> inr cmd.
Proof.
  intros H. rewrite defines_table in H. rewrite call_table.
  destruct (spec_opcodes (cls self) m) as [[c1 arg]|]; [discriminate|].
  split; [reflexivity|]. intros cmd. discriminate.
Qed.

Lemma C8_undefined_method_attribute_error_witness :
  defines CommandSetBridgeLightV6 (temperature (PyFloat f_half)) = false /\
  call (new CommandSetBridgeLightV6 bridge_example (PyInt 1))
       (temperature (PyFloat f_half)) = inl AttributeError.
Proof.
  split; [reflexivity|].
  apply (C8_undefined_method_attribute_error
           (new CommandSetBridgeLightV6 bridge_example (PyInt 1))
           (temperature (PyFloat f_half))).
  reflexivity.
Defined.

(** C9: two command sets of the same class with the same group number and
    remote style, on bridges with the same session and sequence bytes, give
    the same outcome for the same method call: the same frame byte for byte,
    or the same error. *)
Theorem C9_build_deterministic self1 self2 m :
  cls self1 = cls self2 ->
  wb1 (_bridge self1) = wb1 (_bridge self2) ->
  wb2 (_bridge self1) = wb2 (_bridge self2) ->
  sn (_bridge self1) = sn (_bridge self2) ->
  _group_number self1 = _group_number self2 ->
  _remote_style self1 = _remote_style self2 ->
  call self1 m = call self2 m.
Proof.
  intros Hc H1 H2 H3 Hg Hr. rewrite !call_table, Hc.
  destruct (spec_opcodes (cls self2) m) as [[c1 arg]|]; [|reflexivity].
  destruct arg as [e|x]; [reflexivity|]. cbn [bind Monad_either].
  unfold _build_command. rewrite H1, H2, H3, Hg, Hr. reflexivity.
Qed.

Lemma C9_build_deterministic_witness :
  call (CommandSetV6_init CommandSetRgbwwV6 bridge_example (PyInt 2)
                          (PyInt 0x07) (Some 10) (Some 20) None)
       (brightness (PyFloat f_0_01))
  = call (new CommandSetRgbwwV6 bridge_example (PyInt 2))
         (brightness (PyFloat f_0_01)).
Proof.
  apply C9_build_deterministic; reflexivity.
Defined.

(** C10: replacing the bridge, and so the session bytes and the sequence
    byte, leaves the outcome of a method call unchanged except at offsets 5,
    6 and 8 of the frame: the same error, or two 22-byte frames that agree
    everywhere else, in particular on bytes 10 to 21 with the checksum. *)
Theorem C10_checksum_independent_of_session self bridge' m :
  same_but_session (call self m) (call (with_bridge self bridge') m).
Proof.
  rewrite !call_table. cbn [cls with_bridge].
  destruct (spec_opcodes (cls self) m) as [[c1 arg]|]; [|reflexivity].
  destruct arg as [e|x]; [reflexivity|]. cbn [bind Monad_either].
  unfold _build_command.
  cbn [_bridge _group_number _remote_style with_bridge].
  destruct (sum _) as [e|s]; [reflexivity|]. cbn [bind Monad_either].
  destruct (and_ s (PyInt 255)) as [e|ck]; [reflexivity|].
  cbn [bind ret Monad_either same_but_session cmd_bytes cmd_group_number].
  repeat split.
  intros i H5 H6 H8.
  do 22 (destruct i as [|i]; [try reflexivity; congruence|]).
  reflexivity.
Qed.

(** ** The frame template: when it returns, and what a frame determines *)

Lemma arith_error fi ff a b e : arith fi ff a b = inl e -> e = OverflowError.
Proof.
  unfold arith, to_float, float_of_int, raise.
  destruct a as [x|x], b as [y|y]; cbn; try discriminate;
    repeat match goal with
           | |- context [binary_normalize ?p ?q ?n ?z ?s] =>
               destruct (binary_normalize p q n z s); cbn
           end; congruence.
Qed.

Lemma sum_from_error xs : forall acc e,
  sum_from acc xs = inl e -> e = OverflowError.
Proof.
  induction xs as [|x xs IH]; intros acc e; cbn [sum_from].
  - discriminate.
  - destruct (add acc x) as [e'|acc'] eqn:A; cbn [bind Monad_either].
    + intros H. inv H. exact (arith_error _ _ _ _ _ A).
    + apply IH.
Qed.


(** X2: a frame determines everything it was built from: two calls of
    [_build_command] that return the same bytes had the same command bytes,
    remote style, group number and bridge bytes. *)
Theorem build_command_injective self self' c1 c2 c1' c2' f f' :
  _build_command self c1 c2 = inr f ->
  _build_command self' c1' c2' = inr f' ->
  cmd_bytes f = cmd_bytes f' ->
  c1 = c1' /\ c2 = c2' /\
  _remote_style self = _remote_style self' /\
  _group_number self = _group_number self' /\
  wb1 (_bridge self) = wb1 (_bridge self') /\
  wb2 (_bridge self) = wb2 (_bridge self') /\
  sn (_bridge self) = sn (_bridge self').
Proof.
  intros H H' Hb.
  pose proof (build_command_inv _ _ _ _ H) as (rs & a & b & z & Hrs & -> & -> & Hz).
  pose proof (build_command_inv _ _ _ _ H')
    as (rs' & a' & b' & z' & Hrs' & -> & -> & Hz').
  rewrite (build_command_ints self rs a b z Hrs Hz) in H.
  rewrite (build_command_ints self' rs' a' b' z' Hrs' Hz') in H'.
  inv H. inv H'. cbn [cmd_bytes] in Hb. unfold frame in Hb.
  rewrite Hrs, Hrs', Hz, Hz'. inv Hb. auto 10.
Qed.

Lemma build_command_injective_witness :
  exists f,
    _build_command (new CommandSetWhiteV6 bridge_example (PyInt 1))
                   (PyInt 4) (PyInt 1) = inr f /\
    _build_command (new CommandSetRgbwV6 bridge_example (PyInt 1))
                   (PyInt 4) (PyInt 1) = inr f /\
    _remote_style (new CommandSetWhiteV6 bridge_example (PyInt 1))
    = _remote_style (new CommandSetRgbwV6 bridge_example (PyInt 1)).
Proof.
  eexists. split; [reflexivity|]. split; [reflexivity|].
  eapply (build_command_injective
            (new CommandSetWhiteV6 bridge_example (PyInt 1))
            (new CommandSetRgbwV6 bridge_example (PyInt 1))
            (PyInt 4) (PyInt 1) (PyInt 4) (PyInt 1));
    reflexivity.
Defined.

Lemma mod_256_eq_iff a b : a mod 256 = b mod 256 <-> (256 | a - b).
Proof.
  split.
  - intros H. apply Z.mod_divide; [lia|].
    rewrite Zminus_mod, H, Z.sub_diag. reflexivity.
  - intros [k Hk]. replace a with (b + k * 256) by lia.
    apply Z.mod_add. lia.
Qed.

(** X3: the checksums of two frames of one command set agree exactly when
    [cmd_1 + 4 * cmd_2] agrees modulo 256: the second command byte enters
    the sum four times, so adding 64 to it leaves the checksum as it was. *)
Theorem checksum_collision self c1 c2 c1' c2' f f' :
  _build_command self (PyInt c1) (PyInt c2) = inr f ->
  _build_command self (PyInt c1') (PyInt c2') = inr f' ->
  (checksum_of f = checksum_of f' <->
   (c1 + 4 * c2) mod 256 = (c1' + 4 * c2') mod 256) /\
  (c1' = c1 -> c2' = c2 + 64 -> checksum_of f = checksum_of f').
Proof.
  intros H H'.
  pose proof (build_command_inv _ _ _ _ H) as (rs & a & b & z & Hrs & _ & _ & Hz).
  rewrite (build_command_ints self rs c1 c2 z Hrs Hz) in H.
  rewrite (build_command_ints self rs c1' c2' z Hrs Hz) in H'.
  assert (I : checksum_of f = checksum_of f' <->
              (c1 + 4 * c2) mod 256 = (c1' + 4 * c2') mod 256).
  { injection H as <-. injection H' as <-.
    unfold checksum_of. cbn [cmd_bytes frame nth_error].
    rewrite (mod_256_eq_iff (c1 + 4 * c2)).
    split.
    - intros Heq. injection Heq as Heq. apply mod_256_eq_iff in Heq.
      destruct Heq as [k Hk]. exists k. lia.
    - intros [k Hk]. do 2 f_equal. apply mod_256_eq_iff. exists k. lia. }
  split; [exact I|].
  intros -> ->. apply I. apply mod_256_eq_iff. exists (-1). lia.
Qed.

Lemma checksum_collision_witness :
  exists f f',
    _build_command (new CommandSetRgbwV6 bridge_example (PyInt 1))
                   (PyInt 3) (PyInt 0) = inr f /\
    _build_command (new CommandSetRgbwV6 bridge_example (PyInt 1))
                   (PyInt 3) (PyInt 64) = inr f' /\
    cmd_bytes f <> cmd_bytes f' /\
    checksum_of f = checksum_of f'.
Proof.
  eexists. eexists. split; [reflexivity|]. split; [reflexivity|].
  split; [discriminate|].
  apply (proj2 (checksum_collision
                  (new CommandSetRgbwV6 bridge_example (PyInt 1))
                  3 0 3 64 _ _ eq_refl eq_refl));
    reflexivity.
Defined.

(** ** The four classes side by side *)

(** X4: the White and the Rgbw class build the same frame for every method
    both of them define (on, off, night_light and brightness), and the white
    mode of Rgbw is the frame of the White temperature 0x64. *)
Theorem white_rgbw_same_frames bridge zone :
  (forall m,
      defines CommandSetWhiteV6 m = true ->
      defines CommandSetRgbwV6 m = true ->
      call (new CommandSetWhiteV6 bridge zone) m
      = call (new CommandSetRgbwV6 bridge zone) m) /\
  call (new CommandSetWhiteV6 bridge zone) (temperature (PyInt 0x64))
  = call (new CommandSetRgbwV6 bridge zone) white.
Proof.
  split; [|reflexivity].
  intros m. destruct m; cbn [defines]; intros H1 H2;
    try discriminate; reflexivity.
Qed.

Lemma white_rgbw_same_frames_witness :
  call (new CommandSetWhiteV6 bridge_example (PyInt 1)) (brightness (PyFloat f_half))
  = call (new CommandSetRgbwV6 bridge_example (PyInt 1)) (brightness (PyFloat f_half)).
Proof.
  apply (proj1 (white_rgbw_same_frames bridge_example (PyInt 1)));
    reflexivity.
Defined.

(** X5: inside one class no two methods share a frame: when the bytes at
    offsets 14 and 15 of two returned frames agree, the two calls were calls
    of the same method. *)
Theorem methods_distinguishable self self' m m' f f' :
  cls self = cls self' ->
  call self m = inr f -> call self' m' = inr f' ->
  nth_error (cmd_bytes f) 14 = nth_error (cmd_bytes f') 14 ->
  nth_error (cmd_bytes f) 15 = nth_error (cmd_bytes f') 15 ->
  same_method m m' = true.
Proof.
  intros Hc H H'.
  apply call_inv in H. apply call_inv in H'.
  destruct H as (c1 & c2 & arg & rs & z & Ho & -> & _ & _ & ->).
  destruct H' as (c1' & c2' & arg' & rs' & z' & Ho' & -> & _ & _ & ->).
  cbn [cmd_bytes frame nth_error]. intros E1 E2. inv E1. inv E2.
  rewrite <- Hc in Ho'.
  destruct (cls self), m, m'; cbn in Ho, Ho' |- *;
    try reflexivity; try discriminate;
    inv Ho; inv Ho'; discriminate.
Qed.

Lemma methods_distinguishable_witness :
  same_method (brightness (PyFloat f_half)) (brightness (PyFloat f_half)) = true.
Proof.
  refine (methods_distinguishable
            (new CommandSetRgbwwV6 bridge_example (PyInt 1))
            (new CommandSetRgbwwV6 bridge_example (PyInt 2))
            (brightness (PyFloat f_half)) (brightness (PyFloat f_half))
            _ _ eq_refl _ _ _ _);
    [vm_compute; reflexivity | vm_compute; reflexivity | reflexivity | reflexivity].
Defined.

(** ** Frames of bytes *)

Lemma opcodes_in_range c m :
  defines c m = true -> in_range m ->
  exists c1 c2,
    spec_opcodes c m = Some (c1, inr (PyInt c2)) /\
    0 <= c1 <= 255 /\ 0 <= c2 <= 255.
Proof.
  intros D R.
  assert (B : forall b, in_range (brightness b) ->
                        exists n, convert_brightness b = inr (PyInt n) /\
                                  0 <= n <= 255).
  { intros b [H0 H1]. destruct (convert_unit b H0 H1) as (p & n & _ & Hn & Hr).
    exists n. split; [exact Hn|lia]. }
  assert (C : forall t, in_range (color t) ->
                        exists n, convert_color t = inr (PyInt n) /\
                                  0 <= n <= 255).
  { intros [[r g] b] (Hr & Hg & Hb).
    destruct r as [r|]; [|contradiction].
    destruct g as [g|]; [|contradiction].
    destruct b as [b|]; [|contradiction].
    destruct (convert_color_int r g b Hr Hg Hb) as (z & Hz & Hz').
    exists z. split; [exact Hz|lia]. }
  destruct c, m; cbn [defines] in D; try discriminate; cbn [spec_opcodes];
    try (eexists; eexists; split; [reflexivity|]; lia);
    try (destruct (B _ R) as (n & -> & Hn); eexists; eexists;
         split; [reflexivity|]; lia);
    try (destruct (C _ R) as (n & -> & Hn); eexists; eexists;
         split; [reflexivity|]; lia).
  cbn [in_range] in R. destruct t as [t|]; [|contradiction].
  cbn [is_byte] in R. eexists; eexists; split; [reflexivity|]; lia.
Qed.

(** X6: with session, sequence and group bytes between 0 and 255, every
    method a class defines, called with an argument in range (a brightness
    between 0 and 1, a colour of three integers 0..255, an integer
    temperature 0..255), returns a frame of 22 integers that all lie
    between 0 and 255. *)
Theorem frame_of_bytes c bridge zone m :
  defines c m = true -> in_range m ->
  is_byte (wb1 bridge) -> is_byte (wb2 bridge) -> is_byte (sn bridge) ->
  0 <= zone <= 255 ->
  exists cmd,
    call (new c bridge (PyInt zone)) m = inr cmd /\
    length (cmd_bytes cmd) = 22%nat /\
    Forall is_byte (cmd_bytes cmd) /\
    cmd_group_number cmd = PyInt zone.
Proof.
  intros D R H1 H2 H3 Hz.
  destruct (opcodes_in_range c m D R) as (c1 & c2 & Ho & Hc1 & Hc2).
  rewrite call_table. cbn [cls new CommandSetV6_init]. rewrite Ho.
  cbn [bind Monad_either].
  erewrite build_command_ints by reflexivity.
  eexists. split; [reflexivity|]. cbn [cmd_bytes cmd_group_number].
  split; [reflexivity|]. split; [|reflexivity].
  assert (Hrs : 0 <= REMOTE_STYLE c <= 255) by (destruct c; cbn; lia).
  cbn [_bridge]. unfold frame.
  repeat (apply Forall_cons; [cbn [is_byte]; try assumption; try lia|]);
    try apply Forall_nil.
  match goal with
  | |- 0 <= ?a mod 256 <= 255 =>
      pose proof (Z.mod_pos_bound a 256 ltac:(lia)); lia
  end.
Qed.

Lemma frame_of_bytes_witness :
  exists cmd,
    call (new CommandSetRgbwwV6 bridge_example (PyInt 4))
         (color (PyInt 10, PyInt 200, PyInt 30)) = inr cmd /\
    length (cmd_bytes cmd) = 22%nat /\
    Forall is_byte (cmd_bytes cmd) /\
    cmd_group_number cmd = PyInt 4.
Proof.
  apply (frame_of_bytes CommandSetRgbwwV6 bridge_example 4
                        (color (PyInt 10, PyInt 200, PyInt 30)));
    cbn; try reflexivity; lia.
Defined.

(** ** Rounding, exactly: the bits a right shift loses *)

Lemma mod_pow2_succ m k :
  0 <= m -> 0 <= k ->
  m mod 2 ^ (k + 1) = m mod 2 ^ k + 2 ^ k * ((m / 2 ^ k) mod 2).
Proof.
  intros Hm Hk. rewrite Z.pow_add_r by lia. change (2 ^ 1) with 2.
  apply Z.rem_mul_r; [|lia].
  assert (0 < 2 ^ k) by (apply Z.pow_pos_nonneg; lia). lia.
Qed.

Lemma odd_mod2 x : Z.odd x = negb (x mod 2 =? 0).
Proof.
  rewrite Zmod_odd. destruct (Z.odd x); reflexivity.
Qed.

(** After [k + 1] shifts the round bit is bit [k] of the mantissa and the
    sticky bit tells whether anything was lost below it. *)
Lemma iter_shr_1_loc m r0 s0 k :
  0 <= m ->
  Nat.iter (S k) shr_1 {| shr_m := m; shr_r := r0; shr_s := s0 |}
  = {| shr_m := m / 2 ^ (Z.of_nat k + 1);
       shr_r := Z.odd (m / 2 ^ Z.of_nat k);
       shr_s := negb (m mod 2 ^ Z.of_nat k =? 0) || (r0 || s0) |}.
Proof.
  intros Hm. induction k as [|k IH].
  - cbn [Nat.iter nat_rect]. rewrite shr_1_nonneg by assumption.
    cbn [Z.of_nat]. change (2 ^ 0) with 1. change (2 ^ (0 + 1)) with 2.
    rewrite Z.div_1_r, Z.mod_1_r. reflexivity.
  - rewrite Nat.iter_succ, IH.
    assert (Hp : 0 < 2 ^ (Z.of_nat k + 1)) by (apply Z.pow_pos_nonneg; lia).
    rewrite shr_1_nonneg by (apply Z.div_pos; lia).
    rewrite Nat2Z.inj_succ. unfold Z.succ.
    f_equal.
    + rewrite Z.div_div by lia. f_equal.
      rewrite (Z.pow_add_r 2 (Z.of_nat k + 1) 1) by lia. reflexivity.
    + rewrite (mod_pow2_succ m (Z.of_nat k)) by lia.
      rewrite odd_mod2.
      pose proof (Z.mod_pos_bound m (2 ^ Z.of_nat k)
                    ltac:(apply Z.pow_pos_nonneg; lia)) as Hb.
      pose proof (Z.mod_pos_bound (m / 2 ^ Z.of_nat k) 2 ltac:(lia)) as Hb2.
      assert (Hpk : 0 < 2 ^ Z.of_nat k) by (apply Z.pow_pos_nonneg; lia).
      destruct (Z.eqb_spec ((m / 2 ^ Z.of_nat k) mod 2) 0) as [E0|E0];
        destruct (Z.eqb_spec (m mod 2 ^ Z.of_nat k) 0) as [E1|E1];
        cbn [negb orb];
        match goal with
        | |- _ = negb (?x =? 0) || _ =>
            destruct (Z.eqb_spec x 0) as [E2|E2]; cbn [negb orb]
        end; try reflexivity; exfalso; nia.
Qed.

Lemma shr_record_of_loc_rem m r b :
  0 <= r ->
  exists r0 s0,
    shr_record_of_loc m (loc_of_rem r b)
    = {| shr_m := m; shr_r := r0; shr_s := s0 |} /\
    (r0 || s0 = negb (r =? 0)).
Proof.
  intros Hr. unfold loc_of_rem.
  destruct (Z.eqb_spec r 0) as [->|Hne].
  - do 2 eexists. split; reflexivity.
  - destruct (2 * r ?= b); do 2 eexists; split; reflexivity.
Qed.

(** Shifting [m] right by [n] bits when [r / b] was already lost below [m]:
    the quotient and the place of everything lost. *)
Lemma shr_loc m r b e n :
  0 <= m -> 0 <= r < b ->
  let '(mrs, e') := shr (shr_record_of_loc m (loc_of_rem r b)) e n in
  e' = e + Z.max n 0 /\
  shr_m mrs = (m * b + r) / (b * 2 ^ Z.max n 0) /\
  loc_of_shr_record mrs
  = loc_of_rem ((m * b + r) mod (b * 2 ^ Z.max n 0)) (b * 2 ^ Z.max n 0).
Proof.
  intros Hm Hr.
  assert (Hdiv : (m * b + r) / b = m).
  { rewrite Z.div_add_l by lia. rewrite (Z.div_small r b) by lia. lia. }
  assert (Hmod : (m * b + r) mod b = r).
  { rewrite Z.add_comm, Z.mod_add by lia. apply Z.mod_small. lia. }
  destruct n as [|p|p]; cbn [shr Z.max Z.compare].
  - change (2 ^ 0) with 1. rewrite Z.mul_1_r, Hdiv, Hmod, Z.add_0_r.
    rewrite loc_of_shr_record_of_loc.
    destruct (shr_record_of_loc_rem m r b) as (r0 & s0 & -> & _); [lia|].
    auto.
  - destruct (shr_record_of_loc_rem m r b) as (r0 & s0 & -> & Hrs); [lia|].
    rewrite iter_pos_nat.
    destruct (Pos2Nat.is_succ p) as [k Hk]. rewrite Hk.
    rewrite iter_shr_1_loc by assumption.
    assert (HZ : Zpos p = Z.of_nat k + 1) by lia.
    rewrite HZ. cbn [shr_m].
    set (K := Z.of_nat k) in *.
    assert (HK : 0 <= K) by (unfold K; lia).
    assert (Hpk : 0 < 2 ^ K) by (apply Z.pow_pos_nonneg; lia).
    assert (Hpk1 : 2 ^ (K + 1) = 2 * 2 ^ K)
      by (rewrite Z.pow_add_r by lia; change (2 ^ 1) with 2; lia).
    split; [reflexivity|]. split.
    + rewrite <- Z.div_div by lia. rewrite Hdiv. reflexivity.
    + rewrite Z.rem_mul_r by lia. rewrite Hmod, Hdiv.
      rewrite (mod_pow2_succ m K) by lia.
      rewrite Hrs, odd_mod2.
      pose proof (Z.mod_pos_bound m (2 ^ K) Hpk) as Hb.
      pose proof (Z.mod_pos_bound (m / 2 ^ K) 2 ltac:(lia)) as Hb2.
      set (rho := m mod 2 ^ K) in *. set (beta := (m / 2 ^ K) mod 2) in *.
      unfold loc_of_rem. rewrite Hpk1.
      clearbody rho beta. set (P := 2 ^ K) in *. clearbody P.
      assert (Hbr : 0 <= b * rho <= b * P - b) by nia.
      assert (Hbeta : beta = 0 \/ beta = 1) by lia.
      destruct Hbeta as [-> | ->]; cbn [Z.eqb negb orb];
        destruct (Z.eqb_spec rho 0) as [R0|R0];
        destruct (Z.eqb_spec r 0) as [r0'|r0'];
        cbn [negb orb loc_of_shr_record];
        match goal with
        | |- _ = (if ?x =? 0 then _ else _) =>
            destruct (Z.eqb_spec x 0) as [E2|E2]
        end; try (exfalso; nia); try reflexivity;
        f_equal; symmetry;
        first [ apply Z.compare_lt_iff; nia
              | apply Z.compare_eq_iff; nia
              | apply Z.compare_gt_iff; nia ].
  - change (2 ^ 0) with 1. rewrite Z.mul_1_r, Hdiv, Hmod, Z.add_0_r.
    rewrite loc_of_shr_record_of_loc.
    destruct (shr_record_of_loc_rem m r b) as (r0 & s0 & -> & _); [lia|].
    auto.
Qed.

(** ** Rounding, exactly: the mantissa [binary_round_aux] keeps *)

Lemma loc_of_rem_scale r w k :
  0 < k -> loc_of_rem (r * k) (w * k) = loc_of_rem r w.
Proof.
  intros Hk. unfold loc_of_rem.
  destruct (Z.eqb_spec r 0) as [->|Hr].
  - reflexivity.
  - destruct (Z.eqb_spec (r * k) 0) as [E|_]; [nia|].
    f_equal.
    destruct (Z.compare_spec (2 * r) w);
      [apply Z.compare_eq_iff|apply Z.compare_lt_iff|apply Z.compare_gt_iff];
      nia.
Qed.

Lemma rne_div_scale v w k :
  0 < w -> 0 < k -> rne_div (v * k) (w * k) = rne_div v w.
Proof.
  intros Hw Hk. unfold rne_div.
  rewrite Z.div_mul_cancel_r, Z.mul_mod_distr_r, loc_of_rem_scale by lia.
  reflexivity.
Qed.

Lemma rne_div_exact x w : 0 < w -> rne_div (x * w) w = x.
Proof.
  intros Hw. unfold rne_div. rewrite Z.div_mul, Z.mod_mul by lia.
  reflexivity.
Qed.

Lemma rne_div_1 v : rne_div v 1 = v.
Proof. rewrite <- (Z.mul_1_r v) at 1. apply rne_div_exact. lia. Qed.

Lemma rne_div_bounds v w : v / w <= rne_div v w <= v / w + 1.
Proof. apply round_nearest_even_bounds. Qed.

(** Rounding to nearest is monotone. *)
Lemma rne_div_mono v1 v2 w :
  0 < w -> v1 <= v2 -> rne_div v1 w <= rne_div v2 w.
Proof.
  intros Hw Hv.
  pose proof (Z.div_le_mono v1 v2 w Hw Hv) as Hq.
  pose proof (rne_div_bounds v1 w) as B1.
  pose proof (rne_div_bounds v2 w) as B2.
  destruct (Z.eq_dec (v1 / w) (v2 / w)) as [E|NE]; [|lia].
  pose proof (Z.div_mod v1 w ltac:(lia)) as D1.
  pose proof (Z.div_mod v2 w ltac:(lia)) as D2.
  pose proof (Z.mod_pos_bound v1 w Hw) as R1.
  pose proof (Z.mod_pos_bound v2 w Hw) as R2.
  assert (Hr : v1 mod w <= v2 mod w) by (rewrite E in D1; lia).
  clear B1 B2.
  unfold rne_div, loc_of_rem. rewrite E.
  set (q := v2 / w). set (r1 := v1 mod w) in *. set (r2 := v2 mod w) in *.
  destruct (Z.eqb_spec r1 0) as [Z1|Z1]; destruct (Z.eqb_spec r2 0) as [Z2|Z2];
    cbn [round_nearest_even]; try lia.
  - destruct (2 * r2 ?= w); [destruct (Z.even q)| |]; lia.
  - destruct (Z.compare_spec (2 * r1) w) as [C1|C1|C1];
      destruct (Z.compare_spec (2 * r2) w) as [C2|C2|C2];
      try lia; destruct (Z.even q); lia.
Qed.

(** What [binary_round_aux] computes when the mantissa [M] comes with the
    remainder [r] of a division by [b]: [(M * b + r) / b], cut at the
    exponent of its format and rounded to nearest even, then renormalised
    without loss. *)
Lemma round_aux_exact s M E r b :
  0 <= M -> 0 <= r < b ->
  exists m2 e2,
    let n := Z.max (fexp prec emax (Zdigits2 M + E) - E) 0 in
    E + n <= e2 /\
    rne_div (M * b + r) (b * 2 ^ n) = m2 * 2 ^ (e2 - (E + n)) /\
    binary_round_aux prec emax s M E (loc_of_rem r b) =
    match m2 with
    | Z0 => S754_zero s
    | Zpos m => if e2 <=? emax - prec then S754_finite s m e2
                else S754_infinity s
    | Zneg _ => S754_nan
    end.
Proof.
  intros HM Hr.
  destruct (round_aux_structure s M E (loc_of_rem r b) HM)
    as (q1 & e1 & m1 & m2 & e2 & He1 & Hq1 & Hm1 & _ & Hle & Hm2 & Hres).
  pose proof (shr_loc M r b E (fexp prec emax (Zdigits2 M + E) - E) HM Hr) as HL.
  destruct (shr (shr_record_of_loc M (loc_of_rem r b)) E
                (fexp prec emax (Zdigits2 M + E) - E)) as [mrs e'].
  destruct HL as (_ & Hq & Hl). cbn [fst] in Hm1.
  exists m2, e2. cbn zeta. rewrite <- He1.
  split; [exact Hle|]. split; [|exact Hres].
  rewrite <- Hm2, Hm1, Hl. unfold rne_div. f_equal.
  rewrite Hq1, He1.
  replace (E + Z.max (fexp prec emax (Zdigits2 M + E) - E) 0 - E)
    with (Z.max (fexp prec emax (Zdigits2 M + E) - E) 0) by lia.
  set (n := Z.max (fexp prec emax (Zdigits2 M + E) - E) 0).
  rewrite <- Z.div_div by (try apply Z.pow_pos_nonneg; lia).
  rewrite Z.div_add_l, (Z.div_small r b) by lia.
  f_equal. lia.
Qed.

(** The same for a mantissa that lost nothing. *)
Lemma round_aux_exact0 s M E :
  0 <= M ->
  exists m2 e2,
    let n := Z.max (fexp prec emax (Zdigits2 M + E) - E) 0 in
    E + n <= e2 /\
    rne_div M (2 ^ n) = m2 * 2 ^ (e2 - (E + n)) /\
    binary_round_aux prec emax s M E loc_Exact =
    match m2 with
    | Z0 => S754_zero s
    | Zpos m => if e2 <=? emax - prec then S754_finite s m e2
                else S754_infinity s
    | Zneg _ => S754_nan
    end.
Proof.
  intros HM.
  destruct (round_aux_exact s M E 0 1 HM ltac:(lia)) as (m2 & e2 & H).
  exists m2, e2. cbn zeta in *.
  rewrite Z.mul_1_r, Z.add_0_r, Z.mul_1_l in H. exact H.
Qed.

(** ** Rounding is monotone *)

Lemma compare_fin a b ma ea mb eb :
  ext_of a = Fin ma ea -> ext_of b = Fin mb eb ->
  compare a b = Some (sc (Z.min ea eb) ma ea ?= sc (Z.min ea eb) mb eb).
Proof. intros Ha Hb. unfold compare. rewrite Ha, Hb. reflexivity. Qed.

Lemma leb_fin a b ma ea mb eb :
  ext_of a = Fin ma ea -> ext_of b = Fin mb eb ->
  (leb a b = true <-> me_le ma ea mb eb).
Proof.
  intros Ha Hb. unfold leb, me_le. rewrite (compare_fin a b ma ea mb eb Ha Hb).
  destruct (Z.compare_spec (sc (Z.min ea eb) ma ea) (sc (Z.min ea eb) mb eb));
    split; intros; try lia; try reflexivity; try discriminate.
Qed.

Lemma ltb_fin a b ma ea mb eb :
  ext_of a = Fin ma ea -> ext_of b = Fin mb eb ->
  (ltb a b = true <-> ~ me_le mb eb ma ea).
Proof.
  intros Ha Hb. unfold ltb, me_le. rewrite (compare_fin a b ma ea mb eb Ha Hb).
  rewrite (Z.min_comm eb ea).
  destruct (Z.compare_spec (sc (Z.min ea eb) ma ea) (sc (Z.min ea eb) mb eb));
    split; intros; try lia; try reflexivity; try discriminate.
Qed.

(** The results of [math.ceil] follow the order of its arguments. *)
Lemma ceil_mono p q n m :
  leb p q = true -> ceil p = inr (PyInt n) -> ceil q = inr (PyInt m) -> n <= m.
Proof.
  intros Hpq Hn Hm.
  pose proof (ceil_spec p n Hn) as [_ Hlt].
  pose proof (ceil_spec q m Hm) as [Hle _].
  unfold ceil, to_integral in Hn, Hm.
  destruct (ext_of p) as [| | |mp ep] eqn:Ep; try discriminate.
  destruct (ext_of q) as [| | |mq eq] eqn:Eq; try discriminate.
  apply (leb_fin p q mp ep mq eq Ep Eq) in Hpq.
  apply (leb_fin q (PyInt m) mq eq m 0 Eq eq_refl) in Hle.
  apply (ltb_fin (PyInt (n - 1)) p (n - 1) 0 mp ep eq_refl Ep) in Hlt.
  destruct (Z_le_gt_dec n m) as [|Hgt]; [assumption|exfalso].
  apply Hlt. eapply me_le_trans; [exact Hpq|].
  eapply me_le_trans; [exact Hle|].
  unfold me_le, sc. rewrite Z.min_id, Z.sub_diag. lia.
Qed.

Lemma me_le_refl_val m1 e1 m2 e2 E :
  E <= e1 -> E <= e2 -> sc E m1 e1 = sc E m2 e2 -> me_le m1 e1 m2 e2.
Proof.
  intros H1 H2 H. apply (me_le_scale E); try assumption. lia.
Qed.

Lemma me_le_pow_hi M E p :
  0 < M -> Zdigits2 M + E <= p -> me_le M E 1 p.
Proof.
  intros HM Hp. pose proof (Zdigits2_bounds M HM) as [_ Hhi].
  pose proof (Zdigits2_nonneg M) as Hd.
  unfold me_le, sc. set (E' := Z.min E p). rewrite Z.mul_1_l.
  assert (HE : 0 <= E - E') by (unfold E'; lia).
  assert (H2 : 0 < 2 ^ (E - E')) by (apply Z.pow_pos_nonneg; lia).
  transitivity (2 ^ Zdigits2 M * 2 ^ (E - E')); [nia|].
  rewrite <- Z.pow_add_r by lia. apply Z.pow_le_mono_r; lia.
Qed.

Lemma me_le_pow_lo M E p :
  0 < M -> p <= Zdigits2 M + E - 1 -> me_le 1 p M E.
Proof.
  intros HM Hp. pose proof (Zdigits2_bounds M HM) as [Hlo _].
  assert (Hd : 0 < Zdigits2 M) by (destruct M; cbn in *; lia).
  unfold me_le, sc. set (E' := Z.min p E). rewrite Z.mul_1_l.
  assert (HE : 0 <= E - E') by (unfold E'; lia).
  assert (H2 : 0 < 2 ^ (E - E')) by (apply Z.pow_pos_nonneg; lia).
  transitivity (2 ^ (Zdigits2 M - 1) * 2 ^ (E - E')); [|nia].
  rewrite <- Z.pow_add_r by lia. apply Z.pow_le_mono_r; unfold E'; lia.
Qed.

Lemma me_le_pow_eq p : 0 <= p -> me_le (2 ^ p) 0 1 p /\ me_le 1 p (2 ^ p) 0.
Proof.
  intros Hp. unfold me_le, sc.
  replace (Z.min 0 p) with 0 by lia. replace (Z.min p 0) with 0 by lia.
  rewrite !Z.sub_0_r. change (2 ^ 0) with 1. lia.
Qed.

(** The magnitude [digits + exponent] follows the order. *)
Lemma me_le_digits M1 E1 M2 E2 :
  0 < M1 -> 0 < M2 -> me_le M1 E1 M2 E2 ->
  Zdigits2 M1 + E1 <= Zdigits2 M2 + E2.
Proof.
  intros H1 H2 Hle.
  pose proof (me_le_pow_lo M1 E1 (Zdigits2 M1 + E1 - 1) H1 ltac:(lia)) as Hlo.
  pose proof (Zdigits2_bounds M2 H2) as [_ Hhi].
  pose proof (me_le_trans _ _ _ _ _ _ Hlo Hle) as H.
  set (p := Zdigits2 M1 + E1 - 1) in *.
  destruct (Z_le_gt_dec (p + 1) (Zdigits2 M2 + E2)) as [|Hgt]; [lia|exfalso].
  set (E' := Z.min p E2).
  apply (proj1 (me_le_scale E' 1 p M2 E2 ltac:(unfold E'; lia)
                            ltac:(unfold E'; lia))) in H.
  unfold sc in H. rewrite Z.mul_1_l in H.
  assert (HE : 0 <= E2 - E') by (unfold E'; lia).
  assert (Hp2 : 0 < 2 ^ (E2 - E')) by (apply Z.pow_pos_nonneg; lia).
  pose proof (Zdigits2_nonneg M2).
  assert (M2 * 2 ^ (E2 - E') < 2 ^ (Zdigits2 M2 + (E2 - E'))).
  { rewrite Z.pow_add_r by lia. nia. }
  assert (2 ^ (Zdigits2 M2 + (E2 - E')) <= 2 ^ (p - E'))
    by (apply Z.pow_le_mono_r; lia).
  lia.
Qed.

Lemma rne_unified M E c E0 :
  E0 <= E -> E0 <= c ->
  rne_div M (2 ^ Z.max (c - E) 0) * 2 ^ (E + Z.max (c - E) 0 - c)
  = rne_div (M * 2 ^ (E - E0)) (2 ^ (c - E0)).
Proof.
  intros H1 H2. destruct (Z_le_gt_dec c E) as [Hc|Hc].
  - replace (Z.max (c - E) 0) with 0 by lia.
    change (2 ^ 0) with 1. rewrite rne_div_1.
    replace (E + 0 - c) with (E - c) by lia.
    replace (E - E0) with ((E - c) + (c - E0)) by lia.
    rewrite Z.pow_add_r, Z.mul_assoc by lia.
    rewrite rne_div_exact by (apply Z.pow_pos_nonneg; lia). reflexivity.
  - replace (Z.max (c - E) 0) with (c - E) by lia.
    replace (E + (c - E) - c) with 0 by lia.
    change (2 ^ 0) with 1. rewrite Z.mul_1_r.
    replace (c - E0) with ((c - E) + (E - E0)) by lia.
    rewrite Z.pow_add_r by lia.
    rewrite rne_div_scale by (apply Z.pow_pos_nonneg; lia). reflexivity.
Qed.

(** The value of a rounded positive number that stays in range, scaled to an
    exponent [E0] below everything: the scaled number rounded to a multiple
    of [2^(c - E0)], with [c] the exponent of its format. *)
Lemma round_aux_value M E hi g :
  0 < M ->
  fbetween false 0 hi g (binary_round_aux prec emax false M E loc_Exact) ->
  fexp prec emax (Zdigits2 M + E) <= 0 ->
  exists mv ev,
    ext_of_float (binary_round_aux prec emax false M E loc_Exact) = Fin mv ev /\
    Z.min (fexp prec emax (Zdigits2 M + E)) E <= ev /\
    forall E0,
      E0 <= Z.min (fexp prec emax (Zdigits2 M + E)) E ->
      sc E0 mv ev
      = rne_div (M * 2 ^ (E - E0)) (2 ^ (fexp prec emax (Zdigits2 M + E) - E0))
        * 2 ^ (fexp prec emax (Zdigits2 M + E) - E0).
Proof.
  intros HM Hb Hc.
  destruct (round_aux_exact0 false M E ltac:(lia)) as (m2 & e2 & Hle & Hr & Hres).
  cbn zeta in Hle, Hr.
  set (c := fexp prec emax (Zdigits2 M + E)) in *.
  set (n := Z.max (c - E) 0) in *.
  rewrite Hres in Hb |- *.
  assert (Hval : forall E0, E0 <= Z.min c E ->
                 m2 * 2 ^ (e2 - E0)
                 = rne_div (M * 2 ^ (E - E0)) (2 ^ (c - E0)) * 2 ^ (c - E0)).
  { intros E0 HE0.
    rewrite <- (rne_unified M E c E0) by lia. fold n. rewrite Hr.
    rewrite <- !Z.mul_assoc, <- !Z.pow_add_r by (unfold n; lia).
    do 2 f_equal. lia. }
  destruct m2 as [|m|m].
  - exists 0, 0. split; [reflexivity|]. split; [lia|].
    intros E0 HE0. rewrite <- (Hval E0 HE0). unfold sc. lia.
  - destruct (e2 <=? emax - prec).
    + exists (Zpos m), e2. split; [reflexivity|]. split; [unfold n in Hle; lia|].
      intros E0 HE0. unfold sc. apply Hval. exact HE0.
    + cbn in Hb. contradiction.
  - cbn in Hb. contradiction.
Qed.

(** A rounded number that is at most [2^p], and one that is at least. *)
Lemma round_aux_le_pow M E p :
  0 < M -> Zdigits2 M + E <= p -> -1074 <= p <= 52 ->
  match binary_round_aux prec emax false M E loc_Exact with
  | S754_zero _ => True
  | S754_finite false m e => me_le (Zpos m) e 1 p
  | _ => False
  end.
Proof.
  intros HM Hd Hp. pose proof (me_le_pow_hi M E p HM Hd) as Hhi.
  assert (H0 : forall g, me_le 0 g M E).
  { intros g. unfold me_le, sc. rewrite Z.mul_0_l.
    apply Z.mul_nonneg_nonneg; [lia|apply Z.pow_nonneg; lia]. }
  destruct (Z_le_gt_dec p 0) as [Hp0|Hp0].
  - pose proof (round_aux_between false M E loc_Exact 0 1 p ltac:(lia)
                  ltac:(lia) ltac:(lia) ltac:(lia) (H0 p)
                  (or_introl (conj eq_refl Hhi))) as H.
    destruct (binary_round_aux _ _ _ _ _ _) as [s|s| |s m e];
      cbn [fbetween] in H; try contradiction; [exact I|].
    destruct H as (-> & _ & H). exact H.
  - destruct (me_le_pow_eq p ltac:(lia)) as [Ha Hb].
    assert (Hpw : 0 < 2 ^ p < 2 ^ 53).
    { split; [apply Z.pow_pos_nonneg; lia|apply Z.pow_lt_mono_r; lia]. }
    pose proof (round_aux_between false M E loc_Exact 0 (2 ^ p) 0 ltac:(lia)
                  ltac:(lia) Hpw ltac:(lia) (H0 0)
                  (or_introl (conj eq_refl (me_le_trans _ _ _ _ _ _ Hhi Hb))))
      as H.
    destruct (binary_round_aux _ _ _ _ _ _) as [s|s| |s m e];
      cbn [fbetween] in H; try contradiction; [exact I|].
    destruct H as (-> & _ & H). exact (me_le_trans _ _ _ _ _ _ H Ha).
Qed.

Lemma round_aux_ge_pow M E p :
  0 < M -> p <= Zdigits2 M + E - 1 -> Zdigits2 M + E <= p + 52 ->
  me_le M E (2 ^ 52) 0 -> -1074 <= p ->
  match binary_round_aux prec emax false M E loc_Exact with
  | S754_finite false m e => me_le 1 p (Zpos m) e
  | _ => False
  end.
Proof.
  intros HM Hd Hd' Hbound Hp. pose proof (me_le_pow_lo M E p HM Hd) as Hlo.
  destruct (Z_le_gt_dec p 0) as [Hp0|Hp0].
  - set (u := Zdigits2 M + E - p).
    assert (Hu : me_le M E (2 ^ u) p).
    { eapply me_le_trans;
        [exact (me_le_pow_hi M E (Zdigits2 M + E) HM ltac:(lia))|].
      unfold me_le, sc. replace (Z.min (Zdigits2 M + E) p) with p by lia.
      rewrite Z.sub_diag. change (2 ^ 0) with 1. unfold u. lia. }
    assert (Hupos : 0 < 2 ^ u < 2 ^ 53).
    { split; [apply Z.pow_pos_nonneg; unfold u; lia|].
      apply Z.pow_lt_mono_r; unfold u; lia. }
    pose proof (round_aux_between false M E loc_Exact 1 (2 ^ u) p ltac:(lia)
                  ltac:(lia) Hupos ltac:(lia) Hlo
                  (or_introl (conj eq_refl Hu))) as H.
    destruct (binary_round_aux _ _ _ _ _ _) as [s|s| |s m e];
      cbn [fbetween] in H; try contradiction; try (exfalso; lia).
    destruct H as (-> & H & _). exact H.
  - destruct (me_le_pow_eq p ltac:(lia)) as [Ha Hb].
    assert (Hpw : 0 < 2 ^ p) by (apply Z.pow_pos_nonneg; lia).
    pose proof (round_aux_between false M E loc_Exact (2 ^ p) (2 ^ 52) 0
                  ltac:(lia) ltac:(lia) ltac:(cbn; lia) ltac:(lia)
                  (me_le_trans _ _ _ _ _ _ Ha Hlo)
                  (or_introl (conj eq_refl Hbound))) as H.
    destruct (binary_round_aux _ _ _ _ _ _) as [s|s| |s m e];
      cbn [fbetween] in H; try contradiction; try (exfalso; lia).
    destruct H as (-> & H & _). exact (me_le_trans _ _ _ _ _ _ Hb H).
Qed.

Lemma me_le_zero_l g m e : 0 <= m -> me_le 0 g m e.
Proof.
  intros Hm. unfold me_le, sc. rewrite Z.mul_0_l.
  apply Z.mul_nonneg_nonneg; [lia|apply Z.pow_nonneg; lia].
Qed.

(** Rounding the exact product (or any exact positive number of at most
    [2^52]) keeps the order. *)
Lemma round_aux_mono M1 E1 M2 E2 :
  0 < M1 -> 0 < M2 -> me_le M1 E1 M2 E2 -> me_le M2 E2 (2 ^ 52) 0 ->
  leb (PyFloat (binary_round_aux prec emax false M1 E1 loc_Exact))
      (PyFloat (binary_round_aux prec emax false M2 E2 loc_Exact)) = true.
Proof.
  intros H1 H2 Hle Hb.
  pose proof (me_le_digits M1 E1 M2 E2 H1 H2 Hle) as HD.
  assert (HD2 : Zdigits2 M2 + E2 <= 53).
  { pose proof (me_le_pow_eq 52 ltac:(lia)) as [Ha _].
    pose proof (me_le_digits M2 E2 1 52 H2 ltac:(lia)
                  (me_le_trans _ _ _ _ _ _ Hb Ha)) as H.
    cbn in H. lia. }
  pose proof (round_aux_between false M2 E2 loc_Exact 0 (2 ^ 52) 0 ltac:(lia)
                ltac:(lia) ltac:(cbn; lia) ltac:(lia)
                (me_le_zero_l 0 M2 E2 ltac:(lia))
                (or_introl (conj eq_refl Hb))) as B2.
  pose proof (round_aux_between false M1 E1 loc_Exact 0 (2 ^ 52) 0 ltac:(lia)
                ltac:(lia) ltac:(cbn; lia) ltac:(lia)
                (me_le_zero_l 0 M1 E1 ltac:(lia))
                (or_introl (conj eq_refl (me_le_trans _ _ _ _ _ _ Hle Hb))))
    as B1.
  pose proof (fexp_eq (Zdigits2 M1 + E1)) as C1.
  pose proof (fexp_eq (Zdigits2 M2 + E2)) as C2.
  destruct (Z.eq_dec (fexp prec emax (Zdigits2 M1 + E1))
                     (fexp prec emax (Zdigits2 M2 + E2))) as [Hc|Hc].
  - destruct (round_aux_value M1 E1 _ _ H1 B1 ltac:(lia))
      as (mv1 & ev1 & X1 & L1 & V1).
    destruct (round_aux_value M2 E2 _ _ H2 B2 ltac:(lia))
      as (mv2 & ev2 & X2 & L2 & V2).
    apply (leb_fin (PyFloat (binary_round_aux prec emax false M1 E1 loc_Exact))
                   (PyFloat (binary_round_aux prec emax false M2 E2 loc_Exact))
                   mv1 ev1 mv2 ev2 X1 X2).
    rewrite Hc in *.
    set (c := fexp prec emax (Zdigits2 M2 + E2)) in *.
    set (E0 := Z.min c (Z.min E1 E2)).
    apply (me_le_scale E0); [unfold E0; lia|unfold E0; lia|].
    rewrite V1, V2 by (unfold E0; lia).
    apply Z.mul_le_mono_nonneg_r; [apply Z.pow_nonneg; lia|].
    apply rne_div_mono; [apply Z.pow_pos_nonneg; unfold E0; lia|].
    apply (proj1 (me_le_scale E0 M1 E1 M2 E2 ltac:(unfold E0; lia)
                              ltac:(unfold E0; lia))) in Hle.
    exact Hle.
  - set (p := Zdigits2 M2 + E2 - 1).
    pose proof (round_aux_le_pow M1 E1 p H1 ltac:(unfold p; lia)
                  ltac:(unfold p; lia)) as L.
    pose proof (round_aux_ge_pow M2 E2 p H2 ltac:(unfold p; lia)
                  ltac:(unfold p; lia) Hb ltac:(unfold p; lia)) as G.
    destruct (binary_round_aux prec emax false M2 E2 loc_Exact)
      as [s2|s2| |s2 m2 e2]; try contradiction.
    destruct s2; [contradiction|].
    destruct (binary_round_aux prec emax false M1 E1 loc_Exact)
      as [s1|s1| |s1 m1 e1]; try contradiction.
    + apply (leb_fin (PyFloat (S754_zero s1)) (PyFloat (S754_finite false m2 e2))
                     0 0 (Zpos m2) e2 eq_refl eq_refl).
      apply me_le_zero_l. lia.
    + destruct s1; [contradiction|].
      apply (leb_fin (PyFloat (S754_finite false m1 e1))
                     (PyFloat (S754_finite false m2 e2))
                     (Zpos m1) e1 (Zpos m2) e2 eq_refl eq_refl).
      exact (me_le_trans _ _ _ _ _ _ L G).
Qed.

(** ** The brightness byte follows the brightness *)

Lemma leb_trans a b c :
  leb a b = true -> leb b c = true -> leb a c = true.
Proof.
  intros H1 H2.
  destruct (ext_of a) as [| | |ma ea] eqn:Ea;
    destruct (ext_of b) as [| | |mb eb] eqn:Eb;
    destruct (ext_of c) as [| | |mc ec] eqn:Ec;
    try (unfold leb, compare in *; rewrite ?Ea, ?Eb, ?Ec in *;
         first [discriminate | reflexivity]).
  apply (leb_fin a b _ _ _ _ Ea Eb) in H1.
  apply (leb_fin b c _ _ _ _ Eb Ec) in H2.
  apply (leb_fin a c _ _ _ _ Ea Ec).
  exact (me_le_trans _ _ _ _ _ _ H1 H2).
Qed.

(** A float between 0 and 1 is a zero or a positive number of at most 1. *)
Lemma unit_float_cases x :
  leb (PyInt 0) (PyFloat x) = true -> leb (PyFloat x) (PyInt 1) = true ->
  (exists s, x = S754_zero s) \/
  (exists m e, x = S754_finite false m e /\ me_le (Zpos m) e 1 0).
Proof.
  intros H0 H1. destruct x as [s|s| |s m e].
  - left. eauto.
  - destruct s; discriminate.
  - discriminate.
  - right. destruct s.
    + exfalso.
      apply (leb_fin (PyInt 0) (PyFloat (S754_finite true m e))
                     0 0 (Zneg m) e eq_refl eq_refl) in H0.
      unfold me_le, sc in H0. rewrite Z.mul_0_l in H0.
      assert (0 < 2 ^ (e - Z.min 0 e)) by (apply Z.pow_pos_nonneg; lia).
      nia.
    + exists m, e. split; [reflexivity|].
      apply (leb_fin (PyFloat (S754_finite false m e)) (PyInt 1)
                     (Zpos m) e 1 0 eq_refl eq_refl). exact H1.
Qed.

Lemma me_le_mul_shift m1 e1 m2 e2 k d :
  0 < k -> me_le m1 e1 m2 e2 -> me_le (m1 * k) (e1 + d) (m2 * k) (e2 + d).
Proof.
  intros Hk H. unfold me_le, sc in *.
  replace (Z.min (e1 + d) (e2 + d)) with (Z.min e1 e2 + d) by lia.
  replace (e1 + d - (Z.min e1 e2 + d)) with (e1 - Z.min e1 e2) by lia.
  replace (e2 + d - (Z.min e1 e2 + d)) with (e2 - Z.min e1 e2) by lia.
  nia.
Qed.

Lemma mul_100_finite m e :
  mul (PyFloat (S754_finite false m e)) (PyInt 100)
  = inr (PyFloat (binary_round_aux prec emax false
                    (Zpos m * 7036874417766400) (e + -46) loc_Exact)).
Proof. reflexivity. Qed.

Lemma mul_100_zero s :
  mul (PyFloat (S754_zero s)) (PyInt 100) = inr (PyFloat (S754_zero s)).
Proof. destruct s; reflexivity. Qed.

(** The product of a positive float of at most 1 with 100, between two
    integers that bound the exact product. *)
Lemma mul_100_between m e lo hi :
  0 <= lo -> 0 < hi <= 100 ->
  me_le lo 0 (Zpos m * 100) e -> me_le (Zpos m * 100) e hi 0 ->
  fbetween false lo hi 0
           (binary_round_aux prec emax false
              (Zpos m * 7036874417766400) (e + -46) loc_Exact).
Proof.
  intros Hlo Hhi H1 H2.
  assert (HC : 7036874417766400 = 100 * 2 ^ 46) by reflexivity.
  assert (Hsame : forall E, E <= e + -46 ->
            sc E (Zpos m * 7036874417766400) (e + -46)
            = sc E (Zpos m * 100) e).
  { intros E HE. unfold sc. rewrite HC.
    replace (e - E) with (46 + (e + -46 - E)) by lia.
    rewrite Z.pow_add_r by lia. lia. }
  apply round_aux_between; try lia.
  - set (E := Z.min 0 (e + -46)).
    apply (me_le_scale E); try (unfold E; lia).
    rewrite Hsame by (unfold E; lia).
    apply (proj1 (me_le_scale E lo 0 (Zpos m * 100) e ltac:(unfold E; lia)
                              ltac:(unfold E; lia))). exact H1.
  - left. split; [reflexivity|].
    set (E := Z.min 0 (e + -46)).
    apply (me_le_scale E); try (unfold E; lia).
    rewrite Hsame by (unfold E; lia).
    apply (proj1 (me_le_scale E (Zpos m * 100) e hi 0 ltac:(unfold E; lia)
                              ltac:(unfold E; lia))). exact H2.
Qed.

Lemma me_le_100 m e k :
  0 <= k ->
  (me_le (Zpos m) e k 0 -> me_le (Zpos m * 100) e (k * 100) 0) /\
  (me_le k 0 (Zpos m) e -> me_le (k * 100) 0 (Zpos m * 100) e).
Proof.
  intros Hk. split; intros H.
  - pose proof (me_le_mul_shift _ _ _ _ 100 0 ltac:(lia) H) as H'.
    rewrite !Z.add_0_r in H'. exact H'.
  - pose proof (me_le_mul_shift _ _ _ _ 100 0 ltac:(lia) H) as H'.
    rewrite !Z.add_0_r in H'. exact H'.
Qed.

Lemma fbetween_leb lo hi x :
  fbetween false lo hi 0 x -> 0 <= lo <= hi ->
  leb (PyInt lo) (PyFloat x) = true /\ leb (PyFloat x) (PyInt hi) = true.
Proof.
  intros H Hlo. destruct x as [s|s| |s m e]; cbn [fbetween] in H;
    try contradiction.
  - split.
    + apply (leb_fin (PyInt lo) (PyFloat (S754_zero s)) lo 0 0 0
                     eq_refl eq_refl).
      unfold me_le, sc. cbn. lia.
    + apply (leb_fin (PyFloat (S754_zero s)) (PyInt hi) 0 0 hi 0
                     eq_refl eq_refl).
      unfold me_le, sc. cbn. lia.
  - destruct H as (-> & H1 & H2). split.
    + apply (leb_fin (PyInt lo) (PyFloat (S754_finite false m e)) lo 0
                     (Zpos m) e eq_refl eq_refl). exact H1.
    + apply (leb_fin (PyFloat (S754_finite false m e)) (PyInt hi)
                     (Zpos m) e hi 0 eq_refl eq_refl). exact H2.
Qed.

Lemma me_le_pos_zero m e g : ~ me_le (Zpos m) e 0 g.
Proof.
  unfold me_le, sc. rewrite Z.mul_0_l.
  assert (0 < 2 ^ (e - Z.min e g)) by (apply Z.pow_pos_nonneg; lia). nia.
Qed.

Lemma me_le_int a b : me_le a 0 b 0 <-> a <= b.
Proof. unfold me_le, sc. cbn. lia. Qed.

(** The product with 100 follows the order of its arguments in [0, 1]. *)
Lemma mul_100_mono v w p q :
  leb (PyInt 0) v = true -> leb v w = true -> leb w (PyInt 1) = true ->
  mul v (PyInt 100) = inr p -> mul w (PyInt 100) = inr q ->
  leb p q = true.
Proof.
  intros H0 Hvw H1 Hp Hq.
  pose proof (leb_trans _ _ _ H0 Hvw) as H0w.
  pose proof (leb_trans _ _ _ Hvw H1) as Hv1.
  destruct v as [a|x], w as [b|y].
  - inv Hp. inv Hq. apply leb_int. apply leb_int in Hvw. lia.
  - inv Hp. apply leb_int in H0.
    destruct (unit_float_cases y H0w H1) as [[s ->]|(m & e & -> & Hy)].
    + rewrite mul_100_zero in Hq. inv Hq.
      apply (leb_fin (PyInt a) (PyFloat (S754_zero s)) a 0 0 0
                     eq_refl eq_refl) in Hvw.
      apply (proj1 (me_le_int _ _)) in Hvw.
      apply (leb_fin (PyInt (a * 100)) (PyFloat (S754_zero s)) (a * 100) 0 0 0
                     eq_refl eq_refl).
      apply me_le_int. lia.
    + rewrite mul_100_finite in Hq. inv Hq.
      apply (leb_fin (PyInt a) (PyFloat (S754_finite false m e)) a 0 (Zpos m) e
                     eq_refl eq_refl) in Hvw.
      assert (Ha1 : a <= 1).
      { apply me_le_int. exact (me_le_trans _ _ _ _ _ _ Hvw Hy). }
      pose proof (mul_100_between m e (a * 100) 100 ltac:(lia) ltac:(lia)
                    (proj2 (me_le_100 m e a H0) Hvw)
                    (proj1 (me_le_100 m e 1 ltac:(lia)) Hy)) as Hb.
      exact (proj1 (fbetween_leb _ _ _ Hb ltac:(lia))).
  - inv Hq. apply leb_int in H1.
    destruct (unit_float_cases x H0 Hv1) as [[s ->]|(m & e & -> & Hx)].
    + rewrite mul_100_zero in Hp. inv Hp.
      apply (leb_fin (PyFloat (S754_zero s)) (PyInt b) 0 0 b 0
                     eq_refl eq_refl) in Hvw.
      apply (proj1 (me_le_int _ _)) in Hvw.
      apply (leb_fin (PyFloat (S754_zero s)) (PyInt (b * 100)) 0 0 (b * 100) 0
                     eq_refl eq_refl).
      apply me_le_int. lia.
    + rewrite mul_100_finite in Hp. inv Hp.
      apply (leb_fin (PyFloat (S754_finite false m e)) (PyInt b) (Zpos m) e b 0
                     eq_refl eq_refl) in Hvw.
      assert (Hb1 : b = 1).
      { destruct (Z_le_gt_dec b 0) as [Hb0|Hb0]; [exfalso|lia].
        apply (me_le_pos_zero m e 0).
        eapply me_le_trans; [exact Hvw|]. apply me_le_int. exact Hb0. }
      subst b.
      pose proof (mul_100_between m e 0 100 ltac:(lia) ltac:(lia)
                    (me_le_zero_l 0 (Zpos m * 100) e ltac:(lia))
                    (proj1 (me_le_100 m e 1 ltac:(lia)) Hx)) as Hb.
      exact (proj2 (fbetween_leb _ _ _ Hb ltac:(lia))).
  - destruct (unit_float_cases x H0 Hv1) as [[s ->]|(m & e & -> & Hx)];
      destruct (unit_float_cases y H0w H1) as [[s' ->]|(m' & e' & -> & Hy)].
    + rewrite mul_100_zero in Hp, Hq. inv Hp. inv Hq.
      apply (leb_fin (PyFloat (S754_zero s)) (PyFloat (S754_zero s')) 0 0 0 0
                     eq_refl eq_refl).
      apply me_le_int. lia.
    + rewrite mul_100_zero in Hp. rewrite mul_100_finite in Hq. inv Hp. inv Hq.
      pose proof (mul_100_between m' e' 0 100 ltac:(lia) ltac:(lia)
                    (me_le_zero_l 0 (Zpos m' * 100) e' ltac:(lia))
                    (proj1 (me_le_100 m' e' 1 ltac:(lia)) Hy)) as Hb.
      pose proof (proj1 (fbetween_leb _ _ _ Hb ltac:(lia))) as Hl.
      exact Hl.
    + exfalso.
      apply (leb_fin (PyFloat (S754_finite false m e)) (PyFloat (S754_zero s'))
                     (Zpos m) e 0 0 eq_refl eq_refl) in Hvw.
      exact (me_le_pos_zero _ _ _ Hvw).
    + rewrite mul_100_finite in Hp, Hq. inv Hp. inv Hq.
      apply (leb_fin (PyFloat (S754_finite false m e))
                     (PyFloat (S754_finite false m' e'))
                     (Zpos m) e (Zpos m') e' eq_refl eq_refl) in Hvw.
      apply round_aux_mono; try lia.
      * exact (me_le_mul_shift (Zpos m) e (Zpos m') e' 7036874417766400 (-46)
                               ltac:(lia) Hvw).
      * eapply me_le_trans.
        -- exact (me_le_mul_shift (Zpos m') e' 1 0 7036874417766400 (-46)
                                  ltac:(lia) Hy).
        -- vm_compute. discriminate.
Qed.

(** X7: a brighter input never gives a smaller byte: for two values between
    0 and 1 (integers or floats) in increasing order, the bytes of
    [convert_brightness], and of [convert_temperature] alike, are in
    increasing order too. *)
Theorem convert_brightness_monotone v w :
  leb (PyInt 0) v = true -> leb v w = true -> leb w (PyInt 1) = true ->
  exists n m,
    convert_brightness v = inr (PyInt n) /\
    convert_brightness w = inr (PyInt m) /\
    convert_temperature v = inr (PyInt n) /\
    convert_temperature w = inr (PyInt m) /\
    0 <= n <= m /\ m <= 100.
Proof.
  intros H0 Hvw H1.
  pose proof (leb_trans _ _ _ H0 Hvw) as H0w.
  pose proof (leb_trans _ _ _ Hvw H1) as Hv1.
  destruct (convert_unit v H0 Hv1) as (p & n & Hp & Hn & Hnr).
  destruct (convert_unit w H0w H1) as (q & m & Hq & Hm & Hmr).
  exists n, m. split; [exact Hn|]. split; [exact Hm|].
  split; [exact Hn|]. split; [exact Hm|].
  pose proof (mul_100_mono v w p q H0 Hvw H1 Hp Hq) as Hpq.
  rewrite Hp in Hn. rewrite Hq in Hm. cbn [bind Monad_either] in Hn, Hm.
  pose proof (ceil_mono p q n m Hpq Hn Hm). lia.
Qed.

Lemma convert_brightness_monotone_witness :
  exists n m,
    convert_brightness (PyFloat f_0_01) = inr (PyInt n) /\
    convert_brightness (PyFloat f_half) = inr (PyInt m) /\
    convert_temperature (PyFloat f_0_01) = inr (PyInt n) /\
    convert_temperature (PyFloat f_half) = inr (PyInt m) /\
    0 <= n <= m /\ m <= 100.
Proof.
  apply (convert_brightness_monotone (PyFloat f_0_01) (PyFloat f_half));
    vm_compute; reflexivity.
Defined.

(** ** The brightness byte at the edges *)

Lemma convert_brightness_int n :
  convert_brightness (PyInt n) = inr (PyInt (100 * n)).
Proof.
  unfold convert_brightness. cbn [mul arith bind ret Monad_either].
  unfold ceil, to_integral, ceil_fin. cbn [ext_of Z.leb Z.compare].
  change (2 ^ 0) with 1. unfold MAX_BRIGHTNESS. cbn [ret Monad_either].
  do 2 f_equal. lia.
Qed.

Lemma valid_exponent m e :
  valid_binary prec emax (S754_finite false m e) = true -> -1074 <= e.
Proof.
  cbn [valid_binary]. unfold bounded, canonical_mantissa.
  intros H. apply andb_prop in H. destruct H as [H _].
  apply Z.eqb_eq in H. rewrite <- H. apply fexp_ge_emin.
Qed.

(** A positive binary64 number of at most 1 has a positive product with
    100, and a byte of at least 1. *)
Lemma convert_brightness_pos m e :
  -1074 <= e -> me_le (Zpos m) e 1 0 ->
  exists n, convert_brightness (PyFloat (S754_finite false m e)) = inr (PyInt n)
            /\ 0 < n.
Proof.
  intros He Hx. unfold convert_brightness.
  change (PyInt MAX_BRIGHTNESS) with (PyInt 100). rewrite mul_100_finite.
  cbn [bind Monad_either].
  set (M := Zpos m * 7036874417766400). set (E := e + -46).
  assert (HM : 0 < M) by (unfold M; lia).
  assert (Hd : 53 <= Zdigits2 M).
  { pose proof (Zdigits2_bounds M HM) as [_ Hhi].
    destruct (Z_le_gt_dec 53 (Zdigits2 M)) as [|Hlt]; [assumption|exfalso].
    assert (2 ^ Zdigits2 M <= 2 ^ 52)
      by (apply Z.pow_le_mono_r; lia).
    assert (2 ^ 52 <= M) by (unfold M; change (2 ^ 52) with 4503599627370496; lia).
    lia. }
  assert (Hb : me_le M E (2 ^ 52) 0).
  { eapply me_le_trans.
    - exact (me_le_mul_shift (Zpos m) e 1 0 7036874417766400 (-46)
                             ltac:(lia) Hx).
    - vm_compute. discriminate. }
  pose proof (round_aux_ge_pow M E (Zdigits2 M + E - 1) HM ltac:(lia)
                ltac:(lia) Hb ltac:(unfold E; lia)) as G.
  destruct (binary_round_aux prec emax false M E loc_Exact)
    as [s|s| |s m' e'] eqn:R; try contradiction.
  destruct s; [contradiction|].
  exists (ceil_fin (Zpos m') e'). split; [reflexivity|].
  pose proof (ceil_spec (PyFloat (S754_finite false m' e'))
                        (ceil_fin (Zpos m') e') eq_refl) as [Hle _].
  apply (leb_fin (PyFloat (S754_finite false m' e'))
                 (PyInt (ceil_fin (Zpos m') e'))
                 (Zpos m') e' (ceil_fin (Zpos m') e') 0 eq_refl eq_refl) in Hle.
  destruct (Z_le_gt_dec (ceil_fin (Zpos m') e') 0) as [Hn|Hn]; [exfalso|lia].
  apply (me_le_pos_zero m' e' 0).
  eapply me_le_trans; [exact Hle|]. apply me_le_int. exact Hn.
Qed.

(** X8: for a brightness between 0 and 1 that is an integer or a binary64
    number, [convert_brightness] returns 0 exactly when the brightness
    equals 0: no positive brightness, however small, is rounded to 0. *)
Theorem convert_brightness_zero_iff v :
  is_binary64 v ->
  leb (PyInt 0) v = true -> leb v (PyInt 1) = true ->
  (convert_brightness v = inr (PyInt 0) <-> eqb v (PyInt 0) = true).
Proof.
  intros Hv H0 H1. destruct v as [a|x].
  - rewrite convert_brightness_int, eqb_int. split.
    + intros H. assert (100 * a = 0) by congruence. apply Z.eqb_eq. lia.
    + intros H. apply Z.eqb_eq in H. subst a. reflexivity.
  - destruct (unit_float_cases x H0 H1) as [[s ->]|(m & e & -> & Hx)].
    + split; intros _; [reflexivity|]. destruct s; reflexivity.
    + cbn [is_binary64] in Hv. apply valid_exponent in Hv.
      destruct (convert_brightness_pos m e Hv Hx) as (n & Hn & Hpos).
      rewrite Hn. split.
      * intros H. assert (n = 0) by congruence. lia.
      * intros H. exfalso. unfold eqb in H.
        rewrite (compare_fin (PyFloat (S754_finite false m e)) (PyInt 0)
                             (Zpos m) e 0 0 eq_refl eq_refl) in H.
        destruct (Z.compare_spec (sc (Z.min e 0) (Zpos m) e)
                                 (sc (Z.min e 0) 0 0)) as [C|C|C];
          try discriminate.
        apply (me_le_pos_zero m e 0). unfold me_le. lia.
Qed.

Lemma convert_brightness_zero_iff_witness :
  convert_brightness (PyFloat f_0_001) = inr (PyInt 0)
  <-> eqb (PyFloat f_0_001) (PyInt 0) = true.
Proof.
  apply (convert_brightness_zero_iff (PyFloat f_0_001));
    vm_compute; reflexivity.
Defined.

Lemma round_aux_not_nan s M E :
  0 <= M -> binary_round_aux prec emax s M E loc_Exact <> S754_nan.
Proof.
  intros HM.
  destruct (round_aux_exact0 s M E HM) as (m2 & e2 & Hle & Hr & Hres).
  cbn zeta in Hle, Hr. rewrite Hres.
  set (n := Z.max (fexp prec emax (Zdigits2 M + E) - E) 0) in *.
  pose proof (rne_div_bounds M (2 ^ n)) as [Hlo _].
  assert (0 <= M / 2 ^ n) by (apply Z.div_pos; [lia|apply Z.pow_pos_nonneg; unfold n; lia]).
  assert (0 < 2 ^ (e2 - (E + n))) by (apply Z.pow_pos_nonneg; lia).
  destruct m2 as [|m|m].
  - discriminate.
  - destruct (e2 <=? emax - prec); discriminate.
  - exfalso. nia.
Qed.

(** X9: outside its range [convert_brightness] does not clamp: an integer
    [n] gives [100 * n]; a NaN raises [ValueError] and nothing else does;
    an infinity, or a float whose product with 100 overflows, raises
    [OverflowError]; no other error occurs. *)
Theorem convert_brightness_outcomes :
  (forall n, convert_brightness (PyInt n) = inr (PyInt (100 * n))) /\
  (forall x, convert_brightness (PyFloat x) = inl ValueError <-> x = S754_nan) /\
  (forall s, convert_brightness (PyFloat (S754_infinity s)) = inl OverflowError) /\
  convert_brightness (PyFloat (S754_finite false 9007199254740991 971))
  = inl OverflowError /\
  (forall v,
      (exists n, convert_brightness v = inr (PyInt n)) \/
      convert_brightness v = inl ValueError \/
      convert_brightness v = inl OverflowError).
Proof.
  assert (F : forall x,
             (x = S754_nan /\ convert_brightness (PyFloat x) = inl ValueError) \/
             (x <> S754_nan /\
              ((exists n, convert_brightness (PyFloat x) = inr (PyInt n)) \/
               convert_brightness (PyFloat x) = inl OverflowError))).
  { intros x. destruct x as [s|s| |s m e].
    - right. split; [discriminate|]. left. exists 0. destruct s; reflexivity.
    - right. split; [discriminate|]. right. destruct s; reflexivity.
    - left. split; reflexivity.
    - right. split; [discriminate|].
      unfold convert_brightness, mul, arith. cbn [to_float].
      change (float_of_int MAX_BRIGHTNESS) with (float_of_int 100).
      rewrite float_of_int_100. cbn [bind ret Monad_either SFmul].
      pose proof (round_aux_not_nan (xorb s false)
                    (Zpos (m * 7036874417766400)) (e + -46) ltac:(lia)) as N.
      destruct (binary_round_aux _ _ _ _ _ _) as [s'|s'| |s' m' e'].
      + left. eexists. reflexivity.
      + right. destruct s'; reflexivity.
      + contradiction.
      + left. eexists. reflexivity. }
  split; [exact convert_brightness_int|].
  split.
  { intros x. destruct (F x) as [[-> H]|[Hx [[n H]|H]]].
    - split; auto.
    - rewrite H. split; [discriminate|contradiction].
    - rewrite H. split; [discriminate|contradiction]. }
  split; [intros s; destruct s; reflexivity|].
  split; [vm_compute; reflexivity|].
  intros [n|x].
  - left. eexists. apply convert_brightness_int.
  - destruct (F x) as [[_ H]|[_ [H|H]]]; auto.
Qed.

(** ** The colour byte at the edges *)

Lemma compare_antisym a b :
  compare a b = option_map CompOpp (compare b a).
Proof.
  unfold compare.
  destruct (ext_of a) as [| | |ma ea], (ext_of b) as [| | |mb eb];
    try reflexivity.
  cbn [option_map]. rewrite (Z.min_comm ea eb), Z.compare_antisym.
  reflexivity.
Qed.

Lemma eqb_leb a b : eqb a b = true -> leb a b = true /\ leb b a = true.
Proof.
  unfold eqb, leb. rewrite (compare_antisym b a).
  destruct (compare a b) as [[| |]|]; cbn; try discriminate. auto.
Qed.

Lemma leb_not_gtb a b : leb a b = true -> gtb a b = false.
Proof.
  unfold leb, gtb. destruct (compare a b) as [[| |]|]; try discriminate; auto.
Qed.

Lemma leb_not_ltb a b : leb b a = true -> ltb a b = false.
Proof.
  unfold leb, ltb. rewrite (compare_antisym a b).
  destruct (compare b a) as [[| |]|]; cbn; try discriminate; auto.
Qed.

Lemma eqb_refl_of a b : eqb a b = true -> eqb a a = true.
Proof.
  unfold eqb, compare.
  destruct (ext_of a) as [| | |ma ea], (ext_of b) as [| | |mb eb];
    try discriminate; try reflexivity.
  intros _. rewrite Z.compare_refl. reflexivity.
Qed.

Lemma sub_self a : exists d, sub a a = inr d.
Proof.
  destruct a as [n|x]; cbn; eauto.
Qed.

(** X10: a grey, three components that compare equal (integers or floats,
    of any size), has the colour byte 0. *)
Theorem convert_color_grey r g b :
  eqb r g = true -> eqb g b = true -> convert_color (r, g, b) = inr (PyInt 0).
Proof.
  intros Hrg Hgb.
  destruct (eqb_leb r g Hrg) as [Lrg Lgr].
  destruct (eqb_leb g b Hgb) as [Lgb Lbg].
  pose proof (leb_trans _ _ _ Lbg Lgr) as Lbr.
  pose proof (leb_trans _ _ _ Lrg Lgb) as Lrb.
  unfold convert_color, colorsys.rgb_to_hsv, max3, min3.
  rewrite (leb_not_gtb g r Lgr), (leb_not_gtb b r Lbr).
  rewrite (leb_not_ltb g r Lrg), (leb_not_ltb b r Lrb).
  destruct (sub_self r) as [d ->]. cbn [bind Monad_either].
  rewrite (eqb_refl_of r g Hrg). reflexivity.
Qed.

Lemma convert_color_grey_witness :
  convert_color (PyInt 7, PyFloat (lit 7 0), PyInt 7) = inr (PyInt 0).
Proof.
  apply (convert_color_grey (PyInt 7) (PyFloat (lit 7 0)) (PyInt 7));
    vm_compute; reflexivity.
Defined.

(** ** The colour byte by sector of the colour wheel *)

Lemma floor_between_lo lo hi g p :
  fbetween false lo hi g p -> 0 <= lo <= hi -> -1074 <= g <= 0 ->
  exists z, floor (PyFloat p) = inr (PyInt z) /\
            lo / 2 ^ (- g) <= z <= hi / 2 ^ (- g).
Proof.
  intros Hp Hlo Hg.
  assert (Hp0 : fbetween false 0 hi g p)
    by (eapply fbetween_weaken; [exact Hp| |]; lia).
  destruct (floor_between hi g p Hp0 ltac:(lia) Hg) as (z & Hz & Hr).
  exists z. split; [exact Hz|]. split; [|lia].
  assert (Hpg : 0 < 2 ^ (- g)) by (apply Z.pow_pos_nonneg; lia).
  pose proof (Z.mul_div_le lo (2 ^ (- g)) Hpg) as HL.
  set (L := lo / 2 ^ (- g)) in *.
  destruct p as [s|s| |s m e]; cbn [fbetween] in Hp; try contradiction.
  - assert (lo = 0) by lia. subst lo. unfold L. rewrite Z.div_0_l by lia. lia.
  - destruct Hp as (-> & Hl & _).
    unfold floor, to_integral in Hz. cbn in Hz.
    assert (Hzz : z = floor_fin (Zpos m) e) by congruence.
    pose proof (floor_fin_spec (Zpos m) e) as [_ Hf]. rewrite <- Hzz in Hf.
    set (E := Z.min (Z.min e 0) g).
    apply (proj1 (me_le_scale E lo g (Zpos m) e ltac:(unfold E; lia)
                              ltac:(unfold E; lia))) in Hl.
    assert (Hz1 : sc E (Zpos m) e < sc E (z + 1) 0).
    { unfold sc.
      replace (0 - E) with ((0 - Z.min e 0) + (Z.min e 0 - E)) by lia.
      replace (e - E) with ((e - Z.min e 0) + (Z.min e 0 - E)) by lia.
      rewrite !Z.pow_add_r, !Z.mul_assoc by (unfold E; lia).
      apply Z.mul_lt_mono_pos_r; [apply Z.pow_pos_nonneg; unfold E; lia|].
      exact Hf. }
    unfold sc in Hl, Hz1.
    replace (0 - E) with (- g + (g - E)) in Hz1 by lia.
    rewrite Z.pow_add_r in Hz1 by (unfold E; lia).
    assert (HP : 0 < 2 ^ (g - E)) by (apply Z.pow_pos_nonneg; unfold E; lia).
    destruct (Z_le_gt_dec L z) as [|Hgt]; [assumption|exfalso].
    assert (z + 1 <= L) by lia.
    assert ((z + 1) * 2 ^ (- g) <= lo) by nia.
    nia.
Qed.

(** The byte of a hue between [lo * 2^g] and [hi * 2^g]. *)
Lemma hue_byte_lo u lo hi g :
  fbetween false lo hi g u -> 0 <= lo <= hi -> 0 < hi ->
  255 * hi < 2 ^ 53 -> -1074 <= g <= 0 ->
  exists z,
    (x <- mul (PyFloat u) (PyInt MAX_COLOR) ;; floor x) = inr (PyInt z) /\
    (255 * lo) / 2 ^ (- g) <= z <= (255 * hi) / 2 ^ (- g).
Proof.
  intros Hu Hlo Hhi Hhi' Hg. unfold mul, arith. cbn [to_float].
  change MAX_COLOR with 255. rewrite float_of_int_255.
  cbn [bind ret Monad_either].
  apply floor_between_lo; try lia.
  destruct u as [s|s| |s m e]; cbn [fbetween] in Hu; try contradiction.
  - cbn [SFmul fbetween]. lia.
  - destruct Hu as (-> & Hl & Hu).
    change false with (xorb false false) at 1.
    set (E := Z.min g e - 45).
    apply (proj1 (me_le_scale (E + 45) (Zpos m) e hi g ltac:(unfold E; lia)
                              ltac:(unfold E; lia))) in Hu.
    apply (proj1 (me_le_scale (E + 45) lo g (Zpos m) e ltac:(unfold E; lia)
                              ltac:(unfold E; lia))) in Hl.
    assert (H255 : 8972014882652160 = 255 * 2 ^ 45) by reflexivity.
    unfold sc in Hu, Hl.
    apply SFmul_between; try lia.
    + apply (me_le_scale E); try (unfold E; lia). unfold sc.
      replace (e + -45 - E) with (e - (E + 45)) by lia.
      replace (g - E) with ((g - (E + 45)) + 45) by lia.
      rewrite Z.pow_add_r by (unfold E; lia). rewrite H255. nia.
    + apply (me_le_scale E); try (unfold E; lia). unfold sc.
      replace (e + -45 - E) with (e - (E + 45)) by lia.
      replace (g - E) with ((g - (E + 45)) + 45) by lia.
      rewrite Z.pow_add_r by (unfold E; lia). rewrite H255. nia.
Qed.

Lemma float_mod_pos_lo h lo hi g :
  fbetween false lo hi g h ->
  0 <= lo -> 0 < hi < 2 ^ (- g) -> hi < 2 ^ 53 -> -1074 <= g <= 0 ->
  exists u, float_mod h one = inr u /\ fbetween false lo hi g u.
Proof.
  intros Hh Hlo Hhi Hhi' Hg. unfold float_mod. cbn [is_zero one].
  destruct h as [sh|sh| |sh mh eh]; cbn [fbetween] in Hh; try contradiction.
  - cbn. eexists. split; [reflexivity|]. cbn. lia.
  - destruct Hh as (-> & Hl & Hu).
    pose proof (fmod_small_between false mh eh lo hi g Hlo Hhi Hhi' Hg Hl Hu)
      as Hm.
    fold one.
    destruct (fmod (S754_finite false mh eh) one) as [s|s| |s m e];
      cbn [fbetween] in Hm; try contradiction.
    + eexists. split; [reflexivity|]. cbn. lia.
    + destruct Hm as (-> & Hm). cbn [sign_bit one xorb].
      eexists. split; [reflexivity|]. cbn [fbetween]. auto.
Qed.

Lemma me_le_8_11 a b : a <= 8 * b <-> me_le a (-11) b (-8).
Proof.
  unfold me_le, sc. change (Z.min (-11) (-8)) with (-11).
  change (2 ^ (-11 - -11)) with 1. change (2 ^ (-8 - -11)) with 8. lia.
Qed.

Lemma me_le_11_8 a b : 8 * a <= b <-> me_le a (-8) b (-11).
Proof.
  unfold me_le, sc. change (Z.min (-8) (-11)) with (-11).
  change (2 ^ (-11 - -11)) with 1. change (2 ^ (-8 - -11)) with 8. lia.
Qed.

(** From the numerator [h] of the hue, in units of 1/256, to the hue in
    units of 1/2048. *)
Lemma hue_pos_chain h lo hi lo' hi' :
  fbetween false lo hi (-8) h ->
  0 <= lo' -> 0 < hi' < 2048 -> 6 * lo' <= 8 * lo -> 8 * hi <= 6 * hi' ->
  exists u,
    (h6 <- truediv (PyFloat h) (PyFloat (lit 6 0)) ;;
     mod_ h6 (PyFloat (lit 1 0))) = inr (PyFloat u) /\
    fbetween false lo' hi' (-11) u.
Proof.
  intros Hh Hlo' Hhi' H1 H2. unfold truediv. cbn [to_float bind ret Monad_either].
  change (lit 6 0) with six. change (lit 1 0) with one.
  assert (P53 : 2 ^ 53 = 9007199254740992) by reflexivity.
  destruct (div6_between false lo hi (-8) lo' hi' (-11) h Hh
              ltac:(lia) ltac:(lia) ltac:(lia)
              (proj1 (me_le_8_11 _ _) H1) (proj1 (me_le_11_8 _ _) H2))
    as (h6 & E6 & H6).
  rewrite E6. cbn [bind ret Monad_either mod_ to_float].
  destruct (float_mod_pos_lo h6 lo' hi' (-11) H6 ltac:(lia)
              ltac:(change (2 ^ (- -11)) with 2048; lia)
              ltac:(lia) ltac:(lia)) as (u & Eu & Hu).
  rewrite Eu. cbn [bind ret Monad_either]. eauto.
Qed.

Lemma hue_neg_chain h lo hi lo' hi' :
  fbetween true lo hi (-8) h ->
  0 < lo' <= hi' -> hi' < 2048 -> 6 * lo' <= 8 * lo -> 8 * hi <= 6 * hi' ->
  exists u,
    (h6 <- truediv (PyFloat h) (PyFloat (lit 6 0)) ;;
     mod_ h6 (PyFloat (lit 1 0))) = inr (PyFloat u) /\
    fbetween false (2048 - hi') (2048 - lo') (-11) u.
Proof.
  intros Hh Hlo' Hhi' H1 H2. unfold truediv. cbn [to_float bind ret Monad_either].
  change (lit 6 0) with six. change (lit 1 0) with one.
  assert (P53 : 2 ^ 53 = 9007199254740992) by reflexivity.
  destruct (div6_between true lo hi (-8) lo' hi' (-11) h Hh
              ltac:(lia) ltac:(lia) ltac:(lia)
              (proj1 (me_le_8_11 _ _) H1) (proj1 (me_le_11_8 _ _) H2))
    as (h6 & E6 & H6).
  rewrite E6. cbn [bind ret Monad_either mod_ to_float].
  destruct (float_mod_neg h6 lo' hi' (-11) H6 ltac:(lia)
              ltac:(change (2 ^ (- -11)) with 2048; lia) ltac:(lia))
    as (u & Eu & Hu).
  rewrite Eu. cbn [bind ret Monad_either].
  change (2 ^ (- -11)) with 2048 in Hu. eauto.
Qed.

Lemma rgb_to_hsv_sector r g b :
  0 <= r <= 255 -> 0 <= g <= 255 -> 0 <= b <= 255 ->
  exists u s v,
    colorsys.rgb_to_hsv (PyInt r) (PyInt g) (PyInt b) = inr (PyFloat u, s, v) /\
    (g <= r -> b <= g -> fbetween false 0 342 (-11) u) /\
    (b <= r -> g < b -> fbetween false 1706 2047 (-11) u) /\
    (r < g -> b <= g -> fbetween false 341 1024 (-11) u) /\
    (r < b -> g < b -> fbetween false 1024 1707 (-11) u).
Proof.
  intros Hr Hg Hb. unfold colorsys.rgb_to_hsv.
  rewrite max3_int, min3_int.
  set (Mx := Z.max (Z.max r g) b). set (mn := Z.min (Z.min r g) b).
  change (sub (PyInt Mx) (PyInt mn)) with (@inr exn _ (PyInt (Mx - mn))).
  cbn [bind Monad_either]. rewrite eqb_int.
  destruct (Z.eqb_spec mn Mx) as [Heq|Hne].
  { exists (lit 0 0). do 2 eexists. split; [reflexivity|].
    repeat split; intros; try (exfalso; unfold Mx, mn in *; lia).
    cbn. lia. }
  set (n := Mx - mn).
  assert (Hn : 0 < n <= 255) by (unfold n, Mx, mn; lia).
  unfold truediv at 1.
  destruct (ratio_between n Mx) as (qs & Es & _); try (unfold n, Mx, mn; lia).
  rewrite Es. cbn [bind ret Monad_either].
  change (sub (PyInt Mx) (PyInt r)) with (@inr exn _ (PyInt (Mx - r))).
  change (sub (PyInt Mx) (PyInt g)) with (@inr exn _ (PyInt (Mx - g))).
  change (sub (PyInt Mx) (PyInt b)) with (@inr exn _ (PyInt (Mx - b))).
  cbn [bind Monad_either].
  destruct (ratio_between (Mx - r) n) as (rc & Er & Hrc & Hrc1 & Hrc2);
    try (unfold n, Mx, mn; lia).
  destruct (ratio_between (Mx - g) n) as (gc & Eg & Hgc & Hgc1 & Hgc2);
    try (unfold n, Mx, mn; lia).
  destruct (ratio_between (Mx - b) n) as (bc & Eb & Hbc & Hbc1 & Hbc2);
    try (unfold n, Mx, mn; lia).
  unfold truediv at 1. rewrite Er. cbn [bind ret Monad_either].
  unfold truediv at 1. rewrite Eg. cbn [bind ret Monad_either].
  unfold truediv at 1. rewrite Eb. cbn [bind ret Monad_either].
  rewrite !eqb_int.
  assert (Hh : exists h,
    (if r =? Mx then sub (PyFloat bc) (PyFloat gc)
     else if g =? Mx
          then t <- add (PyFloat (lit 2 0)) (PyFloat rc) ;; sub t (PyFloat bc)
          else t <- add (PyFloat (lit 4 0)) (PyFloat gc) ;; sub t (PyFloat rc))
    = inr (PyFloat h) /\
    (g <= r -> b <= g -> fbetween false 0 256 (-8) h) /\
    (b <= r -> g < b -> fbetween true 1 256 (-8) h) /\
    (r < g -> b <= g -> fbetween false 256 768 (-8) h) /\
    (r < b -> g < b -> fbetween false 768 1280 (-8) h)).
  { destruct (Z.eqb_spec r Mx) as [HrM|HrM].
    - eexists. split; [reflexivity|].
      split; [|split; [|split]]; intros C1 C2;
        try (exfalso; unfold Mx, mn in *; lia).
      + assert (Hbn : Mx - b = n) by (unfold n, Mx, mn in *; lia).
        specialize (Hbc1 Hbn).
        pose proof (SFsub_pos_pos (-8) 256 256 0 256 bc gc Hbc1 Hgc) as H.
        eapply fbetween_weaken; [apply H; lia| |]; lia.
      + assert (Hgn : Mx - g = n) by (unfold n, Mx, mn in *; lia).
        assert (Hblt : Mx - b < n) by (unfold n, Mx, mn in *; lia).
        specialize (Hgc1 Hgn). specialize (Hbc2 Hblt).
        pose proof (SFsub_pos_neg (-8) 0 255 256 256 bc gc Hbc2 Hgc1) as H.
        apply H; lia.
    - destruct (Z.eqb_spec g Mx) as [HgM|HgM].
      + eexists. split; [reflexivity|].
        split; [|split; [|split]]; intros C1 C2;
          try (exfalso; unfold Mx, mn in *; lia).
        pose proof (SFadd_pos_pos (-8) 512 512 0 256 _ _ two_between Hrc) as Ht.
        specialize (Ht ltac:(lia) ltac:(lia) ltac:(lia) ltac:(lia)).
        pose proof (SFsub_pos_pos (-8) _ _ _ _ _ _ Ht Hbc) as H.
        eapply fbetween_weaken; [apply H; lia| |]; lia.
      + eexists. split; [reflexivity|].
        split; [|split; [|split]]; intros C1 C2;
          try (exfalso; unfold Mx, mn in *; lia).
        pose proof (SFadd_pos_pos (-8) 1024 1024 0 256 _ _ four_between Hgc) as Ht.
        specialize (Ht ltac:(lia) ltac:(lia) ltac:(lia) ltac:(lia)).
        pose proof (SFsub_pos_pos (-8) _ _ _ _ _ _ Ht Hrc) as H.
        eapply fbetween_weaken; [apply H; lia| |]; lia. }
  destruct Hh as (h & Eh & S1 & S2 & S3 & S4).
  cbn [bind ret Monad_either] in Eh |- *. rewrite Eh.
  cbn [bind ret Monad_either].
  assert (Hu : exists u,
    (h6 <- truediv (PyFloat h) (PyFloat (lit 6 0)) ;;
     mod_ h6 (PyFloat (lit 1 0))) = inr (PyFloat u) /\
    (g <= r -> b <= g -> fbetween false 0 342 (-11) u) /\
    (b <= r -> g < b -> fbetween false 1706 2047 (-11) u) /\
    (r < g -> b <= g -> fbetween false 341 1024 (-11) u) /\
    (r < b -> g < b -> fbetween false 1024 1707 (-11) u)).
  { destruct (Z_le_gt_dec g r) as [Cgr|Cgr].
    - destruct (Z_le_gt_dec b g) as [Cbg|Cbg].
      + destruct (hue_pos_chain h 0 256 0 342 (S1 Cgr Cbg)) as (u & Eu & Hu);
          try lia.
        exists u. split; [exact Eu|].
        repeat split; intros; try (exfalso; lia); assumption.
      + destruct (Z_le_gt_dec b r) as [Cbr|Cbr].
        * destruct (hue_neg_chain h 1 256 1 342 (S2 Cbr ltac:(lia)))
            as (u & Eu & Hu); try lia.
          exists u. split; [exact Eu|].
          repeat split; intros; try (exfalso; lia); assumption.
        * destruct (hue_pos_chain h 768 1280 1024 1707
                                  (S4 ltac:(lia) ltac:(lia)))
            as (u & Eu & Hu); try lia.
          exists u. split; [exact Eu|].
          repeat split; intros; try (exfalso; lia); assumption.
    - destruct (Z_le_gt_dec b g) as [Cbg|Cbg].
      + destruct (hue_pos_chain h 256 768 341 1024
                                (S3 ltac:(lia) Cbg))
          as (u & Eu & Hu); try lia.
        exists u. split; [exact Eu|].
        repeat split; intros; try (exfalso; lia); assumption.
      + destruct (hue_pos_chain h 768 1280 1024 1707
                                (S4 ltac:(lia) ltac:(lia)))
          as (u & Eu & Hu); try lia.
        exists u. split; [exact Eu|].
        repeat split; intros; try (exfalso; lia); assumption. }
  destruct Hu as (u & Eu & Hu).
  cbn [bind ret Monad_either] in Eu.
  destruct (truediv (PyFloat h) (PyFloat (lit 6 0))) as [?|h6];
    [discriminate Eu|].
  destruct (mod_ h6 (PyFloat (lit 1 0))) as [?|w]; [discriminate Eu|].
  inv Eu. do 3 eexists. split; [reflexivity|assumption].
Qed.

(** X11: for integer components between 0 and 255 the colour byte tells
    the sector of the colour wheel: red largest gives 0..42 (green at least
    blue) or 212..254 (blue above green), green largest gives 42..127, blue
    largest gives 127..212. *)
Theorem convert_color_sector r g b :
  0 <= r <= 255 -> 0 <= g <= 255 -> 0 <= b <= 255 ->
  exists z,
    convert_color (PyInt r, PyInt g, PyInt b) = inr (PyInt z) /\
    (g <= r -> b <= g -> 0 <= z <= 42) /\
    (b <= r -> g < b -> 212 <= z <= 254) /\
    (r < g -> b <= g -> 42 <= z <= 127) /\
    (r < b -> g < b -> 127 <= z <= 212).
Proof.
  intros Hr Hg Hb.
  destruct (rgb_to_hsv_sector r g b Hr Hg Hb)
    as (u & s & v & E & S1 & S2 & S3 & S4).
  unfold convert_color. rewrite E. cbn [bind Monad_either fst].
  assert (Hz : exists z,
             (x <- mul (PyFloat u) (PyInt MAX_COLOR) ;; floor x)
             = inr (PyInt z)).
  { destruct (Z_le_gt_dec g r); destruct (Z_le_gt_dec b g);
      destruct (Z_le_gt_dec b r).
    all: first
      [ destruct (hue_byte_lo u _ _ _ (S1 ltac:(lia) ltac:(lia)))
          as (z & Ez & _); [lia|lia|lia|lia|]; eauto; fail
      | destruct (hue_byte_lo u _ _ _ (S2 ltac:(lia) ltac:(lia)))
          as (z & Ez & _); [lia|lia|lia|lia|]; eauto; fail
      | destruct (hue_byte_lo u _ _ _ (S3 ltac:(lia) ltac:(lia)))
          as (z & Ez & _); [lia|lia|lia|lia|]; eauto; fail
      | destruct (hue_byte_lo u _ _ _ (S4 ltac:(lia) ltac:(lia)))
          as (z & Ez & _); [lia|lia|lia|lia|]; eauto ]. }
  destruct Hz as (z & Ez). exists z. split; [exact Ez|].
  split; [|split; [|split]]; intros C1 C2.
  - destruct (hue_byte_lo u 0 342 (-11) (S1 C1 C2)) as (z' & Ez' & Hz');
      try lia.
    rewrite Ez in Ez'. assert (z' = z) by congruence. subst z'.
    change ((255 * 0) / 2 ^ (- -11)) with 0 in Hz'.
    change ((255 * 342) / 2 ^ (- -11)) with 42 in Hz'. exact Hz'.
  - destruct (hue_byte_lo u 1706 2047 (-11) (S2 C1 C2)) as (z' & Ez' & Hz');
      try lia.
    rewrite Ez in Ez'. assert (z' = z) by congruence. subst z'.
    change ((255 * 1706) / 2 ^ (- -11)) with 212 in Hz'.
    change ((255 * 2047) / 2 ^ (- -11)) with 254 in Hz'. exact Hz'.
  - destruct (hue_byte_lo u 341 1024 (-11) (S3 C1 C2)) as (z' & Ez' & Hz');
      try lia.
    rewrite Ez in Ez'. assert (z' = z) by congruence. subst z'.
    change ((255 * 341) / 2 ^ (- -11)) with 42 in Hz'.
    change ((255 * 1024) / 2 ^ (- -11)) with 127 in Hz'. exact Hz'.
  - destruct (hue_byte_lo u 1024 1707 (-11) (S4 C1 C2)) as (z' & Ez' & Hz');
      try lia.
    rewrite Ez in Ez'. assert (z' = z) by congruence. subst z'.
    change ((255 * 1024) / 2 ^ (- -11)) with 127 in Hz'.
    change ((255 * 1707) / 2 ^ (- -11)) with 212 in Hz'. exact Hz'.
Qed.

Lemma convert_color_sector_witness :
  exists z,
    convert_color (PyInt 10, PyInt 200, PyInt 30) = inr (PyInt z) /\
    42 <= z <= 127.
Proof.
  destruct (convert_color_sector 10 200 30 ltac:(lia) ltac:(lia) ltac:(lia))
    as (z & Ez & _ & _ & S3 & _).
  exists z. split; [exact Ez|]. apply S3; lia.
Defined.

(** ** The quotient of two integers depends on their ratio only *)

Lemma new_location_rem b r :
  0 <= r < b -> new_location b r = loc_of_rem r b.
Proof.
  intros Hr. unfold new_location, new_location_even, new_location_odd, loc_of_rem.
  generalize (Zmod_even b).
  destruct (Z.even b); intros Hev; destruct (r =? 0); try reflexivity.
  f_equal. pose proof (Z.div_mod b 2 ltac:(lia)) as Hdm.
  destruct (Z.compare_spec (2 * r + 1) b); symmetry;
    [change (2 * r < b)|change (2 * r < b)|change (2 * r > b)]; lia.
Qed.

Lemma round_aux_finish s M E r b :
  0 <= M -> 0 <= r < b ->
  binary_round_aux prec emax s M E (loc_of_rem r b)
  = round_finish s
      (rne_div (M * b + r)
               (b * 2 ^ Z.max (fexp prec emax (Zdigits2 M + E) - E) 0))
      (E + Z.max (fexp prec emax (Zdigits2 M + E) - E) 0).
Proof.
  intros HM Hr. unfold binary_round_aux, round_finish, shr_fexp at 1.
  pose proof (shr_loc M r b E (fexp prec emax (Zdigits2 M + E) - E) HM Hr) as HL.
  destruct (shr (shr_record_of_loc M (loc_of_rem r b)) E
                (fexp prec emax (Zdigits2 M + E) - E)) as [mrs e'].
  destruct HL as (-> & Hq & Hl).
  rewrite Hq, Hl. reflexivity.
Qed.

(** What [SFdiv_core_binary] hands to the rounding. *)
Lemma SFdiv_core_exact mx my :
  let e' := Z.min (fexp prec emax (Zdigits2 (Zpos mx) - Zdigits2 (Zpos my))) 0 in
  SFdiv_core_binary prec emax (Zpos mx) 0 (Zpos my) 0
  = ((Zpos mx * 2 ^ (- e')) / Zpos my, e',
     loc_of_rem ((Zpos mx * 2 ^ (- e')) mod Zpos my) (Zpos my)).
Proof.
  cbn zeta. unfold SFdiv_core_binary.
  rewrite !Z.add_0_r, Z.sub_diag. cbn [Z.sub Z.opp Z.add].
  set (e' := Z.min (fexp prec emax (Zdigits2 (Zpos mx) - Zdigits2 (Zpos my))) 0).
  replace (0 - e') with (- e') by lia.
  assert (Hs : 0 <= - e') by (unfold e'; lia).
  set (m' := match - e' with
             | 0 => Zpos mx
             | Zpos _ => Z.shiftl (Zpos mx) (- e')
             | Zneg _ => 0
             end).
  assert (Hm' : m' = Zpos mx * 2 ^ (- e')).
  { unfold m'. destruct (- e') as [|p|p] eqn:Es.
    - cbn. lia.
    - rewrite Z.shiftl_mul_pow2 by lia. reflexivity.
    - lia. }
  rewrite Hm'.
  pose proof (Z.mod_pos_bound (Zpos mx * 2 ^ (- e')) (Zpos my) ltac:(lia)) as Hr.
  unfold Z.div, Z.modulo in *.
  destruct (Z.div_eucl (Zpos mx * 2 ^ (- e')) (Zpos my)) as [q r].
  rewrite new_location_rem by exact Hr. reflexivity.
Qed.

Lemma sc_scale_l E k m e : sc E (k * m) e = k * sc E m e.
Proof. unfold sc. lia. Qed.

Lemma me_le_scale_both k m1 e1 m2 e2 :
  0 < k -> (me_le (k * m1) e1 (k * m2) e2 <-> me_le m1 e1 m2 e2).
Proof.
  intros Hk. unfold me_le. rewrite !sc_scale_l. split; intros H; nia.
Qed.

Lemma is_mag_scale k a b d :
  0 < k -> (is_mag (k * a) (k * b) d <-> is_mag a b d).
Proof.
  intros Hk. unfold is_mag.
  rewrite !(me_le_scale_both k) by exact Hk. reflexivity.
Qed.

Lemma me_le_exp_mono b d d' : 0 < b -> d <= d' -> me_le b d b d'.
Proof.
  intros Hb Hd. unfold me_le, sc.
  replace (Z.min d d') with d by lia. rewrite Z.sub_diag.
  change (2 ^ 0) with 1.
  assert (0 < 2 ^ (d' - d)) by (apply Z.pow_pos_nonneg; lia). nia.
Qed.

Lemma is_mag_unique a b d d' :
  0 < b -> is_mag a b d -> is_mag a b d' -> d = d'.
Proof.
  intros Hb [L1 U1] [L2 U2].
  destruct (Z.lt_trichotomy d d') as [H|[H|H]]; [exfalso|exact H|exfalso].
  - apply U1. eapply me_le_trans; [|exact L2].
    apply me_le_exp_mono; lia.
  - apply U2. eapply me_le_trans; [|exact L1].
    apply me_le_exp_mono; lia.
Qed.

(** The magnitude of [q * 2^e'] when [q] is the integer part of
    [a / (b * 2^e')]. *)
Lemma quot_mag a b e' :
  0 < a -> 0 < b -> e' <= 0 -> 0 < (a * 2 ^ (- e')) / b ->
  is_mag a b (Zdigits2 ((a * 2 ^ (- e')) / b) + e').
Proof.
  intros Ha Hb He Hq.
  set (q := (a * 2 ^ (- e')) / b) in *.
  pose proof (Zdigits2_bounds q Hq) as [Hlo Hhi].
  assert (Hdq : 0 < Zdigits2 q) by (destruct q; cbn in *; lia).
  pose proof (Z.div_mod (a * 2 ^ (- e')) b ltac:(lia)) as Hdm.
  pose proof (Z.mod_pos_bound (a * 2 ^ (- e')) b Hb) as Hr.
  fold q in Hdm.
  assert (Hp : 0 < 2 ^ (- e')) by (apply Z.pow_pos_nonneg; lia).
  set (d := Zdigits2 q) in *.
  split.
  - apply (me_le_scale e'); try lia. unfold sc.
    replace (d + e' - 1 - e') with (d - 1) by lia.
    replace (0 - e') with (- e') by lia. nia.
  - intros H.
    apply (proj1 (me_le_scale e' b (d + e') a 0 ltac:(lia) ltac:(lia))) in H.
    unfold sc in H.
    replace (d + e' - e') with d in H by lia.
    replace (0 - e') with (- e') in H by lia. nia.
Qed.

Lemma is_mag_exists a b :
  0 < a -> 0 < b ->
  exists d, is_mag a b d /\ Zdigits2 a - Zdigits2 b <= d.
Proof.
  intros Ha Hb.
  pose proof (Zdigits2_bounds a Ha) as [Alo Ahi].
  pose proof (Zdigits2_bounds b Hb) as [Blo Bhi].
  assert (Hda : 0 < Zdigits2 a) by (destruct a; cbn in *; lia).
  assert (Hdb : 0 < Zdigits2 b) by (destruct b; cbn in *; lia).
  set (d0 := Zdigits2 a - Zdigits2 b).
  (* b * 2^(d0 - 1) <= a < b * 2^(d0 + 1) *)
  assert (L : me_le b (d0 - 1) a 0).
  { set (E := Z.min (d0 - 1) 0).
    apply (me_le_scale E); try (unfold E; lia). unfold sc.
    apply Z.le_trans with (2 ^ Zdigits2 b * 2 ^ (d0 - 1 - E)).
    - apply Z.mul_le_mono_nonneg_r; [apply Z.pow_nonneg; lia|lia].
    - rewrite <- Z.pow_add_r by (unfold E; lia).
      apply Z.le_trans with (2 ^ (Zdigits2 a - 1) * 2 ^ (0 - E)).
      + rewrite <- Z.pow_add_r by (unfold E; lia).
        apply Z.pow_le_mono_r; unfold d0, E; lia.
      + apply Z.mul_le_mono_nonneg_r; [apply Z.pow_nonneg; unfold E; lia|lia]. }
  assert (U : ~ me_le b (d0 + 1) a 0).
  { intros H. set (E := Z.min (d0 + 1) 0).
    apply (proj1 (me_le_scale E b (d0 + 1) a 0 ltac:(unfold E; lia)
                              ltac:(unfold E; lia))) in H.
    unfold sc in H.
    assert (H1 : 2 ^ (Zdigits2 b - 1) * 2 ^ (d0 + 1 - E) <= b * 2 ^ (d0 + 1 - E)).
    { apply Z.mul_le_mono_nonneg_r; [apply Z.pow_nonneg; unfold E; lia|lia]. }
    assert (H2 : a * 2 ^ (0 - E) < 2 ^ Zdigits2 a * 2 ^ (0 - E)).
    { apply Z.mul_lt_mono_pos_r; [apply Z.pow_pos_nonneg; unfold E; lia|lia]. }
    rewrite <- Z.pow_add_r in H1, H2 by (unfold E; lia).
    replace (Zdigits2 b - 1 + (d0 + 1 - E)) with (Zdigits2 a + (0 - E))
      in H1 by (unfold d0; lia).
    lia. }
  destruct (Z_le_gt_dec (sc (Z.min d0 0) b d0) (sc (Z.min d0 0) a 0)) as [C|C].
  - exists (d0 + 1). split; [|lia]. split; [|exact U].
    replace (d0 + 1 - 1) with d0 by lia. exact C.
  - exists d0. split; [|lia]. split; [exact L|].
    unfold me_le. lia.
Qed.

Lemma rne_quot_eq a b e' c :
  0 < b -> e' <= 0 -> e' <= c ->
  rne_div (a * 2 ^ (- e')) (b * 2 ^ (c - e')) = rne_quot a b c.
Proof.
  intros Hb He Hc. unfold rne_quot.
  destruct (Z_le_gt_dec c 0) as [C|C].
  - replace (Z.max (- c) 0) with (- c) by lia.
    replace (Z.max c 0) with 0 by lia.
    change (2 ^ 0) with 1. rewrite Z.mul_1_r.
    replace (- e') with (- c + (c - e')) by lia.
    rewrite Z.pow_add_r, Z.mul_assoc by lia.
    apply rne_div_scale; [lia|apply Z.pow_pos_nonneg; lia].
  - replace (Z.max (- c) 0) with 0 by lia.
    replace (Z.max c 0) with c by lia.
    change (2 ^ 0) with 1. rewrite Z.mul_1_r.
    replace (c - e') with (c + - e') by lia.
    rewrite Z.pow_add_r, Z.mul_assoc by lia.
    apply rne_div_scale; [|apply Z.pow_pos_nonneg; lia].
    assert (0 < 2 ^ c) by (apply Z.pow_pos_nonneg; lia). nia.
Qed.

(** The quotient of two positive integers: the exact quotient, rounded at
    the exponent that its magnitude gives. *)
Lemma SFdiv_int_spec sx sy a b :
  exists d,
    is_mag (Zpos a) (Zpos b) d /\
    SFdiv prec emax (S754_finite sx a 0) (S754_finite sy b 0)
    = round_finish (xorb sx sy)
        (rne_quot (Zpos a) (Zpos b) (fexp prec emax d)) (fexp prec emax d).
Proof.
  cbn [SFdiv]. rewrite SFdiv_core_exact.
  set (e' := Z.min (fexp prec emax (Zdigits2 (Zpos a) - Zdigits2 (Zpos b))) 0).
  assert (He' : -1074 <= e' <= 0).
  { unfold e'. pose proof (fexp_ge_emin (Zdigits2 (Zpos a) - Zdigits2 (Zpos b))).
    lia. }
  assert (Hp : 0 < 2 ^ (- e')) by (apply Z.pow_pos_nonneg; lia).
  pose proof (Z.div_mod (Zpos a * 2 ^ (- e')) (Zpos b) ltac:(lia)) as Hdm.
  pose proof (Z.mod_pos_bound (Zpos a * 2 ^ (- e')) (Zpos b) ltac:(lia)) as Hr.
  set (q := (Zpos a * 2 ^ (- e')) / Zpos b) in *.
  set (r := (Zpos a * 2 ^ (- e')) mod Zpos b) in *.
  assert (Hq : 0 <= q) by (apply Z.div_pos; lia).
  rewrite (round_aux_finish _ q e' r (Zpos b) Hq Hr).
  replace (q * Zpos b + r) with (Zpos a * 2 ^ (- e')) by lia.
  destruct (is_mag_exists (Zpos a) (Zpos b) ltac:(lia) ltac:(lia))
    as (d & Hd & Hdd).
  exists d. split; [exact Hd|].
  assert (Hc : e' + Z.max (fexp prec emax (Zdigits2 q + e') - e') 0
               = fexp prec emax d).
  { destruct (Z.eq_dec q 0) as [Hq0|Hq0].
    - rewrite Hq0. cbn [Zdigits2 Z.add].
      (* the quotient is below the least exponent *)
      assert (Hlt : Zpos a * 2 ^ (- e') < Zpos b).
      { rewrite Hdm, Hq0. lia. }
      assert (Hde : d <= e').
      { destruct (Z_le_gt_dec d e') as [|Hgt]; [assumption|exfalso].
        destruct Hd as [L _].
        apply (proj1 (me_le_scale e' (Zpos b) (d - 1) (Zpos a) 0
                                  ltac:(lia) ltac:(lia))) in L.
        unfold sc in L. replace (0 - e') with (- e') in L by lia.
        assert (0 < 2 ^ (d - 1 - e')) by (apply Z.pow_pos_nonneg; lia).
        nia. }
      rewrite !fexp_eq. unfold e' in *. rewrite fexp_eq in *. lia.
    - assert (Hqp : 0 < q) by lia.
      pose proof (quot_mag (Zpos a) (Zpos b) e' ltac:(lia) ltac:(lia)
                    ltac:(lia) Hqp) as Hm.
      fold q in Hm.
      pose proof (is_mag_unique (Zpos a) (Zpos b) d (Zdigits2 q + e')
                    ltac:(lia) Hd Hm) as Hdq. subst d.
      rewrite !fexp_eq. unfold e' in *. rewrite fexp_eq in *. lia. }
  rewrite Hc.
  replace (Z.max (fexp prec emax (Zdigits2 q + e') - e') 0)
    with (fexp prec emax d - e') by lia.
  rewrite rne_quot_eq by lia. reflexivity.
Qed.

Lemma rne_quot_scale k a b c :
  0 < k -> 0 < b -> rne_quot (k * a) (k * b) c = rne_quot a b c.
Proof.
  intros Hk Hb. unfold rne_quot.
  replace (k * a * 2 ^ Z.max (- c) 0) with (a * 2 ^ Z.max (- c) 0 * k) by lia.
  replace (k * b * 2 ^ Z.max c 0) with (b * 2 ^ Z.max c 0 * k) by lia.
  apply rne_div_scale; [|exact Hk].
  assert (0 < 2 ^ Z.max c 0) by (apply Z.pow_pos_nonneg; lia). nia.
Qed.

Lemma SFdiv_int_scale sx sy k a b :
  SFdiv prec emax (S754_finite sx (k * a) 0) (S754_finite sy (k * b) 0)
  = SFdiv prec emax (S754_finite sx a 0) (S754_finite sy b 0).
Proof.
  destruct (SFdiv_int_spec sx sy a b) as (d & Hd & ->).
  destruct (SFdiv_int_spec sx sy (k * a) (k * b)) as (d' & Hd' & ->).
  rewrite !Pos2Z.inj_mul in *.
  apply (proj1 (is_mag_scale (Zpos k) (Zpos a) (Zpos b) d' ltac:(lia))) in Hd'.
  rewrite (is_mag_unique (Zpos a) (Zpos b) d' d ltac:(lia) Hd' Hd).
  rewrite rne_quot_scale by lia. reflexivity.
Qed.

(** The quotient of two integers is the quotient of any common multiple of
    them. *)
Lemma int_truediv_scale k a b :
  0 < k -> int_truediv (k * a) (k * b) = int_truediv a b.
Proof.
  intros Hk. destruct k as [|k|k]; try lia.
  unfold int_truediv.
  destruct b as [|b|b]; [reflexivity| |];
    destruct a as [|a|a]; try reflexivity;
    cbn [Z.mul Z.eqb Z.ltb Z.compare Z.abs Z.to_pos];
    rewrite SFdiv_int_scale; reflexivity.
Qed.

Lemma truediv_int_scale k a b :
  0 < k ->
  truediv (PyInt (k * a)) (PyInt (k * b)) = truediv (PyInt a) (PyInt b).
Proof.
  intros Hk. cbn [truediv]. rewrite int_truediv_scale by exact Hk.
  reflexivity.
Qed.

(** X12: the colour byte depends only on the ratios of the components:
    multiplying three integer components by the same positive integer
    leaves it, or the error raised, as it was.  Red, yellow, green, cyan,
    blue and magenta of any positive intensity therefore give 0, 42, 85,
    127, 170 and 212. *)
Theorem convert_color_scale :
  (forall k r g b,
      0 < k ->
      convert_color (PyInt (k * r), PyInt (k * g), PyInt (k * b))
      = convert_color (PyInt r, PyInt g, PyInt b)) /\
  (forall n,
      0 < n ->
      convert_color (PyInt n, PyInt 0, PyInt 0) = inr (PyInt 0) /\
      convert_color (PyInt n, PyInt n, PyInt 0) = inr (PyInt 42) /\
      convert_color (PyInt 0, PyInt n, PyInt 0) = inr (PyInt 85) /\
      convert_color (PyInt 0, PyInt n, PyInt n) = inr (PyInt 127) /\
      convert_color (PyInt 0, PyInt 0, PyInt n) = inr (PyInt 170) /\
      convert_color (PyInt n, PyInt 0, PyInt n) = inr (PyInt 212)).
Proof.
  assert (S : forall k r g b,
             0 < k ->
             convert_color (PyInt (k * r), PyInt (k * g), PyInt (k * b))
             = convert_color (PyInt r, PyInt g, PyInt b)).
  { intros k r g b Hk. unfold convert_color, colorsys.rgb_to_hsv.
    rewrite !max3_int, !min3_int.
    rewrite !Z.mul_max_distr_nonneg_l, !Z.mul_min_distr_nonneg_l by lia.
    set (Mx := Z.max (Z.max r g) b). set (mn := Z.min (Z.min r g) b).
    change (sub (PyInt (k * Mx)) (PyInt (k * mn)))
      with (@inr exn _ (PyInt (k * Mx - k * mn))).
    change (sub (PyInt Mx) (PyInt mn)) with (@inr exn _ (PyInt (Mx - mn))).
    change (sub (PyInt (k * Mx)) (PyInt (k * r)))
      with (@inr exn _ (PyInt (k * Mx - k * r))).
    change (sub (PyInt (k * Mx)) (PyInt (k * g)))
      with (@inr exn _ (PyInt (k * Mx - k * g))).
    change (sub (PyInt (k * Mx)) (PyInt (k * b)))
      with (@inr exn _ (PyInt (k * Mx - k * b))).
    change (sub (PyInt Mx) (PyInt r)) with (@inr exn _ (PyInt (Mx - r))).
    change (sub (PyInt Mx) (PyInt g)) with (@inr exn _ (PyInt (Mx - g))).
    change (sub (PyInt Mx) (PyInt b)) with (@inr exn _ (PyInt (Mx - b))).
    rewrite <- !Z.mul_sub_distr_l.
    cbn [bind Monad_either]. rewrite !eqb_int.
    rewrite !truediv_int_scale by exact Hk.
    replace (k * mn =? k * Mx) with (mn =? Mx)
      by (destruct (Z.eqb_spec mn Mx), (Z.eqb_spec (k * mn) (k * Mx));
          try reflexivity; nia).
    replace (k * r =? k * Mx) with (r =? Mx)
      by (destruct (Z.eqb_spec r Mx), (Z.eqb_spec (k * r) (k * Mx));
          try reflexivity; nia).
    replace (k * g =? k * Mx) with (g =? Mx)
      by (destruct (Z.eqb_spec g Mx), (Z.eqb_spec (k * g) (k * Mx));
          try reflexivity; nia).
    destruct (mn =? Mx); [reflexivity|].
    destruct (truediv (PyInt (Mx - mn)) (PyInt Mx)) as [?|s];
      cbn [bind Monad_either]; [reflexivity|].
    destruct (truediv (PyInt (Mx - r)) (PyInt (Mx - mn))) as [?|rc];
      cbn [bind Monad_either]; [reflexivity|].
    destruct (truediv (PyInt (Mx - g)) (PyInt (Mx - mn))) as [?|gc];
      cbn [bind Monad_either]; [reflexivity|].
    destruct (truediv (PyInt (Mx - b)) (PyInt (Mx - mn))) as [?|bc];
      cbn [bind Monad_either]; [reflexivity|].
    destruct (r =? Mx); [|destruct (g =? Mx)];
      cbn [bind ret Monad_either];
      repeat match goal with
             | |- context [add ?x ?y] =>
                 destruct (add x y) as [?|?]; try reflexivity
             | |- context [sub ?x ?y] =>
                 destruct (sub x y) as [?|?]; try reflexivity
             | |- context [truediv ?x ?y] =>
                 destruct (truediv x y) as [?|?]; try reflexivity
             | |- context [mod_ ?x ?y] =>
                 destruct (mod_ x y) as [?|?]; try reflexivity
             end. }
  split; [exact S|].
  intros n Hn.
  pose proof (S n 1 0 0 Hn) as R.
  pose proof (S n 1 1 0 Hn) as Y.
  pose proof (S n 0 1 0 Hn) as G.
  pose proof (S n 0 1 1 Hn) as C.
  pose proof (S n 0 0 1 Hn) as B.
  pose proof (S n 1 0 1 Hn) as M.
  rewrite Z.mul_1_r, ?Z.mul_0_r in R, Y, G, C, B, M.
  rewrite R, Y, G, C, B, M. repeat split; vm_compute; reflexivity.
Qed.

Lemma convert_color_scale_witness :
  convert_color (PyInt (3 * 10), PyInt (3 * 200), PyInt (3 * 30))
  = convert_color (PyInt 10, PyInt 200, PyInt 30).
Proof.
  apply (proj1 convert_color_scale 3 10 200 30). lia.
Defined.


(** ** The brightness byte of a whole percent *)

(** X14: the byte of the brightness [k / 100], for [k] from 0 to 100, is
    [k], except for 7, 14, 28, 55 and 56 percent, where the binary64
    product lies just above [k] and the ceiling gives [k + 1]. *)
Theorem convert_brightness_percent k :
  0 <= k <= 100 ->
  (x <- truediv (PyInt k) (PyInt 100) ;; convert_brightness x)
  = inr (PyInt (if existsb (Z.eqb k) [7; 14; 28; 55; 56] then k + 1 else k)).
Proof.
  intros Hk.
  assert (A : forallb
                (fun n =>
                   match (x <- truediv (PyInt (Z.of_nat n)) (PyInt 100) ;;
                          convert_brightness x) with
                   | inr (PyInt z) =>
                       z =? (if existsb (Z.eqb (Z.of_nat n)) [7; 14; 28; 55; 56]
                             then Z.of_nat n + 1 else Z.of_nat n)
                   | _ => false
                   end) (seq 0 101) = true)
    by (vm_compute; reflexivity).
  rewrite forallb_forall in A.
  specialize (A (Z.to_nat k) ltac:(apply in_seq; lia)).
  rewrite Z2Nat.id in A by lia.
  destruct (x <- truediv (PyInt k) (PyInt 100) ;; convert_brightness x)
    as [e|[z|x]]; try discriminate.
  apply Z.eqb_eq in A. rewrite A. reflexivity.
Qed.

Lemma convert_brightness_percent_witness :
  (x <- truediv (PyInt 7) (PyInt 100) ;; convert_brightness x) = inr (PyInt 8) /\
  (x <- truediv (PyInt 50) (PyInt 100) ;; convert_brightness x)
  = inr (PyInt 50).
Proof.
  split.
  - apply (convert_brightness_percent 7). lia.
  - apply (convert_brightness_percent 50). lia.
Defined.

(** ** The colour byte of non-negative integers of any size *)

Lemma SFsub_pos_le g lx hx ly hy x y :
  fbetween false lx hx g x -> fbetween false ly hy g y ->
  0 <= lx <= hx -> 0 <= ly <= hy -> hx <= ly -> 0 < hy - lx < 2 ^ 53 ->
  -1074 <= g <= 0 ->
  fbetween true (ly - hx) (hy - lx) g (SFsub prec emax x y).
Proof.
  intros Hx Hy Hlx Hly Hord Hhi Hg.
  set (E := Z.min g (Z.min (fexpo x) (fexpo y))).
  destruct (fbetween_sval _ _ _ _ _ E Hx Hlx ltac:(unfold E; lia) ltac:(unfold E; lia))
    as [Hvx Hsx].
  destruct (fbetween_sval _ _ _ _ _ E Hy Hly ltac:(unfold E; lia) ltac:(unfold E; lia))
    as [Hvy Hsy].
  assert (Hp : 0 < 2 ^ (g - E)) by (apply Z.pow_pos_nonneg; unfold E; lia).
  assert (Hmono : sc E hx g <= sc E ly g) by (unfold sc; nia).
  assert (Hx0 : 0 <= sval E x).
  { destruct (Z.eq_dec (sval E x) 0) as [->|Hne]; [lia|].
    specialize (Hsx Hne). symmetry in Hsx. apply Z.ltb_ge in Hsx. lia. }
  assert (Hy0 : 0 <= sval E y).
  { destruct (Z.eq_dec (sval E y) 0) as [->|Hne]; [lia|].
    specialize (Hsy Hne). symmetry in Hsy. apply Z.ltb_ge in Hsy. lia. }
  apply (SFadd_sub_between true x y true (ly - hx) (hy - lx) g);
    eauto using fbetween_real; try lia; fold E; rewrite ?sc_sub.
  - intros Hne. symmetry. apply Z.ltb_lt. lia.
  - lia.
Qed.

Lemma one_between_0 : fbetween false 1 1 0 one.
Proof. cbn. split; [reflexivity|]. split; vm_compute; discriminate. Qed.

Lemma two_between_0 : fbetween false 2 2 0 (lit 2 0).
Proof. cbn. split; [reflexivity|]. split; vm_compute; discriminate. Qed.

Lemma four_between_0 : fbetween false 4 4 0 (lit 4 0).
Proof. cbn. split; [reflexivity|]. split; vm_compute; discriminate. Qed.

(** The quotient [k / n] of two integers with [0 <= k <= n], of any size. *)
Lemma ratio_unit k n :
  0 <= k <= n -> 0 < n ->
  exists q,
    int_truediv k n = inr q /\
    fbetween false 0 1 0 q /\
    (k = n -> fbetween false 1 1 0 q).
Proof.
  intros Hk Hn.
  destruct (int_truediv_between k n 0 1 0) as (q & Hq & Hb); try lia.
  { apply me_le_int. lia. }
  { apply me_le_int. lia. }
  exists q. split; [assumption|]. split; [assumption|].
  intros ->.
  destruct (int_truediv_between n n 1 1 0) as (q' & Hq' & Hb'); try lia.
  { apply me_le_int. lia. }
  { apply me_le_int. lia. }
  rewrite Hq in Hq'. inv Hq'. assumption.
Qed.

Lemma float_mod_nonpos h hi g :
  fbetween true 0 hi g h ->
  0 < hi < 2 ^ (- g) -> -52 <= g <= 0 ->
  exists u, float_mod h one = inr u /\ fbetween false 0 (2 ^ (- g)) g u.
Proof.
  intros Hh Hhi Hg. unfold float_mod. cbn [is_zero one].
  assert (Hpg : 2 ^ (- g) < 2 ^ 53) by (apply Z.pow_lt_mono_r; lia).
  destruct h as [sh|sh| |sh mh eh]; cbn [fbetween] in Hh; try contradiction.
  - cbn. eexists. split; [reflexivity|]. cbn. lia.
  - destruct Hh as (-> & Hl & Hu).
    pose proof (fmod_small_between true mh eh 0 hi g ltac:(lia) ltac:(lia)
                  ltac:(lia) ltac:(lia) Hl Hu) as Hm.
    fold one.
    destruct (fmod (S754_finite true mh eh) one) as [s|s| |s m e] eqn:Ef;
      cbn [fbetween] in Hm; try contradiction.
    + eexists. split; [reflexivity|]. cbn. lia.
    + destruct Hm as (-> & Hm). cbn [sign_bit one xorb].
      eexists. split; [reflexivity|].
      assert (Hone : fbetween false (2 ^ (- g)) (2 ^ (- g)) g one).
      { unfold one. cbn [fbetween]. split; [reflexivity|].
        assert (He : 4503599627370496 = 2 ^ 52) by reflexivity.
        split; apply (me_le_scale (-53)); try lia; unfold sc; rewrite He;
          rewrite <- !Z.pow_add_r by lia;
          replace (- g + (g - -53)) with (52 + (-52 - -53)) by lia;
          apply Z.le_refl. }
      assert (Hmm : fbetween true 0 hi g (S754_finite true m e))
        by (cbn [fbetween]; tauto).
      pose proof (SFadd_neg_pos g 0 hi (2 ^ (- g)) (2 ^ (- g)) _ _ Hmm Hone
                    ltac:(lia) ltac:(lia) ltac:(lia) ltac:(lia) ltac:(lia))
        as H.
      eapply fbetween_weaken; [exact H| |]; lia.
Qed.

Lemma me_le_0_3 a b : 8 * a <= b <-> me_le a 0 b (-3).
Proof.
  unfold me_le, sc. change (Z.min 0 (-3)) with (-3).
  change (2 ^ (0 - -3)) with 8. change (2 ^ (-3 - -3)) with 1. lia.
Qed.

Lemma me_le_3_0 a b : a <= 8 * b <-> me_le a (-3) b 0.
Proof.
  unfold me_le, sc. change (Z.min (-3) 0) with (-3).
  change (2 ^ (0 - -3)) with 8. change (2 ^ (-3 - -3)) with 1. lia.
Qed.

Lemma me_le_0_2 a b : 4 * a <= b <-> me_le a 0 b (-2).
Proof.
  unfold me_le, sc. change (Z.min 0 (-2)) with (-2).
  change (2 ^ (0 - -2)) with 4. change (2 ^ (-2 - -2)) with 1. lia.
Qed.

Lemma me_le_2_0 a b : a <= 4 * b <-> me_le a (-2) b 0.
Proof.
  unfold me_le, sc. change (Z.min (-2) 0) with (-2).
  change (2 ^ (0 - -2)) with 4. change (2 ^ (-2 - -2)) with 1. lia.
Qed.

(** From a numerator between 0 and 5, or between -1 and 0, to a hue between
    0 and 1. *)
Lemma hue_of_h_unit h :
  fbetween false 0 5 0 h \/ fbetween true 0 1 0 h ->
  exists u,
    (h6 <- truediv (PyFloat h) (PyFloat (lit 6 0)) ;;
     mod_ h6 (PyFloat (lit 1 0))) = inr (PyFloat u) /\
    fbetween false 0 8 (-3) u.
Proof.
  intros Hh. unfold truediv. cbn [to_float bind ret Monad_either].
  change (lit 6 0) with six. change (lit 1 0) with one.
  assert (P53 : 2 ^ 53 = 9007199254740992) by reflexivity.
  destruct Hh as [Hh|Hh].
  - destruct (div6_between false 0 5 0 0 7 (-3) h Hh
                ltac:(lia) ltac:(lia) ltac:(lia)
                (proj1 (me_le_3_0 (6 * 0) 0) ltac:(lia))
                (proj1 (me_le_0_3 5 (6 * 7)) ltac:(lia))) as (h6 & E6 & H6).
    rewrite E6. cbn [bind ret Monad_either mod_ to_float].
    destruct (float_mod_pos h6 7 (-3) H6 ltac:(change (2 ^ (- -3)) with 8; lia)
                ltac:(lia) ltac:(lia)) as (u & Eu & Hu).
    rewrite Eu. cbn [bind ret Monad_either].
    exists u. split; [reflexivity|].
    eapply fbetween_weaken; [exact Hu| |]; lia.
  - destruct (div6_between true 0 1 0 0 1 (-2) h Hh
                ltac:(lia) ltac:(lia) ltac:(lia)
                (proj1 (me_le_2_0 (6 * 0) 0) ltac:(lia))
                (proj1 (me_le_0_2 1 (6 * 1)) ltac:(lia))) as (h6 & E6 & H6).
    rewrite E6. cbn [bind ret Monad_either mod_ to_float].
    destruct (float_mod_nonpos h6 1 (-2) H6
                ltac:(change (2 ^ (- -2)) with 4; lia) ltac:(lia))
      as (u & Eu & Hu).
    rewrite Eu. cbn [bind ret Monad_either].
    exists u. split; [reflexivity|].
    change (2 ^ (- -2)) with 4 in Hu.
    apply (fbetween_rescale _ _ _ _ 1) in Hu; [|lia].
    change (0 * 2 ^ 1) with 0 in Hu. change (4 * 2 ^ 1) with 8 in Hu.
    change (-2 - 1) with (-3) in Hu. exact Hu.
Qed.

Lemma int_truediv_error a b e :
  int_truediv a b = inl e ->
  (b = 0 /\ e = ZeroDivisionError) \/ (b <> 0 /\ e = OverflowError).
Proof.
  unfold int_truediv. destruct (Z.eqb_spec b 0) as [->|Hb].
  - intros H. left. split; [reflexivity|]. unfold raise in H. congruence.
  - destruct a as [|a|a]; [discriminate| |];
      destruct (SFdiv prec emax _ _); try discriminate;
      intros H; right; (split; [exact Hb|]); unfold raise in H; congruence.
Qed.

(** The hue of three integers, once the saturation [rangec / maxc] is
    computed. *)
Lemma rgb_to_hsv_ints r g b :
  Z.min (Z.min r g) b = Z.max (Z.max r g) b \/
  (exists qs, int_truediv (Z.max (Z.max r g) b - Z.min (Z.min r g) b)
                          (Z.max (Z.max r g) b) = inr qs) ->
  exists u s v,
    colorsys.rgb_to_hsv (PyInt r) (PyInt g) (PyInt b) = inr (PyFloat u, s, v) /\
    fbetween false 0 8 (-3) u.
Proof.
  intros Hs. unfold colorsys.rgb_to_hsv.
  rewrite max3_int, min3_int.
  set (Mx := Z.max (Z.max r g) b) in *. set (mn := Z.min (Z.min r g) b) in *.
  change (sub (PyInt Mx) (PyInt mn)) with (@inr exn _ (PyInt (Mx - mn))).
  cbn [bind Monad_either]. rewrite eqb_int.
  destruct (Z.eqb_spec mn Mx) as [Heq|Hne].
  { exists (lit 0 0). do 2 eexists. split; [reflexivity|]. cbn. lia. }
  destruct Hs as [Hs|(qs & Es)]; [contradiction|].
  set (n := Mx - mn) in *.
  assert (Hn : 0 < n) by (unfold n, Mx, mn; lia).
  unfold truediv at 1.
  rewrite Es. cbn [bind ret Monad_either].
  change (sub (PyInt Mx) (PyInt r)) with (@inr exn _ (PyInt (Mx - r))).
  change (sub (PyInt Mx) (PyInt g)) with (@inr exn _ (PyInt (Mx - g))).
  change (sub (PyInt Mx) (PyInt b)) with (@inr exn _ (PyInt (Mx - b))).
  cbn [bind Monad_either].
  destruct (ratio_unit (Mx - r) n) as (rc & Er & Hrc & Hrc1);
    try (unfold n, Mx, mn; lia).
  destruct (ratio_unit (Mx - g) n) as (gc & Eg & Hgc & Hgc1);
    try (unfold n, Mx, mn; lia).
  destruct (ratio_unit (Mx - b) n) as (bc & Eb & Hbc & Hbc1);
    try (unfold n, Mx, mn; lia).
  unfold truediv at 1. rewrite Er. cbn [bind ret Monad_either].
  unfold truediv at 1. rewrite Eg. cbn [bind ret Monad_either].
  unfold truediv at 1. rewrite Eb. cbn [bind ret Monad_either].
  rewrite !eqb_int.
  assert (Hh : exists h,
    (if r =? Mx then sub (PyFloat bc) (PyFloat gc)
     else if g =? Mx
          then t <- add (PyFloat (lit 2 0)) (PyFloat rc) ;; sub t (PyFloat bc)
          else t <- add (PyFloat (lit 4 0)) (PyFloat gc) ;; sub t (PyFloat rc))
    = inr (PyFloat h) /\
    (fbetween false 0 5 0 h \/ fbetween true 0 1 0 h)).
  { destruct (Z.eqb_spec r Mx) as [HrM|HrM].
    - eexists. split; [reflexivity|].
      destruct (Z.eq_dec (Mx - b) n) as [Hbn|Hbn].
      + left. specialize (Hbc1 Hbn).
        pose proof (SFsub_pos_pos 0 1 1 0 1 bc gc Hbc1 Hgc) as H.
        eapply fbetween_weaken; [apply H; lia| |]; lia.
      + right.
        assert (Hgn : Mx - g = n) by (unfold n, Mx, mn in *; lia).
        specialize (Hgc1 Hgn).
        pose proof (SFsub_pos_le 0 0 1 1 1 bc gc Hbc Hgc1) as H.
        eapply fbetween_weaken; [apply H; lia| |]; lia.
    - destruct (Z.eqb_spec g Mx) as [HgM|HgM].
      + eexists. split; [reflexivity|]. left.
        pose proof (SFadd_pos_pos 0 2 2 0 1 _ _ two_between_0 Hrc) as Ht.
        specialize (Ht ltac:(lia) ltac:(lia) ltac:(lia) ltac:(lia)).
        pose proof (SFsub_pos_pos 0 _ _ _ _ _ _ Ht Hbc) as H.
        eapply fbetween_weaken; [apply H; lia| |]; lia.
      + eexists. split; [reflexivity|]. left.
        pose proof (SFadd_pos_pos 0 4 4 0 1 _ _ four_between_0 Hgc) as Ht.
        specialize (Ht ltac:(lia) ltac:(lia) ltac:(lia) ltac:(lia)).
        pose proof (SFsub_pos_pos 0 _ _ _ _ _ _ Ht Hrc) as H.
        eapply fbetween_weaken; [apply H; lia| |]; lia. }
  destruct Hh as (h & Eh & Hh).
  cbn [bind ret Monad_either] in Eh |- *. rewrite Eh.
  cbn [bind ret Monad_either].
  destruct (hue_of_h_unit h Hh) as (u & Eu & Hu).
  cbn [bind ret Monad_either] in Eu.
  destruct (truediv (PyFloat h) (PyFloat (lit 6 0))) as [?|h6];
    [discriminate Eu|].
  destruct (mod_ h6 (PyFloat (lit 1 0))) as [?|w]; [discriminate Eu|].
  inv Eu. do 3 eexists. split; [reflexivity|assumption].
Qed.

Lemma convert_color_ints r g b :
  Z.min (Z.min r g) b = Z.max (Z.max r g) b \/
  (exists qs, int_truediv (Z.max (Z.max r g) b - Z.min (Z.min r g) b)
                          (Z.max (Z.max r g) b) = inr qs) ->
  exists z,
    convert_color (PyInt r, PyInt g, PyInt b) = inr (PyInt z) /\ 0 <= z <= 255.
Proof.
  intros Hs.
  destruct (rgb_to_hsv_ints r g b Hs) as (u & s & v & E & Hu).
  unfold convert_color. rewrite E. cbn [bind Monad_either fst].
  destruct (hue_byte u 8 (-3) Hu) as (z & Ez & Hz); try lia.
  exists z. split; [assumption|].
  change ((255 * 8) / 2 ^ (- -3)) with 255 in Hz. assumption.
Qed.

Lemma convert_color_ints_error r g b e :
  Z.min (Z.min r g) b <> Z.max (Z.max r g) b ->
  int_truediv (Z.max (Z.max r g) b - Z.min (Z.min r g) b)
              (Z.max (Z.max r g) b) = inl e ->
  convert_color (PyInt r, PyInt g, PyInt b) = inl e.
Proof.
  intros Hne Es. unfold convert_color, colorsys.rgb_to_hsv.
  rewrite max3_int, min3_int.
  set (Mx := Z.max (Z.max r g) b) in *. set (mn := Z.min (Z.min r g) b) in *.
  change (sub (PyInt Mx) (PyInt mn)) with (@inr exn _ (PyInt (Mx - mn))).
  cbn [bind Monad_either]. rewrite eqb_int.
  destruct (Z.eqb_spec mn Mx) as [Heq|_]; [contradiction|].
  unfold truediv at 1. rewrite Es. reflexivity.
Qed.

(** X15: on integer components of any size [convert_color] returns a byte
    between 0 and 255 whenever no component is negative; it raises
    [ZeroDivisionError] exactly when the largest component is 0 and another
    one is negative, and otherwise nothing but [OverflowError].  The byte 255
    occurs for (2**53, 0, 1). *)
Theorem convert_color_int_outcomes :
  (forall r g b,
      0 <= r -> 0 <= g -> 0 <= b ->
      exists z,
        convert_color (PyInt r, PyInt g, PyInt b) = inr (PyInt z) /\
        0 <= z <= 255) /\
  (forall r g b,
      convert_color (PyInt r, PyInt g, PyInt b) = inl ZeroDivisionError <->
      Z.max (Z.max r g) b = 0 /\ Z.min (Z.min r g) b < 0) /\
  (forall r g b,
      (exists z,
          convert_color (PyInt r, PyInt g, PyInt b) = inr (PyInt z) /\
          0 <= z <= 255) \/
      convert_color (PyInt r, PyInt g, PyInt b) = inl ZeroDivisionError \/
      convert_color (PyInt r, PyInt g, PyInt b) = inl OverflowError) /\
  convert_color (PyInt (2 ^ 53), PyInt 0, PyInt 1) = inr (PyInt 255) /\
  convert_color (PyInt 1, PyInt (- 2 ^ 1100), PyInt 0) = inl OverflowError.
Proof.
  assert (A : forall r g b,
             (exists z,
                 convert_color (PyInt r, PyInt g, PyInt b) = inr (PyInt z) /\
                 0 <= z <= 255) \/
             (Z.max (Z.max r g) b = 0 /\ Z.min (Z.min r g) b < 0 /\
              convert_color (PyInt r, PyInt g, PyInt b) = inl ZeroDivisionError) \/
             (Z.max (Z.max r g) b <> 0 /\ Z.min (Z.min r g) b < 0 /\
              convert_color (PyInt r, PyInt g, PyInt b) = inl OverflowError)).
  { intros r g b.
    destruct (Z.eq_dec (Z.min (Z.min r g) b) (Z.max (Z.max r g) b)) as [E|NE].
    - left. apply convert_color_ints. left. exact E.
    - destruct (int_truediv (Z.max (Z.max r g) b - Z.min (Z.min r g) b)
                            (Z.max (Z.max r g) b)) as [e|qs] eqn:Es.
      + pose proof (convert_color_ints_error r g b e NE Es) as Hc.
        assert (Hm : Z.min (Z.min r g) b < 0).
        { destruct (Z_lt_le_dec (Z.min (Z.min r g) b) 0) as [|Hp];
            [assumption|exfalso].
          destruct (ratio_unit (Z.max (Z.max r g) b - Z.min (Z.min r g) b)
                               (Z.max (Z.max r g) b) ltac:(lia) ltac:(lia))
            as (q & Hq & _).
          congruence. }
        destruct (int_truediv_error _ _ _ Es) as [[H0 ->]|[H0 ->]]; auto.
      + left. apply convert_color_ints. right. eauto. }
  split; [|split; [|split; [|split]]].
  - intros r g b Hr Hg Hb.
    destruct (A r g b) as [H|[(_ & H & _)|(_ & H & _)]]; [exact H|lia|lia].
  - intros r g b. split.
    + intros H.
      destruct (A r g b) as [(z & Hz & _)|[(H1 & H2 & _)|(_ & _ & H3)]];
        [congruence|auto|congruence].
    + intros [H1 H2].
      destruct (A r g b) as [(z & Hz & Hr)|[(_ & _ & H3)|(H3 & _)]];
        [|exact H3|contradiction].
      exfalso.
      assert (NE : Z.min (Z.min r g) b <> Z.max (Z.max r g) b) by lia.
      assert (Es : int_truediv (Z.max (Z.max r g) b - Z.min (Z.min r g) b)
                               (Z.max (Z.max r g) b) = inl ZeroDivisionError)
        by (rewrite H1; reflexivity).
      rewrite (convert_color_ints_error r g b _ NE Es) in Hz. discriminate.
  - intros r g b.
    destruct (A r g b) as [H|[(_ & _ & H)|(_ & _ & H)]]; auto.
  - vm_compute. reflexivity.
  - vm_compute. reflexivity.
Qed.

Lemma convert_color_int_outcomes_witness :
  (exists z,
      convert_color (PyInt 65535, PyInt 1000, PyInt 0) = inr (PyInt z) /\
      0 <= z <= 255) /\
  convert_color (PyInt 0, PyInt (-1), PyInt (-1)) = inl ZeroDivisionError.
Proof.
  split.
  - apply (proj1 convert_color_int_outcomes 65535 1000 0); lia.
  - apply (proj2 (proj1 (proj2 convert_color_int_outcomes) 0 (-1) (-1))).
    split; [reflexivity|reflexivity].
Defined.

(** ** The brightness byte against the exact ceiling *)

Lemma ceil_int a : ceil (PyInt a) = inr (PyInt a).
Proof.
  unfold ceil, to_integral, ceil_fin. cbn [ext_of Z.leb Z.compare].
  change (2 ^ 0) with 1. rewrite Z.mul_1_r. reflexivity.
Qed.

Lemma ceil_fin_me_le m e :
  me_le (ceil_fin m e - 1) 0 m e /\ me_le m e (ceil_fin m e) 0 /\
  ~ me_le m e (ceil_fin m e - 1) 0.
Proof.
  pose proof (ceil_fin_spec m e) as [Hlo Hhi].
  unfold me_le, sc. rewrite (Z.min_comm 0 e). lia.
Qed.

(** X16: the rounding of the product costs at most one step: for a
    brightness [m * 2^e] between 0 and 1 the byte is the exact ceiling of
    [100 * m * 2^e] or one less, never more. *)
Theorem convert_brightness_near_exact v m e :
  ext_of v = Fin m e ->
  leb (PyInt 0) v = true -> leb v (PyInt 1) = true ->
  exists n,
    convert_brightness v = inr (PyInt n) /\
    ceil_fin (m * 100) e - 1 <= n <= ceil_fin (m * 100) e.
Proof.
  intros Ev H0 H1.
  destruct (convert_unit v H0 H1) as (p & n & Hp & Hn & Hr).
  exists n. split; [exact Hn|].
  rewrite Hp in Hn. cbn [bind Monad_either] in Hn.
  destruct v as [a|x].
  - cbn [ext_of] in Ev. injection Ev as <- <-.
    assert (Hpa : p = PyInt (a * 100))
      by (cbn [mul arith ret Monad_either] in Hp; congruence).
    subst p. rewrite ceil_int in Hn.
    assert (n = a * 100) by congruence. subst n.
    unfold ceil_fin. cbn [Z.leb Z.compare]. change (2 ^ 0) with 1. lia.
  - destruct (unit_float_cases x H0 H1) as [[s ->]|(mx & ex & -> & Hx)].
    + cbn [ext_of ext_of_float] in Ev. injection Ev as <- <-.
      rewrite mul_100_zero in Hp. injection Hp as <-.
      assert (n = 0) by (cbn in Hn; congruence). subst n.
      cbn. lia.
    + cbn [ext_of ext_of_float cond_Zopp] in Ev. injection Ev as <- <-.
      rewrite mul_100_finite in Hp. injection Hp as <-.
      set (K := ceil_fin (Zpos mx * 100) ex).
      destruct (ceil_fin_me_le (Zpos mx * 100) ex) as (Klo & Khi & Kst).
      fold K in Klo, Khi, Kst.
      assert (HK1 : 1 <= K).
      { destruct (Z_le_gt_dec 1 K) as [|Hgt]; [assumption|exfalso].
        apply (me_le_pos_zero (mx * 100) ex 0).
        eapply me_le_trans; [exact Khi|]. apply me_le_int. lia. }
      assert (HK100 : K <= 100).
      { destruct (Z_le_gt_dec K 100) as [|Hgt]; [assumption|exfalso].
        apply Kst.
        eapply me_le_trans;
          [exact (proj1 (me_le_100 mx ex 1 ltac:(lia)) Hx)|].
        apply me_le_int. lia. }
      pose proof (mul_100_between mx ex (K - 1) K ltac:(lia) ltac:(lia)
                    Klo Khi) as Hb.
      destruct (fbetween_leb _ _ _ Hb ltac:(lia)) as [L1 L2].
      pose proof (ceil_mono _ _ _ _ L1 (ceil_int (K - 1)) Hn).
      pose proof (ceil_mono _ _ _ _ L2 Hn (ceil_int K)).
      lia.
Qed.

Lemma convert_brightness_near_exact_witness :
  ceil_fin (5764607523034235 * 100) (-59) = 2 /\
  exists n,
    convert_brightness (PyFloat f_0_01) = inr (PyInt n) /\
    ceil_fin (5764607523034235 * 100) (-59) - 1 <= n
    <= ceil_fin (5764607523034235 * 100) (-59).
Proof.
  split; [reflexivity|].
  apply (convert_brightness_near_exact (PyFloat f_0_01) 5764607523034235 (-59));
    vm_compute; reflexivity.
Defined.

(** ** The colour byte of three floats between 0 and 1 *)

Lemma unit64_cases x :
  unit64 x ->
  (exists s, x = S754_zero s) \/
  (exists m e, x = S754_finite false m e /\ me_le (Zpos m) e 1 0 /\
               -1074 <= e <= 0 /\ Zpos m < 2 ^ 53).
Proof.
  intros (Hv & H0 & H1).
  destruct (unit_float_cases x H0 H1) as [[s ->]|(m & e & -> & Hx)].
  - left. eauto.
  - right. exists m, e. split; [reflexivity|]. split; [exact Hx|].
    pose proof (valid_exponent m e Hv) as He.
    cbn [valid_binary] in Hv. unfold bounded, canonical_mantissa in Hv.
    apply andb_prop in Hv. destruct Hv as [Hc _].
    apply Z.eqb_eq in Hc. rewrite fexp_eq in Hc.
    pose proof (digits2_pos_bounds m) as [Dlo Dhi].
    set (d := Zpos (digits2_pos m)) in *.
    assert (Hd0 : 0 < d) by (unfold d; lia).
    assert (Hd53 : d <= 53) by (clearbody d; clear - Hc; lia).
    assert (Hde : d + e <= 1).
    { pose proof (me_le_digits (Zpos m) e 1 0 ltac:(lia) ltac:(lia) Hx) as H.
      change (Zdigits2 (Zpos m)) with d in H.
      change (Zdigits2 1) with 1 in H. clearbody d. clear - H. lia. }
    split; [lia|].
    apply Z.lt_le_trans with (2 ^ d); [lia|].
    apply Z.pow_le_mono_r; lia.
Qed.

Lemma unit64_fin x : unit64 x -> exists m e, ext_of (PyFloat x) = Fin m e.
Proof.
  intros H. destruct (unit64_cases x H) as [[s ->]|(m & e & -> & _)];
    cbn; eauto.
Qed.

Lemma leb_total a b ma ea mb eb :
  ext_of a = Fin ma ea -> ext_of b = Fin mb eb ->
  (gtb a b = false -> leb a b = true) /\
  (ltb a b = false -> leb b a = true) /\
  (eqb a b = false -> leb a b = true -> ltb a b = true).
Proof.
  intros Ha Hb.
  unfold gtb, ltb, leb, eqb. rewrite (compare_antisym b a).
  rewrite (compare_fin a b ma ea mb eb Ha Hb).
  destruct (sc (Z.min ea eb) ma ea ?= sc (Z.min ea eb) mb eb); cbn;
    repeat split; intros; try reflexivity; try discriminate.
Qed.

Lemma leb_refl_fin a m e : ext_of a = Fin m e -> leb a a = true.
Proof.
  intros Ha. apply (leb_fin a a m e m e Ha Ha). unfold me_le. lia.
Qed.

(** [max] and [min] of three finite floats: one of them, above (below) all. *)
Lemma max3_floats r g b :
  (exists m e, ext_of (PyFloat r) = Fin m e) ->
  (exists m e, ext_of (PyFloat g) = Fin m e) ->
  (exists m e, ext_of (PyFloat b) = Fin m e) ->
  exists M,
    max3 (PyFloat r) (PyFloat g) (PyFloat b) = PyFloat M /\
    (M = r \/ M = g \/ M = b) /\
    leb (PyFloat r) (PyFloat M) = true /\
    leb (PyFloat g) (PyFloat M) = true /\
    leb (PyFloat b) (PyFloat M) = true.
Proof.
  intros (mr & er & Hr) (mg & eg & Hg) (mb & eb & Hb).
  pose proof (leb_refl_fin _ _ _ Hr) as Rr.
  pose proof (leb_refl_fin _ _ _ Hg) as Rg.
  pose proof (leb_refl_fin _ _ _ Hb) as Rb.
  unfold max3.
  destruct (gtb (PyFloat g) (PyFloat r)) eqn:C1.
  - assert (Lrg : leb (PyFloat r) (PyFloat g) = true).
    { unfold gtb in C1. unfold leb. rewrite (compare_antisym (PyFloat r)).
      destruct (compare (PyFloat g) (PyFloat r)) as [[| |]|];
        try discriminate; reflexivity. }
    destruct (gtb (PyFloat b) (PyFloat g)) eqn:C2.
    + assert (Lgb : leb (PyFloat g) (PyFloat b) = true).
      { unfold gtb in C2. unfold leb. rewrite (compare_antisym (PyFloat g)).
        destruct (compare (PyFloat b) (PyFloat g)) as [[| |]|];
          try discriminate; reflexivity. }
      exists b. repeat split; auto. exact (leb_trans _ _ _ Lrg Lgb).
    + exists g. repeat split; auto.
      exact (proj1 (leb_total _ _ _ _ _ _ Hb Hg) C2).
  - pose proof (proj1 (leb_total _ _ _ _ _ _ Hg Hr) C1) as Lgr.
    destruct (gtb (PyFloat b) (PyFloat r)) eqn:C2.
    + assert (Lrb : leb (PyFloat r) (PyFloat b) = true).
      { unfold gtb in C2. unfold leb. rewrite (compare_antisym (PyFloat r)).
        destruct (compare (PyFloat b) (PyFloat r)) as [[| |]|];
          try discriminate; reflexivity. }
      exists b. repeat split; auto. exact (leb_trans _ _ _ Lgr Lrb).
    + exists r. repeat split; auto.
      exact (proj1 (leb_total _ _ _ _ _ _ Hb Hr) C2).
Qed.

Lemma min3_floats r g b :
  (exists m e, ext_of (PyFloat r) = Fin m e) ->
  (exists m e, ext_of (PyFloat g) = Fin m e) ->
  (exists m e, ext_of (PyFloat b) = Fin m e) ->
  exists M,
    min3 (PyFloat r) (PyFloat g) (PyFloat b) = PyFloat M /\
    (M = r \/ M = g \/ M = b) /\
    leb (PyFloat M) (PyFloat r) = true /\
    leb (PyFloat M) (PyFloat g) = true /\
    leb (PyFloat M) (PyFloat b) = true.
Proof.
  intros (mr & er & Hr) (mg & eg & Hg) (mb & eb & Hb).
  pose proof (leb_refl_fin _ _ _ Hr) as Rr.
  pose proof (leb_refl_fin _ _ _ Hg) as Rg.
  pose proof (leb_refl_fin _ _ _ Hb) as Rb.
  unfold min3.
  destruct (ltb (PyFloat g) (PyFloat r)) eqn:C1.
  - assert (Lgr : leb (PyFloat g) (PyFloat r) = true).
    { unfold ltb in C1. unfold leb.
      destruct (compare (PyFloat g) (PyFloat r)) as [[| |]|];
        try discriminate; reflexivity. }
    destruct (ltb (PyFloat b) (PyFloat g)) eqn:C2.
    + assert (Lbg : leb (PyFloat b) (PyFloat g) = true).
      { unfold ltb in C2. unfold leb.
        destruct (compare (PyFloat b) (PyFloat g)) as [[| |]|];
          try discriminate; reflexivity. }
      exists b. repeat split; auto. exact (leb_trans _ _ _ Lbg Lgr).
    + exists g. repeat split; auto.
      exact (proj1 (proj2 (leb_total _ _ _ _ _ _ Hb Hg)) C2).
  - pose proof (proj1 (proj2 (leb_total _ _ _ _ _ _ Hg Hr)) C1) as Lrg.
    destruct (ltb (PyFloat b) (PyFloat r)) eqn:C2.
    + assert (Lbr : leb (PyFloat b) (PyFloat r) = true).
      { unfold ltb in C2. unfold leb.
        destruct (compare (PyFloat b) (PyFloat r)) as [[| |]|];
          try discriminate; reflexivity. }
      exists b. repeat split; auto. exact (leb_trans _ _ _ Lbr Lrg).
    + exists r. repeat split; auto.
      exact (proj1 (proj2 (leb_total _ _ _ _ _ _ Hb Hr)) C2).
Qed.

(** [binary_round] of a positive number: the rounding of its exact value. *)
Lemma binary_round_aligned m e :
  exists mz ez,
    binary_round prec emax false m e
    = binary_round_aux prec emax false (Zpos mz) ez loc_Exact /\
    ez <= e /\ Z.min e (-1074) <= ez /\
    forall E, E <= ez -> sc E (Zpos mz) ez = sc E (Zpos m) e.
Proof.
  unfold binary_round.
  pose proof (shl_align_spec m e (fexp prec emax (Zpos (digits2_pos m) + e)))
    as Ha.
  pose proof (fexp_ge_emin (Zpos (digits2_pos m) + e)) as Hf.
  destruct (shl_align m e _) as [mz ez]. destruct Ha as [Hez Hmz].
  exists mz, ez. split; [reflexivity|].
  split; [lia|]. split; [lia|].
  intros E HE. rewrite Hmz, sc_mul by lia. f_equal. lia.
Qed.

Lemma binary_round_pos m e :
  -1074 <= e -> me_le (Zpos m) e (2 ^ 52) 0 ->
  exists m' e', binary_round prec emax false m e = S754_finite false m' e'.
Proof.
  intros He Hb.
  destruct (binary_round_aligned m e) as (mz & ez & -> & Hez & Hlo & Hsc).
  assert (Hb' : me_le (Zpos mz) ez (2 ^ 52) 0).
  { apply (me_le_scale (Z.min ez 0)); try lia.
    rewrite Hsc by lia.
    apply (proj1 (me_le_scale (Z.min ez 0) (Zpos m) e (2 ^ 52) 0
                    ltac:(lia) ltac:(lia)) Hb). }
  pose proof (round_aux_ge_pow (Zpos mz) ez (Zdigits2 (Zpos mz) + ez - 1)
                ltac:(lia) ltac:(lia) ltac:(lia) Hb') as H.
  assert (Hd : 0 < Zdigits2 (Zpos mz)) by (cbn; lia).
  specialize (H ltac:(lia)).
  destruct (binary_round_aux prec emax false (Zpos mz) ez loc_Exact)
    as [s|s| |[|] m' e']; try contradiction.
  eauto.
Qed.

Lemma binary_round_mono m1 e1 m2 e2 :
  me_le (Zpos m1) e1 (Zpos m2) e2 -> me_le (Zpos m2) e2 (2 ^ 52) 0 ->
  leb (PyFloat (binary_round prec emax false m1 e1))
      (PyFloat (binary_round prec emax false m2 e2)) = true.
Proof.
  intros Hle Hb.
  destruct (binary_round_aligned m1 e1) as (mz1 & ez1 & -> & Hez1 & _ & Hsc1).
  destruct (binary_round_aligned m2 e2) as (mz2 & ez2 & -> & Hez2 & _ & Hsc2).
  apply round_aux_mono; try lia.
  - apply (me_le_scale (Z.min ez1 ez2)); try lia.
    rewrite Hsc1, Hsc2 by lia.
    apply (proj1 (me_le_scale (Z.min ez1 ez2) (Zpos m1) e1 (Zpos m2) e2
                    ltac:(lia) ltac:(lia)) Hle).
  - apply (me_le_scale (Z.min ez2 0)); try lia.
    rewrite Hsc2 by lia.
    apply (proj1 (me_le_scale (Z.min ez2 0) (Zpos m2) e2 (2 ^ 52) 0
                    ltac:(lia) ltac:(lia)) Hb).
Qed.

(** The difference of two positive floats: the rounding of the exact one. *)
Lemma SFsub_finite mx ex my ey :
  SFsub prec emax (S754_finite false mx ex) (S754_finite false my ey)
  = binary_normalize prec emax
      (sc (Z.min ex ey) (Zpos mx) ex - sc (Z.min ex ey) (Zpos my) ey)
      (Z.min ex ey) false.
Proof.
  cbn [SFsub cond_Zopp]. rewrite !shl_align_fst. unfold sc.
  replace (Z.min ex (Z.min ex ey)) with (Z.min ex ey) by lia.
  replace (Z.min ey (Z.min ex ey)) with (Z.min ex ey) by lia.
  reflexivity.
Qed.

Lemma sc_sc E0 E m e : E0 <= E -> E <= e -> sc E0 (sc E m e) E = sc E0 m e.
Proof.
  intros H1 H2. unfold sc. rewrite <- Z.mul_assoc, <- Z.pow_add_r by lia.
  do 2 f_equal. lia.
Qed.

Lemma me_le_refl m e : me_le m e m e.
Proof. unfold me_le. lia. Qed.

(** [maxc - x] against the range [maxc - minc], for floats between 0 and 1
    with [minc <= x <= maxc] and [minc < maxc]: the range is a positive
    float, and the difference is zero or a positive float of at most the
    range. *)
Lemma SFsub_unit M x m :
  unit64 M -> unit64 x -> unit64 m ->
  leb (PyFloat m) (PyFloat x) = true -> leb (PyFloat x) (PyFloat M) = true ->
  ltb (PyFloat m) (PyFloat M) = true ->
  is_zero M = false /\
  exists mr er,
    SFsub prec emax M m = S754_finite false mr er /\
    match SFsub prec emax M x with
    | S754_zero _ => True
    | S754_finite false ma ea => me_le (Zpos ma) ea (Zpos mr) er
    | _ => False
    end.
Proof.
  intros HM Hx Hm Lmx LxM LmM.
  destruct (unit64_cases M HM) as [[sM ->]|(mM & eM & -> & HM1 & HeM & HmM)].
  { exfalso.
    destruct (unit64_cases m Hm) as [[s ->]|(mm & em & -> & _)].
    - destruct sM, s; discriminate.
    - apply (proj1 (ltb_fin (PyFloat (S754_finite false mm em))
                            (PyFloat (S754_zero sM)) (Zpos mm) em 0 0
                            eq_refl eq_refl)) in LmM.
      apply LmM. apply me_le_zero_l. lia. }
  split; [reflexivity|].
  assert (P52 : me_le 1 0 (2 ^ 52) 0) by (apply me_le_int; lia).
  (* the exact difference with a positive float below maxc *)
  assert (D : forall my ey,
             -1074 <= ey <= 0 ->
             me_le (Zpos my) ey (Zpos mM) eM ->
             let E := Z.min eM ey in
             0 <= sc E (Zpos mM) eM - sc E (Zpos my) ey < sc E (Zpos mM) eM).
  { intros my ey Hey Hle E.
    apply (me_le_scale E) in Hle; try (unfold E; lia).
    pose proof (sc_pos E (Zpos my) ey ltac:(lia) ltac:(unfold E; lia)). lia. }
  destruct (unit64_cases m Hm) as [[sm ->]|(mm & em & -> & Hm1 & Hem & Hmm)].
  - (* minc is zero: the range is maxc itself *)
    exists mM, eM. split; [reflexivity|].
    destruct (unit64_cases x Hx) as [[sx ->]|(mx & ex & -> & Hx1 & Hex & Hmx)].
    + cbn [SFsub]. apply me_le_refl.
    + apply (proj1 (leb_fin (PyFloat (S754_finite false mx ex))
                            (PyFloat (S754_finite false mM eM))
                            (Zpos mx) ex (Zpos mM) eM eq_refl eq_refl)) in LxM.
      rewrite SFsub_finite.
      pose proof (D mx ex Hex LxM) as Hz. cbn zeta in Hz.
      set (E := Z.min eM ex) in *.
      set (z := sc E (Zpos mM) eM - sc E (Zpos mx) ex) in *.
      pose proof (binary_normalize_between z E false 0 (Zpos mM) eM
                    ltac:(lia) ltac:(lia) ltac:(lia)) as Hb.
      assert (Habs : Z.abs z = z) by lia.
      rewrite Habs in Hb.
      specialize (Hb ltac:(intros; symmetry; apply Z.ltb_ge; lia)
                     (me_le_zero_l eM z E ltac:(lia))).
      assert (Hu : me_le z E (Zpos mM) eM).
      { apply (me_le_scale E); try (unfold E; lia). rewrite sc_same. lia. }
      specialize (Hb Hu).
      destruct (binary_normalize prec emax z E false) as [s|s| |s ma ea];
        cbn [fbetween] in Hb; try contradiction; [exact I|].
      destruct Hb as (-> & _ & Hb). exact Hb.
  - (* minc is positive *)
    apply (proj1 (ltb_fin (PyFloat (S754_finite false mm em))
                          (PyFloat (S754_finite false mM eM))
                          (Zpos mm) em (Zpos mM) eM eq_refl eq_refl)) in LmM.
    assert (LmM' : me_le (Zpos mm) em (Zpos mM) eM).
    { unfold me_le in *. rewrite (Z.min_comm em eM). lia. }
    pose proof (D mm em Hem LmM') as Hzm. cbn zeta in Hzm.
    set (Em := Z.min eM em) in *.
    assert (Hzm0 : 0 < sc Em (Zpos mM) eM - sc Em (Zpos mm) em).
    { destruct (Z.eq_dec (sc Em (Zpos mM) eM - sc Em (Zpos mm) em) 0) as [H0|];
        [|lia].
      exfalso. apply LmM. apply (me_le_scale Em); try (unfold Em; lia). lia. }
    destruct (sc Em (Zpos mM) eM - sc Em (Zpos mm) em) as [|pm|pm] eqn:Ezm;
      try lia.
    assert (Hpm : me_le (Zpos pm) Em (Zpos mM) eM).
    { apply (me_le_scale Em); try (unfold Em; lia). rewrite sc_same. lia. }
    assert (Hpm52 : me_le (Zpos pm) Em (2 ^ 52) 0).
    { eapply me_le_trans; [exact Hpm|]. eapply me_le_trans; [exact HM1|].
      exact P52. }
    destruct (binary_round_pos pm Em ltac:(unfold Em; lia) Hpm52)
      as (mr & er & Er).
    exists mr, er. split.
    { rewrite SFsub_finite. fold Em. rewrite Ezm. exact Er. }
    destruct (unit64_cases x Hx) as [[sx ->]|(mx & ex & -> & Hx1 & Hex & Hmx)].
    + exfalso.
      apply (proj1 (leb_fin (PyFloat (S754_finite false mm em))
                            (PyFloat (S754_zero sx))
                            (Zpos mm) em 0 0 eq_refl eq_refl)) in Lmx.
      exact (me_le_pos_zero _ _ _ Lmx).
    + apply (proj1 (leb_fin (PyFloat (S754_finite false mx ex))
                            (PyFloat (S754_finite false mM eM))
                            (Zpos mx) ex (Zpos mM) eM eq_refl eq_refl)) in LxM.
      apply (proj1 (leb_fin (PyFloat (S754_finite false mm em))
                            (PyFloat (S754_finite false mx ex))
                            (Zpos mm) em (Zpos mx) ex eq_refl eq_refl)) in Lmx.
      rewrite SFsub_finite.
      pose proof (D mx ex Hex LxM) as Hzx. cbn zeta in Hzx.
      set (Ex := Z.min eM ex) in *.
      destruct (sc Ex (Zpos mM) eM - sc Ex (Zpos mx) ex) as [|px|px] eqn:Ezx;
        try lia; cbn [binary_normalize]; [exact I|].
      assert (Hle : me_le (Zpos px) Ex (Zpos pm) Em).
      { set (E0 := Z.min Ex Em).
        apply (me_le_scale E0); try (unfold E0; lia).
        rewrite <- Ezx, <- Ezm, !sc_sub.
        rewrite !sc_sc by (unfold E0, Ex, Em; lia).
        apply (me_le_scale E0) in Lmx; try (unfold E0, Ex, Em; lia). lia. }
      pose proof (binary_round_mono px Ex pm Em Hle Hpm52) as Hmono.
      assert (Hpx52 : me_le (Zpos px) Ex (2 ^ 52) 0)
        by (eapply me_le_trans; [exact Hle|exact Hpm52]).
      destruct (binary_round_pos px Ex ltac:(unfold Ex; lia) Hpx52)
        as (ma & ea & Ea).
      rewrite Ea, Er in Hmono. rewrite Ea.
      exact (proj1 (leb_fin (PyFloat (S754_finite false ma ea))
                            (PyFloat (S754_finite false mr er))
                            (Zpos ma) ea (Zpos mr) er eq_refl eq_refl) Hmono).
Qed.

(** The quotient by the range: between 0 and 1, and 1 for the range
    itself. *)
Lemma ratio_unit64 a mr er :
  match a with
  | S754_zero _ => True
  | S754_finite false ma ea => me_le (Zpos ma) ea (Zpos mr) er
  | _ => False
  end ->
  exists q,
    truediv (PyFloat a) (PyFloat (S754_finite false mr er)) = inr (PyFloat q) /\
    fbetween false 0 1 0 q /\
    (a = S754_finite false mr er -> fbetween false 1 1 0 q).
Proof.
  intros Ha. unfold truediv, float_truediv.
  cbn [to_float bind ret Monad_either is_zero].
  eexists. split; [reflexivity|].
  destruct a as [s|s| |[|] ma ea]; try contradiction.
  - split; [cbn; lia|discriminate].
  - split.
    + apply (SFdiv_between false ma ea false mr er 0 1 0); try lia.
      * rewrite Z.mul_0_l. apply me_le_zero_l. lia.
      * rewrite Z.mul_1_l, Z.add_0_l. exact Ha.
    + intros H. injection H as -> ->.
      apply (SFdiv_between false mr er false mr er 1 1 0); try lia;
        rewrite Z.mul_1_l, Z.add_0_l; apply me_le_refl.
Qed.

(** The numerator of the hue, from three quotients between 0 and 1. *)
Lemma hue_numerator (c1 c2 : bool) rc gc bc :
  fbetween false 0 1 0 rc -> fbetween false 0 1 0 gc ->
  fbetween false 0 1 0 bc ->
  (c1 = true -> fbetween false 1 1 0 bc \/ fbetween false 1 1 0 gc) ->
  exists h,
    (if c1 then sub (PyFloat bc) (PyFloat gc)
     else if c2
          then t <- add (PyFloat (lit 2 0)) (PyFloat rc) ;; sub t (PyFloat bc)
          else t <- add (PyFloat (lit 4 0)) (PyFloat gc) ;; sub t (PyFloat rc))
    = inr (PyFloat h) /\
    (fbetween false 0 5 0 h \/ fbetween true 0 1 0 h).
Proof.
  intros Hrc Hgc Hbc H1. destruct c1.
  - eexists. split; [reflexivity|].
    destruct (H1 eq_refl) as [Hb1|Hg1].
    + left.
      pose proof (SFsub_pos_pos 0 1 1 0 1 bc gc Hb1 Hgc) as H.
      eapply fbetween_weaken; [apply H; lia| |]; lia.
    + right.
      pose proof (SFsub_pos_le 0 0 1 1 1 bc gc Hbc Hg1) as H.
      eapply fbetween_weaken; [apply H; lia| |]; lia.
  - destruct c2.
    + eexists. split; [reflexivity|]. left.
      pose proof (SFadd_pos_pos 0 2 2 0 1 _ _ two_between_0 Hrc) as Ht.
      specialize (Ht ltac:(lia) ltac:(lia) ltac:(lia) ltac:(lia)).
      pose proof (SFsub_pos_pos 0 _ _ _ _ _ _ Ht Hbc) as H.
      eapply fbetween_weaken; [apply H; lia| |]; lia.
    + eexists. split; [reflexivity|]. left.
      pose proof (SFadd_pos_pos 0 4 4 0 1 _ _ four_between_0 Hgc) as Ht.
      specialize (Ht ltac:(lia) ltac:(lia) ltac:(lia) ltac:(lia)).
      pose proof (SFsub_pos_pos 0 _ _ _ _ _ _ Ht Hrc) as H.
      eapply fbetween_weaken; [apply H; lia| |]; lia.
Qed.

Lemma rgb_to_hsv_unit64 r g b :
  unit64 r -> unit64 g -> unit64 b ->
  exists u s v,
    colorsys.rgb_to_hsv (PyFloat r) (PyFloat g) (PyFloat b)
    = inr (PyFloat u, s, v) /\
    fbetween false 0 8 (-3) u.
Proof.
  intros Hr Hg Hb. unfold colorsys.rgb_to_hsv.
  destruct (max3_floats r g b (unit64_fin r Hr) (unit64_fin g Hg)
              (unit64_fin b Hb)) as (M & -> & HM & LrM & LgM & LbM).
  destruct (min3_floats r g b (unit64_fin r Hr) (unit64_fin g Hg)
              (unit64_fin b Hb)) as (m & -> & Hm & Lmr & Lmg & Lmb).
  assert (UM : unit64 M) by (destruct HM as [->|[->| ->]]; assumption).
  assert (Um : unit64 m) by (destruct Hm as [->|[->| ->]]; assumption).
  change (sub (PyFloat M) (PyFloat m))
    with (@inr exn _ (PyFloat (SFsub prec emax M m))).
  cbn [bind Monad_either].
  destruct (eqb (PyFloat m) (PyFloat M)) eqn:Heq.
  { exists (lit 0 0). do 2 eexists. split; [reflexivity|]. cbn. lia. }
  destruct (unit64_fin m Um) as (zm & em & Fm).
  destruct (unit64_fin M UM) as (zM & eM & FM).
  pose proof (proj2 (proj2 (leb_total _ _ _ _ _ _ Fm FM)) Heq
                (leb_trans _ _ _ Lmr LrM)) as LmM.
  destruct (SFsub_unit M r m UM Hr Um Lmr LrM LmM)
    as (ZM & mr & er & Erng & Ar).
  destruct (SFsub_unit M g m UM Hg Um Lmg LgM LmM)
    as (_ & mr' & er' & Erng' & Ag).
  rewrite Erng in Erng'. injection Erng' as <- <-.
  destruct (SFsub_unit M b m UM Hb Um Lmb LbM LmM)
    as (_ & mr' & er' & Erng' & Ab).
  rewrite Erng in Erng'. injection Erng' as <- <-.
  rewrite Erng.
  assert (Es : exists s, truediv (PyFloat (S754_finite false mr er)) (PyFloat M)
                         = inr s).
  { unfold truediv, float_truediv. cbn [to_float bind ret Monad_either].
    rewrite ZM. cbn [bind ret Monad_either]. eauto. }
  destruct Es as (s & ->). cbn [bind Monad_either].
  change (sub (PyFloat M) (PyFloat r))
    with (@inr exn _ (PyFloat (SFsub prec emax M r))).
  change (sub (PyFloat M) (PyFloat g))
    with (@inr exn _ (PyFloat (SFsub prec emax M g))).
  change (sub (PyFloat M) (PyFloat b))
    with (@inr exn _ (PyFloat (SFsub prec emax M b))).
  cbn [bind Monad_either].
  destruct (ratio_unit64 _ mr er Ar) as (rc & -> & Hrc & Hrc1).
  destruct (ratio_unit64 _ mr er Ag) as (gc & -> & Hgc & Hgc1).
  destruct (ratio_unit64 _ mr er Ab) as (bc & -> & Hbc & Hbc1).
  cbn [bind Monad_either].
  destruct (hue_numerator (eqb (PyFloat r) (PyFloat M))
                          (eqb (PyFloat g) (PyFloat M)) rc gc bc Hrc Hgc Hbc)
    as (h & Eh & Hh).
  { intros HrM.
    destruct Hm as [->|[->| ->]].
    - congruence.
    - right. apply Hgc1. exact Erng.
    - left. apply Hbc1. exact Erng. }
  cbn [bind ret Monad_either] in Eh |- *. rewrite Eh.
  cbn [bind ret Monad_either].
  destruct (hue_of_h_unit h Hh) as (u & Eu & Hu).
  cbn [bind ret Monad_either] in Eu.
  destruct (truediv (PyFloat h) (PyFloat (lit 6 0))) as [?|h6];
    [discriminate Eu|].
  cbn [bind Monad_either].
  destruct (mod_ h6 (PyFloat (lit 1 0))) as [?|w]; [discriminate Eu|].
  inv Eu. do 3 eexists. split; [reflexivity|assumption].
Qed.

(** X17: for three binary64 floats between 0 and 1, the range [colorsys]
    documents, [convert_color] raises nothing and returns a byte between 0
    and 255. *)
Theorem convert_color_unit_floats r g b :
  unit64 r -> unit64 g -> unit64 b ->
  exists z,
    convert_color (PyFloat r, PyFloat g, PyFloat b) = inr (PyInt z) /\
    0 <= z <= 255.
Proof.
  intros Hr Hg Hb.
  destruct (rgb_to_hsv_unit64 r g b Hr Hg Hb) as (u & s & v & E & Hu).
  unfold convert_color. rewrite E. cbn [bind Monad_either fst].
  destruct (hue_byte u 8 (-3) Hu) as (z & Ez & Hz); try lia.
  exists z. split; [assumption|].
  change ((255 * 8) / 2 ^ (- -3)) with 255 in Hz. assumption.
Qed.

Lemma convert_color_unit_floats_witness :
  exists z,
    convert_color (PyFloat f_0_01, PyFloat f_half, PyFloat f_0_001)
    = inr (PyInt z) /\ 0 <= z <= 255.
Proof.
  apply (convert_color_unit_floats f_0_01 f_half f_0_001);
    (split; [|split]); vm_compute; reflexivity.
Defined.

(** ** A float among the summed bytes *)

Lemma float_of_int_small n :
  0 <= n < 2 ^ 53 -> exists f, float_of_int n = inr f.
Proof.
  intros Hn. unfold float_of_int.
  pose proof (binary_normalize_between n 0 false 0 (2 ^ 53 - 1) 0
                ltac:(lia) ltac:(lia) ltac:(lia)
                ltac:(intros; symmetry; apply Z.ltb_ge; lia)) as H.
  replace (Z.abs n) with n in H by lia.
  specialize (H (proj2 (me_le_int 0 n) ltac:(lia))
                (proj2 (me_le_int n (2 ^ 53 - 1)) ltac:(lia))).
  destruct (binary_normalize prec emax n 0 false) as [s|s| |s m e];
    cbn [fbetween] in H; try contradiction; cbn; eauto.
Qed.

(** Once the running sum is a float it stays one: bytes and floats are
    added without an error. *)
Lemma sum_from_float xs : forall x,
  Forall (fun v => is_byte v \/ exists y, v = PyFloat y) xs ->
  exists y, sum_from (PyFloat x) xs = inr (PyFloat y).
Proof.
  induction xs as [|v xs IH]; intros x H; cbn [sum_from].
  - exists x. reflexivity.
  - inversion H as [|v' xs' Hv Hxs]; subst.
    destruct Hv as [Hv|[y ->]].
    + destruct v as [n|?]; cbn [is_byte] in Hv; [|contradiction].
      destruct (float_of_int_small n ltac:(cbn; lia)) as (f & Ef).
      unfold add, arith. cbn [to_float bind ret Monad_either].
      rewrite Ef. cbn [bind ret Monad_either]. apply IH. exact Hxs.
    + unfold add, arith. cbn [to_float bind ret Monad_either].
      apply IH. exact Hxs.
Qed.

(** A sum of bytes and floats with a float among them is a float. *)
Lemma sum_from_mixed xs : forall a,
  0 <= a -> a + 255 * Z.of_nat (length xs) < 2 ^ 53 ->
  Forall (fun v => is_byte v \/ exists y, v = PyFloat y) xs ->
  Exists (fun v => exists y, v = PyFloat y) xs ->
  exists y, sum_from (PyInt a) xs = inr (PyFloat y).
Proof.
  induction xs as [|v xs IH]; intros a Ha Hlen H E.
  - inversion E.
  - inversion H as [|v' xs' Hv Hxs]; subst.
    cbn [length] in Hlen. rewrite Nat2Z.inj_succ in Hlen.
    cbn [sum_from].
    destruct v as [n|y].
    + destruct Hv as [Hv|[y Hy]]; [|discriminate]. cbn [is_byte] in Hv.
      unfold add, arith. cbn [bind ret Monad_either].
      apply IH; try lia; [exact Hxs|].
      inversion E as [? ? [y Hy]|]; [discriminate|assumption].
    + destruct (float_of_int_small a ltac:(lia)) as (f & Ef).
      unfold add, arith. cbn [to_float bind ret Monad_either].
      rewrite Ef. cbn [bind ret Monad_either].
      apply sum_from_float. exact Hxs.
Qed.

(** X1: a float in the remote style, [cmd_1], [cmd_2] or the group number
    makes [_build_command] raise at the checksum, before a frame is put
    together, whatever the bridge holds: [TypeError] when each of the four
    is a byte or a float, and [TypeError] or [OverflowError] in general
    ([OverflowError] for [cmd_1 = 2 ** 1100] and a float [cmd_2]). *)
Theorem build_command_float_raises :
  (forall self c1 c2,
      (exists x, _remote_style self = PyFloat x \/ c1 = PyFloat x \/
                 c2 = PyFloat x \/ _group_number self = PyFloat x) ->
      _build_command self c1 c2 = inl TypeError \/
      _build_command self c1 c2 = inl OverflowError) /\
  (forall self c1 c2,
      (exists x, _remote_style self = PyFloat x \/ c1 = PyFloat x \/
                 c2 = PyFloat x \/ _group_number self = PyFloat x) ->
      (is_byte (_remote_style self) \/ exists y, _remote_style self = PyFloat y) ->
      (is_byte c1 \/ exists y, c1 = PyFloat y) ->
      (is_byte c2 \/ exists y, c2 = PyFloat y) ->
      (is_byte (_group_number self) \/
       exists y, _group_number self = PyFloat y) ->
      _build_command self c1 c2 = inl TypeError) /\
  (forall self,
      _remote_style self = PyInt 8 -> _group_number self = PyInt 1 ->
      _build_command self (PyInt (2 ^ 1100)) (PyFloat f_half)
      = inl OverflowError).
Proof.
  split; [|split].
  - intros self c1 c2 (x & Hx).
    destruct (_build_command self c1 c2) as [e|cmd] eqn:E.
    + revert E. unfold _build_command.
      destruct (sum _) as [e'|s] eqn:Es; cbn [bind Monad_either].
      * intros H. inv H. right. f_equal. exact (sum_from_error _ _ _ Es).
      * destruct s as [n|y]; cbn [and_ bind Monad_either ret raise];
          [discriminate|]. intros H. inv H. now left.
    + exfalso.
      destruct (build_command_inv _ _ _ _ E)
        as (rs & a & b & zone & Hrs & -> & -> & Hz).
      rewrite Hrs, Hz in Hx.
      destruct Hx as [Hx|[Hx|[Hx|Hx]]]; discriminate.
  - intros self c1 c2 (x & Hx) Brs B1 B2 Bz.
    unfold _build_command, sum.
    match goal with
    | |- context [sum_from (PyInt 0) ?l] =>
        destruct (sum_from_mixed l 0 ltac:(lia) ltac:(cbn; lia)) as (y & ->)
    end.
    + unfold PASSWORD_BYTE1, PASSWORD_BYTE2.
      repeat (apply Forall_cons; [first [assumption|left; cbn; lia]|]).
      apply Forall_nil.
    + destruct Hx as [Hx|[Hx|[Hx|Hx]]].
      * do 3 apply Exists_cons_tl. apply Exists_cons_hd. eauto.
      * do 4 apply Exists_cons_tl. apply Exists_cons_hd. eauto.
      * do 5 apply Exists_cons_tl. apply Exists_cons_hd. eauto.
      * do 9 apply Exists_cons_tl. apply Exists_cons_hd. eauto.
    + reflexivity.
  - intros self Hrs Hz. unfold _build_command. rewrite Hrs, Hz.
    vm_compute. reflexivity.
Qed.

Lemma build_command_float_raises_witness :
  _build_command (new CommandSetWhiteV6 bridge_example (PyInt 1))
                 (PyInt 0x05) (PyFloat f_half) = inl TypeError.
Proof.
  apply (proj1 (proj2 build_command_float_raises)
               (new CommandSetWhiteV6 bridge_example (PyInt 1))
               (PyInt 0x05) (PyFloat f_half)).
  - exists f_half. right. right. left. reflexivity.
  - left. cbn. lia.
  - left. cbn. lia.
  - right. eauto.
  - left. cbn. lia.
Defined.

(** ** The colour byte depends on the hue only *)

Lemma spec_hue_int r g b :
  spec_hue (PyInt r, PyInt g, PyInt b) = Some (spec_hue_frac r g b).
Proof.
  unfold spec_hue. cbn [ext_of]. change (Z.min 0 (Z.min 0 0)) with 0.
  unfold sc. change (2 ^ (0 - 0)) with 1. rewrite !Z.mul_1_r. reflexivity.
Qed.

(** A quotient of two integers depends on the fraction only. *)
Lemma int_truediv_cross k n k' n' :
  0 < n -> 0 < n' -> k * n' = k' * n -> int_truediv k n = int_truediv k' n'.
Proof.
  intros Hn Hn' H.
  rewrite <- (int_truediv_scale n' k n Hn').
  rewrite <- (int_truediv_scale n k' n' Hn).
  f_equal; lia.
Qed.

(** Two numerators of which one is the whole range are fixed by their
    difference. *)
Lemma pair_of_diff x y n x' y' n' :
  0 < n -> 0 < n' ->
  0 <= x <= n -> 0 <= y <= n -> x = n \/ y = n ->
  0 <= x' <= n' -> 0 <= y' <= n' -> x' = n' \/ y' = n' ->
  (x - y) * n' = (x' - y') * n ->
  x * n' = x' * n /\ y * n' = y' * n.
Proof.
  intros Hn Hn' Hx Hy Hxy Hx' Hy' Hxy' H.
  assert (A1 : x' * n <= n' * n) by (apply Z.mul_le_mono_nonneg_r; lia).
  assert (A2 : y' * n <= n' * n) by (apply Z.mul_le_mono_nonneg_r; lia).
  assert (A3 : x * n' <= n * n') by (apply Z.mul_le_mono_nonneg_r; lia).
  assert (A4 : y * n' <= n * n') by (apply Z.mul_le_mono_nonneg_r; lia).
  destruct Hxy as [-> | ->], Hxy' as [-> | ->]; nia.
Qed.

(** The sectors of the hue: where the numerator of [spec_hue_frac] lies,
    by the branch [rgb_to_hsv] takes. *)
Lemma spec_hue_frac_cases r g b :
  let M := Z.max (Z.max r g) b in
  let m := Z.min (Z.min r g) b in
  let n := M - m in
  0 < n ->
  snd (spec_hue_frac r g b) = 6 * n /\
  ((r = M /\ b <= g /\ fst (spec_hue_frac r g b) = g - b /\
    0 <= g - b <= n) \/
   (r = M /\ g < b /\ fst (spec_hue_frac r g b) = g - b + 6 * n /\
    - n <= g - b) \/
   (r <> M /\ g = M /\ fst (spec_hue_frac r g b) = 2 * n + (b - r) /\
    - n < b - r <= n) \/
   (r <> M /\ g <> M /\ b = M /\
    fst (spec_hue_frac r g b) = 4 * n + (r - g) /\ - n < r - g < n)).
Proof.
  intros M m n Hn. unfold spec_hue_frac. fold M m n.
  destruct (Z.eqb_spec n 0) as [|_]; [lia|].
  destruct (Z.eqb_spec r M) as [HrM|HrM].
  - cbn [fst snd]. split; [reflexivity|].
    destruct (Z_le_gt_dec b g) as [Hbg|Hbg].
    + left. split; [exact HrM|]. split; [exact Hbg|].
      split; [apply Z.mod_small|]; unfold n, M, m in *; lia.
    + right. left. split; [exact HrM|]. split; [lia|].
      split; [|unfold n, M, m in *; lia].
      symmetry. apply (Z.mod_unique (g - b) (6 * n) (-1)); [left|];
        unfold n, M, m in *; lia.
  - destruct (Z.eqb_spec g M) as [HgM|HgM]; cbn [fst snd];
      (split; [reflexivity|]); right; right; [left|right];
      repeat split; unfold n, M, m in *; lia.
Qed.

Lemma prod_bounds d n n' :
  0 < n' ->
  (- n <= d -> - (n * n') <= d * n') /\
  (d <= n -> d * n' <= n * n') /\
  (- n < d -> - (n * n') < d * n') /\
  (d < n -> d * n' < n * n') /\
  (0 <= d -> 0 <= d * n') /\
  (d < 0 -> d * n' < 0).
Proof. intros Hn. repeat split; intros; nia. Qed.

Lemma convert_color_int_grey r g b :
  Z.max (Z.max r g) b = Z.min (Z.min r g) b ->
  convert_color (PyInt r, PyInt g, PyInt b) = inr (PyInt 0).
Proof.
  intros H. unfold convert_color, colorsys.rgb_to_hsv.
  rewrite max3_int, min3_int, H.
  set (mn := Z.min (Z.min r g) b).
  change (sub (PyInt mn) (PyInt mn)) with (@inr exn _ (PyInt (mn - mn))).
  cbn [bind Monad_either]. rewrite eqb_int, Z.eqb_refl.
  cbn [bind ret Monad_either fst]. vm_compute. reflexivity.
Qed.

Ltac flat :=
  cbn [bind ret Monad_either fst];
  repeat (match goal with
          | |- context [add ?x ?y] => destruct (add x y)
          | |- context [sub ?x ?y] => destruct (sub x y)
          | |- context [truediv ?x ?y] => destruct (truediv x y)
          | |- context [mod_ ?x ?y] => destruct (mod_ x y)
          end; cbn [bind ret Monad_either fst]);
  try reflexivity.

(** The colour byte of three non-negative integers that are not all equal:
    the branch [rgb_to_hsv] takes, its two quotients [x / n] and [y / n],
    and where the exact hue [(base + (x - y) / n) / 6] lies. *)
Lemma convert_color_int_key r g b :
  0 <= r -> 0 <= g -> 0 <= b ->
  let n := Z.max (Z.max r g) b - Z.min (Z.min r g) b in
  0 < n ->
  exists (c1 c2 : bool) (x y base : Z) (fx fy : float),
    fst (spec_hue_frac r g b) = base * n + (x - y) /\
    snd (spec_hue_frac r g b) = 6 * n /\
    0 <= x <= n /\ 0 <= y <= n /\ (x = n \/ y = n) /\
    int_truediv x n = inr fx /\ int_truediv y n = inr fy /\
    ((base = 0 /\ c1 = true /\ c2 = true /\ 0 <= x - y) \/
     (base = 6 /\ c1 = true /\ c2 = true /\ x - y < 0) \/
     (base = 2 /\ c1 = false /\ c2 = true /\ - n < x - y) \/
     (base = 4 /\ c1 = false /\ c2 = false /\ - n < x - y < n)) /\
    convert_color (PyInt r, PyInt g, PyInt b)
    = (h <- (if c1 then sub (PyFloat fx) (PyFloat fy)
             else if c2
                  then t <- add (PyFloat (lit 2 0)) (PyFloat fx) ;;
                       sub t (PyFloat fy)
                  else t <- add (PyFloat (lit 4 0)) (PyFloat fx) ;;
                       sub t (PyFloat fy)) ;;
       h6 <- truediv h (PyFloat (lit 6 0)) ;;
       hh <- mod_ h6 (PyFloat (lit 1 0)) ;;
       x <- mul hh (PyInt MAX_COLOR) ;; floor x).
Proof.
  intros Hr Hg Hb n Hn.
  pose proof (spec_hue_frac_cases r g b Hn) as [Hd Hc].
  unfold convert_color, colorsys.rgb_to_hsv.
  rewrite max3_int, min3_int.
  set (Mx := Z.max (Z.max r g) b) in *. set (mn := Z.min (Z.min r g) b) in *.
  change (sub (PyInt Mx) (PyInt mn)) with (@inr exn _ (PyInt (Mx - mn))).
  cbn [bind Monad_either]. rewrite eqb_int. fold n.
  destruct (Z.eqb_spec mn Mx) as [Heq|Hne]; [unfold n in Hn; lia|].
  destruct (ratio_unit n Mx) as (qs & Es & _); try (unfold n, Mx, mn in *; lia).
  unfold truediv at 1. rewrite Es. cbn [bind ret Monad_either].
  change (sub (PyInt Mx) (PyInt r)) with (@inr exn _ (PyInt (Mx - r))).
  change (sub (PyInt Mx) (PyInt g)) with (@inr exn _ (PyInt (Mx - g))).
  change (sub (PyInt Mx) (PyInt b)) with (@inr exn _ (PyInt (Mx - b))).
  cbn [bind Monad_either].
  destruct (ratio_unit (Mx - r) n) as (rc & Er & _);
    try (unfold n, Mx, mn in *; lia).
  destruct (ratio_unit (Mx - g) n) as (gc & Eg & _);
    try (unfold n, Mx, mn in *; lia).
  destruct (ratio_unit (Mx - b) n) as (bc & Eb & _);
    try (unfold n, Mx, mn in *; lia).
  unfold truediv at 1. rewrite Er. cbn [bind ret Monad_either].
  unfold truediv at 1. rewrite Eg. cbn [bind ret Monad_either].
  unfold truediv at 1. rewrite Eb. cbn [bind ret Monad_either].
  rewrite !eqb_int.
  destruct Hc as [(HrM & Hbg & HN & Hrng)|[(HrM & Hbg & HN & Hrng)|
                  [(HrM & HgM & HN & Hrng)|(HrM & HgM & HbM & HN & Hrng)]]].
  - exists true, true, (Mx - b), (Mx - g), 0, bc, gc.
    rewrite (proj2 (Z.eqb_eq r Mx) HrM).
    split; [unfold n, Mx, mn in *; lia|]. split; [exact Hd|]. split; [unfold n, Mx, mn in *; lia|]. split; [unfold n, Mx, mn in *; lia|].
    split; [unfold n, Mx, mn in *; lia|]. split; [exact Eb|]. split; [exact Eg|].
    split; [left; repeat split; lia|flat].
  - exists true, true, (Mx - b), (Mx - g), 6, bc, gc.
    rewrite (proj2 (Z.eqb_eq r Mx) HrM).
    split; [unfold n, Mx, mn in *; lia|]. split; [exact Hd|]. split; [unfold n, Mx, mn in *; lia|]. split; [unfold n, Mx, mn in *; lia|].
    split; [unfold n, Mx, mn in *; lia|]. split; [exact Eb|]. split; [exact Eg|].
    split; [right; left; repeat split; lia|flat].
  - exists false, true, (Mx - r), (Mx - b), 2, rc, bc.
    rewrite (proj2 (Z.eqb_neq r Mx) HrM), (proj2 (Z.eqb_eq g Mx) HgM).
    split; [unfold n, Mx, mn in *; lia|]. split; [exact Hd|]. split; [unfold n, Mx, mn in *; lia|]. split; [unfold n, Mx, mn in *; lia|].
    split; [unfold n, Mx, mn in *; lia|]. split; [exact Er|]. split; [exact Eb|].
    split; [right; right; left; repeat split; lia|flat].
  - exists false, false, (Mx - g), (Mx - r), 4, gc, rc.
    rewrite (proj2 (Z.eqb_neq r Mx) HrM), (proj2 (Z.eqb_neq g Mx) HgM).
    split; [unfold n, Mx, mn in *; lia|]. split; [exact Hd|]. split; [unfold n, Mx, mn in *; lia|]. split; [unfold n, Mx, mn in *; lia|].
    split; [unfold n, Mx, mn in *; lia|]. split; [exact Eg|]. split; [exact Er|].
    split; [right; right; right; repeat split; lia|flat].
Qed.

(** The exact hue fixes the sector and the difference of the quotients. *)
Lemma sector_eq base d n base' d' n' :
  0 < n -> 0 < n' ->
  (base = 0 /\ 0 <= d <= n) \/ (base = 6 /\ - n <= d < 0) \/
  (base = 2 /\ - n < d <= n) \/ (base = 4 /\ - n < d < n) ->
  (base' = 0 /\ 0 <= d' <= n') \/ (base' = 6 /\ - n' <= d' < 0) \/
  (base' = 2 /\ - n' < d' <= n') \/ (base' = 4 /\ - n' < d' < n') ->
  (base * n + d) * n' = (base' * n' + d') * n ->
  base = base' /\ d * n' = d' * n.
Proof.
  intros Hn Hn' S S' H.
  pose proof (prod_bounds d n n' Hn') as (B1 & B2 & B3 & B4 & B5 & B6).
  pose proof (prod_bounds d' n' n Hn) as (C1 & C2 & C3 & C4 & C5 & C6).
  assert (P : 0 < n * n') by (apply Z.mul_pos_pos; assumption).
  assert (Q : n' * n = n * n') by ring.
  assert (E : base * (n * n') + d * n' = base' * (n * n') + d' * n)
    by (rewrite <- Q at 2; lia).
  clear H.
  set (p := n * n') in *. set (u := d * n') in *. set (w := d' * n) in *.
  rewrite Q in C1, C2, C3, C4. fold p in C1, C2, C3, C4.
  destruct S as [[-> S]|[[-> S]|[[-> S]|[-> S]]]];
    destruct S' as [[-> S']|[[-> S']|[[-> S']|[-> S']]]];
    (split; [|try lia]); try reflexivity; exfalso;
    repeat match goal with
           | H : ?a -> _ |- _ =>
               first [specialize (H ltac:(lia)) | clear H]
           end; lia.
Qed.

Lemma spec_hue_frac_grey r g b :
  Z.max (Z.max r g) b = Z.min (Z.min r g) b -> spec_hue_frac r g b = (0, 1).
Proof.
  intros H. unfold spec_hue_frac. rewrite H, Z.sub_diag. reflexivity.
Qed.

Lemma int_truediv_self n : 0 < n -> int_truediv n n = inr one.
Proof.
  intros Hn. rewrite (int_truediv_cross n n 1 1) by lia. reflexivity.
Qed.

(** A colour with a range whose exact hue is 0 has the byte of a grey. *)
Lemma convert_color_int_hue_zero r g b :
  0 <= r -> 0 <= g -> 0 <= b ->
  0 < Z.max (Z.max r g) b - Z.min (Z.min r g) b ->
  fst (spec_hue_frac r g b) = 0 ->
  convert_color (PyInt r, PyInt g, PyInt b) = inr (PyInt 0).
Proof.
  intros Hr Hg Hb Hn H0.
  destruct (convert_color_int_key r g b Hr Hg Hb Hn)
    as (c1 & c2 & x & y & base & fx & fy & HN & _ & Hx & Hy & Hxy & Ex & Ey
        & S & ->).
  set (n := Z.max (Z.max r g) b - Z.min (Z.min r g) b) in *.
  assert (base = 0 /\ x = n /\ y = n /\ c1 = true) as (-> & -> & -> & ->).
  { destruct S as [(-> & -> & _ & S)|[(-> & -> & _ & S)|
                   [(-> & -> & _ & S)|(-> & -> & _ & S)]]]; lia. }
  rewrite (int_truediv_self n Hn) in Ex, Ey.
  injection Ex as <-. injection Ey as <-.
  vm_compute. reflexivity.
Qed.

Lemma convert_color_hue_only_int r g b r' g' b' :
  0 <= r -> 0 <= g -> 0 <= b -> 0 <= r' -> 0 <= g' -> 0 <= b' ->
  fst (spec_hue_frac r g b) * snd (spec_hue_frac r' g' b')
  = fst (spec_hue_frac r' g' b') * snd (spec_hue_frac r g b) ->
  convert_color (PyInt r, PyInt g, PyInt b)
  = convert_color (PyInt r', PyInt g', PyInt b').
Proof.
  intros Hr Hg Hb Hr' Hg' Hb' H.
  set (n := Z.max (Z.max r g) b - Z.min (Z.min r g) b).
  set (n' := Z.max (Z.max r' g') b' - Z.min (Z.min r' g') b').
  assert (Hn0 : 0 <= n) by (unfold n; lia).
  assert (Hn0' : 0 <= n') by (unfold n'; lia).
  destruct (Z.eq_dec n 0) as [Z0|NZ]; destruct (Z.eq_dec n' 0) as [Z0'|NZ'].
  - rewrite !convert_color_int_grey by (unfold n, n' in *; lia). reflexivity.
  - rewrite (convert_color_int_grey r g b) by (unfold n in *; lia).
    rewrite (spec_hue_frac_grey r g b) in H by (unfold n in *; lia).
    cbn [fst snd] in H.
    symmetry. apply convert_color_int_hue_zero; try assumption;
      [fold n'; lia|lia].
  - rewrite (convert_color_int_grey r' g' b') by (unfold n' in *; lia).
    rewrite (spec_hue_frac_grey r' g' b') in H by (unfold n' in *; lia).
    cbn [fst snd] in H.
    apply convert_color_int_hue_zero; try assumption; [fold n; lia|lia].
  - assert (Hn : 0 < n) by lia. assert (Hn' : 0 < n') by lia.
    destruct (convert_color_int_key r g b Hr Hg Hb Hn)
      as (c1 & c2 & x & y & base & fx & fy & HN & HD & Hx & Hy & Hxy & Ex & Ey
          & S & ->).
    destruct (convert_color_int_key r' g' b' Hr' Hg' Hb' Hn')
      as (c1' & c2' & x' & y' & base' & fx' & fy' & HN' & HD' & Hx' & Hy'
          & Hxy' & Ex' & Ey' & S' & ->).
    fold n in HN, HD, Hx, Hy, Hxy, Ex, Ey, S.
    fold n' in HN', HD', Hx', Hy', Hxy', Ex', Ey', S'.
    rewrite HN, HD, HN', HD' in H.
    assert (H' : (base * n + (x - y)) * n' = (base' * n' + (x' - y')) * n)
      by lia.
    destruct (sector_eq base (x - y) n base' (x' - y') n' Hn Hn') as [Eb Ed];
      [| |exact H'|].
    { destruct S as [(-> & _ & _ & S)|[(-> & _ & _ & S)|
                     [(-> & _ & _ & S)|(-> & _ & _ & S)]]];
        [left|right; left|right; right; left|right; right; right]; lia. }
    { destruct S' as [(-> & _ & _ & S')|[(-> & _ & _ & S')|
                      [(-> & _ & _ & S')|(-> & _ & _ & S')]]];
        [left|right; left|right; right; left|right; right; right]; lia. }
    destruct (pair_of_diff x y n x' y' n' Hn Hn' Hx Hy Hxy Hx' Hy' Hxy' Ed)
      as [Exx Eyy].
    rewrite (int_truediv_cross x n x' n' Hn Hn' Exx) in Ex.
    rewrite (int_truediv_cross y n y' n' Hn Hn' Eyy) in Ey.
    assert (fx = fx') by congruence. assert (fy = fy') by congruence.
    subst fx' fy'.
    assert (c1 = c1' /\ c2 = c2') as [-> ->].
    { destruct S as [(-> & -> & -> & _)|[(-> & -> & -> & _)|
                     [(-> & -> & -> & _)|(-> & -> & -> & _)]]];
        destruct S' as [(-> & -> & -> & _)|[(-> & -> & -> & _)|
                        [(-> & -> & -> & _)|(-> & -> & -> & _)]]];
        try (split; reflexivity); lia. }
    reflexivity.
Qed.

(** C5, amended: [convert_color] takes the hue of [rgb_to_hsv] and returns the
    floor of hue times 255.  Whenever it returns, the result is an integer z
    with z <= hue * 255 < z + 1 and 0 <= z <= 255; for integer components in
    [0, 255] it always returns and 0 <= z <= 254.  On non-negative integer
    components it depends on the hue only: two triples of the same exact hue
    get the same byte whatever their saturation and value.  On floats they
    need not: (0.625, 0.25, 0.0) and (1.0, 0x1.99999999999a5p-2, 19 * 2**-54)
    both have the hue 1/15, and the bytes 17 and 16.  Pure red, green and
    blue give 0, 85 and 170. *)
Theorem C5_convert_color_hue_byte :
  (forall c v,
      convert_color c = inr v ->
      exists h s' v' p z,
        (let '(r, g, b) := c in colorsys.rgb_to_hsv r g b) = inr (h, s', v') /\
        mul h (PyInt MAX_COLOR) = inr p /\ v = PyInt z /\
        leb (PyInt z) p = true /\ ltb p (PyInt (z + 1)) = true /\
        0 <= z <= 255) /\
  (forall r g b,
      0 <= r <= 255 -> 0 <= g <= 255 -> 0 <= b <= 255 ->
      exists z,
        convert_color (PyInt r, PyInt g, PyInt b) = inr (PyInt z) /\
        0 <= z <= 254) /\
  (forall r g b r' g' b',
      0 <= r -> 0 <= g -> 0 <= b -> 0 <= r' -> 0 <= g' -> 0 <= b' ->
      same_hue (PyInt r, PyInt g, PyInt b) (PyInt r', PyInt g', PyInt b') ->
      convert_color (PyInt r, PyInt g, PyInt b)
      = convert_color (PyInt r', PyInt g', PyInt b')) /\
  ((exists n d,
       spec_hue (PyFloat (lit 5 (-3)), PyFloat (lit 1 (-2)), PyFloat f_zero)
       = Some (n, d) /\ 15 * n = d) /\
   (exists n d,
       spec_hue (PyFloat one, PyFloat (lit 7205759403792805 (-54)),
                 PyFloat (lit 19 (-54)))
       = Some (n, d) /\ 15 * n = d) /\
   same_hue (PyFloat (lit 5 (-3)), PyFloat (lit 1 (-2)), PyFloat f_zero)
            (PyFloat one, PyFloat (lit 7205759403792805 (-54)),
             PyFloat (lit 19 (-54))) /\
   convert_color (PyFloat (lit 5 (-3)), PyFloat (lit 1 (-2)), PyFloat f_zero)
   = inr (PyInt 17) /\
   convert_color (PyFloat one, PyFloat (lit 7205759403792805 (-54)),
                  PyFloat (lit 19 (-54)))
   = inr (PyInt 16)) /\
  convert_color (PyInt 255, PyInt 0, PyInt 0) = inr (PyInt 0) /\
  convert_color (PyInt 0, PyInt 255, PyInt 0) = inr (PyInt 85) /\
  convert_color (PyInt 0, PyInt 0, PyInt 255) = inr (PyInt 170).
Proof.
  split; [|split; [exact convert_color_int|split; [|split]]].
  - intros c v H. destruct (convert_color_range c v H) as (z & -> & Hz).
    destruct c as [[r g] b]. unfold convert_color in H.
    destruct (colorsys.rgb_to_hsv r g b) as [?|[[h s'] v']];
      cbn [bind Monad_either fst] in H; [discriminate|].
    destruct (mul h (PyInt MAX_COLOR)) as [?|p] eqn:Ep;
      cbn [bind Monad_either] in H; [discriminate|].
    apply floor_spec in H.
    exists h, s', v', p, z. tauto.
  - intros r g b r' g' b' Hr Hg Hb Hr' Hg' Hb' H.
    unfold same_hue in H. rewrite !spec_hue_int in H.
    destruct (spec_hue_frac r g b) as [n d] eqn:E.
    destruct (spec_hue_frac r' g' b') as [n' d'] eqn:E'.
    apply convert_color_hue_only_int; try assumption.
    rewrite E, E'. exact H.
  - split; [|split; [|repeat split; vm_compute; reflexivity]];
      do 2 eexists; (split; [vm_compute; reflexivity|reflexivity]).
  - repeat split; vm_compute; reflexivity.
Qed.

Lemma C5_convert_color_hue_byte_witness :
  convert_color (PyInt 200, PyInt 100, PyInt 0)
  = convert_color (PyInt 200, PyInt 150, PyInt 100) /\
  (exists z, 0 <= z <= 255 /\
             convert_color (PyFloat one, PyFloat f_half, PyFloat f_zero)
             = inr (PyInt z)) /\
  exists z, convert_color (PyInt 10, PyInt 200, PyInt 30) = inr (PyInt z) /\
            0 <= z <= 254.
Proof.
  split; [|split].
  - apply (proj1 (proj2 (proj2 C5_convert_color_hue_byte))
             200 100 0 200 150 100); try lia.
    vm_compute. reflexivity.
  - destruct (proj1 C5_convert_color_hue_byte
                (PyFloat one, PyFloat f_half, PyFloat f_zero) (PyInt 21))
      as (h & s' & v' & p & z & _ & _ & Hv & _ & _ & Hz);
      [vm_compute; reflexivity|].
    exists z. split; [exact Hz|]. rewrite <- Hv. vm_compute. reflexivity.
  - apply (proj1 (proj2 C5_convert_color_hue_byte) 10 200 30); lia.
Defined.
